(** * transit_tracker: a shallow embedding of the TransitTracker component

    The development follows [components/transit_tracker/transit_tracker.cpp]
    and [transit_tracker.h].  Each C++ member function is embedded as a Rocq
    function over an explicit component state; calls into collaborators that
    live outside the repository (the websocket client, the JSON library, the
    scheduler, the display) are modelled at their interface. *)

From Stdlib Require Import ZArith Ascii String.
From stdpp Require Import gmap strings list pretty.

(** * Machine integers

    The target is a 32-bit ESP32: [int] and [long] are 32-bit two's
    complement, [unsigned long] and [size_t] are 32-bit. *)

Module MachineInt.

Definition two32 : Z := 4294967296.
Definition two31 : Z := 2147483648.

(** Conversion to [unsigned long] / [size_t]. *)
Definition to_unsigned (z : Z) : Z := z `mod` two32.

(** Conversion to [int] / [long]. *)
Definition to_signed (z : Z) : Z := (z + two31) `mod` two32 - two31.

(** [std::min] on [int]. *)
Definition int_min (a b : Z) : Z := if (b <? a)%Z then b else a.

End MachineInt.

(** * [std::string]

    A [std::string] is a Rocq [string]; the member functions used by the
    component are [find], [replace] and the free function [std::stoul]. *)

Module StdString.

Fixpoint take (n : nat) (s : string) : string :=
  match n, s with
  | S n', String c r => String c (take n' r)
  | _, _ => ""
  end.

Fixpoint drop (n : nat) (s : string) : string :=
  match n, s with
  | S n', String _ r => drop n' r
  | _, _ => s
  end.

(** [hay.find(needle)]: position of the first occurrence, [None] for
    [std::string::npos]. *)
Fixpoint find (hay needle : string) : option nat :=
  if String.prefix needle hay then Some 0%nat
  else match hay with
       | "" => None
       | String _ rest => S <$> find rest needle
       end.

(** [s.replace(pos, len, by)]; [None] stands for the [std::out_of_range]
    thrown when [pos > s.size()]. *)
Definition replace (s : string) (pos len : nat) (by_ : string)
  : option string :=
  if decide (pos ≤ String.length s)%nat
  then Some (take pos s +:+ by_ +:+ drop (pos + len) s)
  else None.

(** ** [std::stoul(str, nullptr, 16)] *)

Definition ULONG_MAX : Z := MachineInt.two32 - 1.

(** The value of a character as a digit, as [strtoul] computes it from the
    character code: decimal digits, then letters of either case from 10
    on. *)
Definition digit_value (c : ascii) : option Z :=
  let code := Z.of_N (N_of_ascii c) in
  if (48 <=? code)%Z && (code <=? 57)%Z then Some (code - 48)%Z
  else if (97 <=? code)%Z && (code <=? 122)%Z then Some (code - 97 + 10)%Z
  else if (65 <=? code)%Z && (code <=? 90)%Z then Some (code - 65 + 10)%Z
  else None.

(** A digit of base 16. *)
Definition hex_digit (c : ascii) : option Z :=
  match digit_value c with
  | Some d => if (d <? 16)%Z then Some d else None
  | None => None
  end.

Fixpoint skip_space (s : string) : string :=
  match s with
  | String c r => if Ascii.is_space c then skip_space r else s
  | "" => s
  end.

(** The digits of the longest prefix made of hexadecimal digits. *)
Fixpoint hex_run (s : string) : list Z :=
  match s with
  | String c r =>
      match hex_digit c with
      | Some d => d :: hex_run r
      | None => []
      end
  | "" => []
  end.

Definition digits_value (ds : list Z) : Z :=
  foldl (λ acc d, acc * 16 + d)%Z 0%Z ds.

Inductive stoul_result :=
| StoulValue (v : Z)
| StoulInvalidArgument
| StoulOutOfRange.

(** An optional sign in front of the digits. *)
Definition strip_sign (s : string) : bool * string :=
  match s with
  | String "-" rest => (true, rest)
  | String "+" rest => (false, rest)
  | _ => (false, s)
  end%char.

(** An optional [0x] or [0X] in front of a hexadecimal digit. *)
Definition strip_0x (s : string) : string :=
  match s with
  | String "0" (String x (String d rest)) =>
      if (bool_decide (x = "x") || bool_decide (x = "X"))%char
           && bool_decide (is_Some (hex_digit d))
      then String d rest else s
  | _ => s
  end%char.

(** [strtoul] with base 16 followed by the checks of [std::stoul]:
    leading white space, an optional sign, an optional [0x] prefix, then
    the longest run of hexadecimal digits.  No digit at all raises
    [std::invalid_argument]; a value above [ULONG_MAX] raises
    [std::out_of_range]; a minus sign negates in [unsigned long]. *)
Definition stoul16 (str : string) : stoul_result :=
  let '(neg, s2) := strip_sign (skip_space str) in
  match hex_run (strip_0x s2) with
  | [] => StoulInvalidArgument
  | ds =>
      let v := digits_value ds in
      if (ULONG_MAX <? v)%Z then StoulOutOfRange
      else StoulValue (if neg then MachineInt.to_unsigned (- v) else v)
  end.

End StdString.

(** * [esphome::Color]

    Declared in ESPHome's [core/color.h]; the constructor from a 32-bit
    colour code splits it into the four 8-bit channels. *)

Record Color := mkColor { red : Z; green : Z; blue : Z; white : Z }.

Global Instance Color_eq_dec : EqDecision Color.
Proof. solve_decision. Defined.

Definition Color_of_code (colorcode : Z) : Color :=
  {| red := Z.land (Z.shiftr colorcode 16) 255;
     green := Z.land (Z.shiftr colorcode 8) 255;
     blue := Z.land colorcode 255;
     white := Z.land (Z.shiftr colorcode 24) 255 |}.

(** * [std::map<std::string, V>] with iteration

    [abbreviations_] is iterated by the message handler, and a [std::map]
    iterates in increasing key order, so that table is an association list
    kept sorted by key.  [operator[]] followed by assignment inserts the key
    at its place or overwrites the value it had. *)

Module StdMap.

Definition t (V : Type) := list (string * V).

Definition empty {V} : t V := [].

Fixpoint assign {V} (k : string) (v : V) (m : t V) : t V :=
  match m with
  | [] => [(k, v)]
  | (k', v') :: rest =>
      match String.compare k k' with
      | Lt => (k, v) :: m
      | Eq => (k, v) :: rest
      | Gt => (k', v') :: assign k v rest
      end
  end.

Fixpoint find {V} (k : string) (m : t V) : option V :=
  match m with
  | [] => None
  | (k', v') :: rest => if String.eqb k k' then Some v' else find k rest
  end.

End StdMap.

(** * Data model *)

Module RouteStyle.
Record t := mk { name : string; color : Color }.
End RouteStyle.

Module Trip.
(** Modelled from the spec: [schedule_state.h], which declares [Trip] and
    [ScheduleState], is not among the sources.  The fields are those of
    the initialiser in [on_ws_message_] and of section 3 of the
    specification; [ScheduleState] is a vector of trips and a mutex. *)
Record t := mk {
  stop_id : string;
  route_id : string;
  route_name : string;
  route_color : Color;
  headsign : string;
  arrival_time : Z;
  departure_time : Z;
  is_realtime : bool
}.
End Trip.

Record ConnectionState := mkConnectionState {
  connection_attempts_ : Z;
  last_heartbeat_ : Z;
  has_ever_connected_ : bool;
  fully_closed_ : bool
}.

Record PaginationState := mkPaginationState {
  current_stop_index_ : Z;
  current_subpage_index_ : Z;
  total_subpages_for_current_stop_ : Z;
  last_displayed_stop_name_ : string;
  last_page_switch_ : Z;
  current_page_duration_ : Z
}.

(** The members of [class TransitTracker] that the modelled functions read
    or write.  The members of the connection manager and of the pagination
    engine are grouped as in section 3 of the specification. *)
Record TransitTracker := mkTransitTracker {
  trips : list Trip.t;            (* schedule_state_.trips *)
  ws_connected : bool;            (* ws_client_: is the connection open? *)
  status_error : option string;   (* the message of status_set_error *)
  conn : ConnectionState;
  page : PaginationState;
  base_url_ : string;
  display_limit_ : Z;
  abbreviations_ : StdMap.t string;   (* iterated in key order *)
  default_route_color_ : Color;
  route_styles_ : gmap string RouteStyle.t;
  stop_names_ : gmap string string;
  stop_ids_ : list string
}.

Definition set_trips (v : list Trip.t) (t : TransitTracker) : TransitTracker :=
  {| trips := v; ws_connected := ws_connected t;
     status_error := status_error t; conn := conn t; page := page t;
     base_url_ := base_url_ t; display_limit_ := display_limit_ t;
     abbreviations_ := abbreviations_ t;
     default_route_color_ := default_route_color_ t;
     route_styles_ := route_styles_ t; stop_names_ := stop_names_ t;
     stop_ids_ := stop_ids_ t |}.

Definition set_ws_connected (v : bool) (t : TransitTracker) : TransitTracker :=
  {| trips := trips t; ws_connected := v; status_error := status_error t;
     conn := conn t; page := page t; base_url_ := base_url_ t;
     display_limit_ := display_limit_ t; abbreviations_ := abbreviations_ t;
     default_route_color_ := default_route_color_ t;
     route_styles_ := route_styles_ t; stop_names_ := stop_names_ t;
     stop_ids_ := stop_ids_ t |}.

Definition set_status_error (v : option string) (t : TransitTracker)
  : TransitTracker :=
  {| trips := trips t; ws_connected := ws_connected t; status_error := v;
     conn := conn t; page := page t; base_url_ := base_url_ t;
     display_limit_ := display_limit_ t; abbreviations_ := abbreviations_ t;
     default_route_color_ := default_route_color_ t;
     route_styles_ := route_styles_ t; stop_names_ := stop_names_ t;
     stop_ids_ := stop_ids_ t |}.

Definition set_conn (v : ConnectionState) (t : TransitTracker) : TransitTracker :=
  {| trips := trips t; ws_connected := ws_connected t;
     status_error := status_error t; conn := v; page := page t;
     base_url_ := base_url_ t; display_limit_ := display_limit_ t;
     abbreviations_ := abbreviations_ t;
     default_route_color_ := default_route_color_ t;
     route_styles_ := route_styles_ t; stop_names_ := stop_names_ t;
     stop_ids_ := stop_ids_ t |}.

Definition set_page (v : PaginationState) (t : TransitTracker) : TransitTracker :=
  {| trips := trips t; ws_connected := ws_connected t;
     status_error := status_error t; conn := conn t; page := v;
     base_url_ := base_url_ t; display_limit_ := display_limit_ t;
     abbreviations_ := abbreviations_ t;
     default_route_color_ := default_route_color_ t;
     route_styles_ := route_styles_ t; stop_names_ := stop_names_ t;
     stop_ids_ := stop_ids_ t |}.

Definition set_abbreviations_ (v : StdMap.t string) (t : TransitTracker)
  : TransitTracker :=
  {| trips := trips t; ws_connected := ws_connected t;
     status_error := status_error t; conn := conn t; page := page t;
     base_url_ := base_url_ t; display_limit_ := display_limit_ t;
     abbreviations_ := v; default_route_color_ := default_route_color_ t;
     route_styles_ := route_styles_ t; stop_names_ := stop_names_ t;
     stop_ids_ := stop_ids_ t |}.

Definition set_route_styles_ (v : gmap string RouteStyle.t)
    (t : TransitTracker) : TransitTracker :=
  {| trips := trips t; ws_connected := ws_connected t;
     status_error := status_error t; conn := conn t; page := page t;
     base_url_ := base_url_ t; display_limit_ := display_limit_ t;
     abbreviations_ := abbreviations_ t;
     default_route_color_ := default_route_color_ t; route_styles_ := v;
     stop_names_ := stop_names_ t; stop_ids_ := stop_ids_ t |}.

Definition set_stop_names_ (v : gmap string string) (t : TransitTracker)
  : TransitTracker :=
  {| trips := trips t; ws_connected := ws_connected t;
     status_error := status_error t; conn := conn t; page := page t;
     base_url_ := base_url_ t; display_limit_ := display_limit_ t;
     abbreviations_ := abbreviations_ t;
     default_route_color_ := default_route_color_ t;
     route_styles_ := route_styles_ t; stop_names_ := v;
     stop_ids_ := stop_ids_ t |}.

(** The state in which the component is constructed ([transit_tracker.h]);
    [limit_] and [display_limit_] have no initialiser and are set by the
    configuration. *)
Definition initial_connection : ConnectionState :=
  {| connection_attempts_ := 0; last_heartbeat_ := 0;
     has_ever_connected_ := false; fully_closed_ := false |}.

Definition initial_pagination : PaginationState :=
  {| current_stop_index_ := 0; current_subpage_index_ := 0;
     total_subpages_for_current_stop_ := 1;
     last_displayed_stop_name_ := "";
     last_page_switch_ := 0; current_page_duration_ := 0 |}.

Definition initial_tracker (display_limit : Z) : TransitTracker :=
  {| trips := []; ws_connected := false; status_error := None;
     conn := initial_connection; page := initial_pagination;
     base_url_ := ""; display_limit_ := display_limit;
     abbreviations_ := StdMap.empty;
     default_route_color_ := Color_of_code 167505;
     route_styles_ := ∅; stop_names_ := ∅; stop_ids_ := [] |}.

(** ** Effects and outcomes

    The calls into collaborators that the statements below speak of are
    recorded as effects.  [App.reboot()] restarts the device and does not return, and an
    exception that nothing catches ends the process: both end the run. *)

Inductive Page := StopNamePage | SchedulePage.

Inductive Effect :=
| WsClose
| WsConnect (url : string)
| SetTimeout (name : string) (ms : Z)
| AppReboot
| Draw (p : Page).

Global Instance Page_eq_dec : EqDecision Page.
Proof. solve_decision. Defined.

Global Instance Effect_eq_dec : EqDecision Effect.
Proof. solve_decision. Defined.

Inductive Termination := Rebooting | Aborted.

Inductive Outcome :=
| Continue (t : TransitTracker) (fx : list Effect)
| Terminated (why : Termination) (fx : list Effect).

Definition effects (o : Outcome) : list Effect :=
  match o with
  | Continue _ fx => fx
  | Terminated _ fx => fx
  end.

Definition status_set_error (msg : string) (t : TransitTracker) :=
  set_status_error (Some msg) t.

Definition status_clear_error (t : TransitTracker) :=
  set_status_error None t.

(** * The JSON document interface

    ArduinoJson is an external library; the handler uses these accessors of
    a variant.  [jmember v k] is [v.as<JsonObject>()[k]], a null variant when
    [v] is not an object or has no such member; [jas_cstr] is
    [as<const char*>()], with [None] for the null pointer it returns on
    anything that is not a string; [jas_array] lists the elements that the
    range-for over [as<JsonArray>()] visits. *)

Class JsonApi (V : Type) := {
  jmember : V → string → V;
  jis_null : V → bool;
  jas_cstr : V → option string;
  jas_array : V → list V;
  jas_time_t : V → Z;
  jas_bool : V → bool
}.

(** What [deserializeJson] made of [message.rawData()]. *)
Inductive Deserialized (V : Type) :=
| DeserializationError
| Document (root : V).
Arguments DeserializationError {V}.
Arguments Document {V} root.

(** * Schedule decoder: [on_ws_message_] *)

Section ScheduleDecoder.
Context {V : Type} `{JsonApi V}.

(** The inner loop over [abbreviations_].  The second component lists the
    entries for which the handler logs "Applying abbreviation", that is
    the entries whose replacement was carried out. *)
Fixpoint apply_abbreviations (abbrs : StdMap.t string) (headsign : string)
  : option (string * list (string * string)) :=
  match abbrs with
  | [] => Some (headsign, [])
  | abbr :: rest =>
      match StdString.find headsign abbr.1 with
      | Some pos =>
          headsign' ← StdString.replace headsign pos
                        (String.length abbr.1) abbr.2;
          '(final, applied) ← apply_abbreviations rest headsign';
          Some (final, abbr :: applied)
      | None => apply_abbreviations rest headsign
      end
  end.

(** Body of the loop over the trips of a schedule message.  Building a
    [std::string] from a null pointer and an exception of [std::stoul] are
    not caught anywhere: [None] is the process ending there. *)
Definition decode_trip (t : TransitTracker) (trip : V) : option Trip.t :=
  headsign0 ← jas_cstr (jmember trip "headsign");
  abbreviated ← apply_abbreviations (abbreviations_ t) headsign0;
  let headsign := abbreviated.1 in
  stop_id ← jas_cstr (jmember trip "stopId");
  route_id ← jas_cstr (jmember trip "routeId");
  route_name ← jas_cstr (jmember trip "routeName");
  styled ←
    match route_styles_ t !! route_id with
    | Some route_style =>
        Some (RouteStyle.color route_style, RouteStyle.name route_style)
    | None =>
        if negb (jis_null (jmember trip "routeColor")) then
          text ← jas_cstr (jmember trip "routeColor");
          match StdString.stoul16 text with
          | StdString.StoulValue code => Some (Color_of_code code, route_name)
          | _ => None
          end
        else Some (default_route_color_ t, route_name)
    end;
  Some {| Trip.stop_id := stop_id;
          Trip.route_id := route_id;
          Trip.route_name := styled.2;
          Trip.route_color := styled.1;
          Trip.headsign := headsign;
          Trip.arrival_time := jas_time_t (jmember trip "arrivalTime");
          Trip.departure_time := jas_time_t (jmember trip "departureTime");
          Trip.is_realtime := jas_bool (jmember trip "isRealtime") |}.

(** The loop [for (JsonObject trip : trips)], pushing onto the vector. *)
Fixpoint push_trips (t : TransitTracker) (entries : list V)
    (vec : list Trip.t) : option (list Trip.t) :=
  match entries with
  | [] => Some vec
  | trip :: rest =>
      decoded ← decode_trip t trip;
      push_trips t rest (vec ++ [decoded])
  end.

(** [root["event"] | ""] *)
Definition event_of (root : V) : string :=
  default "" (jas_cstr (jmember root "event")).

Definition schedule_entries (root : V) : list V :=
  jas_array (jmember (jmember root "data") "trips").

(** [psram_ok] tells whether [heap_caps_malloc] returned a buffer and
    [millis] is the value of [millis()]. *)
Definition on_ws_message_ (psram_ok : bool) (millis : Z)
    (message : Deserialized V) (t : TransitTracker) : Outcome :=
  if negb psram_ok then
    Continue (status_set_error "No PSRAM for JSON doc" t) []
  else
    match message with
    | DeserializationError =>
        Continue (status_set_error "Failed to parse schedule data" t) []
    | Document root =>
        let event := event_of root in
        if String.eqb event "heartbeat" then
          Continue
            (set_conn
               {| connection_attempts_ := connection_attempts_ (conn t);
                  last_heartbeat_ := MachineInt.to_signed millis;
                  has_ever_connected_ := has_ever_connected_ (conn t);
                  fully_closed_ := fully_closed_ (conn t) |} t) []
        else if negb (String.eqb event "schedule") then
          Continue (status_set_error "Failed to parse schedule data" t) []
        else
          (* mutex.lock(); trips.clear(); *)
          match push_trips t (schedule_entries root) [] with
          | Some vec => Continue (set_trips vec t) []
          | None => Terminated Aborted []
          end
    end.

End ScheduleDecoder.

(** ** A concrete JSON document type

    Used to run the handler on examples. *)

#[warnings="-register-all"]
Inductive json :=
| JNull
| JBool (b : bool)
| JNum (n : Z)
| JStr (s : string)
| JArr (items : list json)
| JObj (members : list (string * json)).

Fixpoint json_lookup (k : string) (members : list (string * json)) : json :=
  match members with
  | [] => JNull
  | (k', v) :: rest => if String.eqb k k' then v else json_lookup k rest
  end.

Global Instance json_api : JsonApi json := {|
  jmember v k :=
    match v with JObj members => json_lookup k members | _ => JNull end;
  jis_null v := match v with JNull => true | _ => false end;
  jas_cstr v := match v with JStr s => Some s | _ => None end;
  jas_array v := match v with JArr items => items | _ => [] end;
  jas_time_t v := match v with JNum n => n | _ => 0%Z end;
  jas_bool v :=
    match v with JBool b => b | JNum n => negb (n =? 0)%Z | _ => false end
|}.

(** * Connection manager *)

(** What the collaborators answer during one call of [connect_ws_]:
    [esphome::network::is_connected()] and, when it is called, the result of
    [ws_client_.connect(base_url_)]. *)
Record Link := mkLink {
  network_is_connected : bool;
  ws_connect_result : bool
}.

(** [close(fully)] *)
Definition close (fully : bool) (t : TransitTracker)
  : TransitTracker * list Effect :=
  let t1 :=
    if fully then
      set_conn {| connection_attempts_ := connection_attempts_ (conn t);
                  last_heartbeat_ := last_heartbeat_ (conn t);
                  has_ever_connected_ := has_ever_connected_ (conn t);
                  fully_closed_ := true |} t
    else t in
  (set_ws_connected false t1, [WsClose]).

(** [connect_ws_()].  The guard object [WatchdogManager wdm(20000)] only
    bounds the duration of the call and is left out. *)
Definition connect_ws_ (link : Link) (t : TransitTracker) : Outcome :=
  if bool_decide (base_url_ t = "") then Continue t []
  else if fully_closed_ (conn t) then Continue t []
  else if ws_connected t then Continue t []
  else
    (* last_heartbeat_ = 0 *)
    let has_ever := has_ever_connected_ (conn t) in
    let attempts := connection_attempts_ (conn t) in
    let '(connection_success, fx, t1) :=
      if network_is_connected link
      then (ws_connect_result link, [WsConnect (base_url_ t)],
            set_ws_connected (ws_connect_result link) t)
      else (false, [], t) in
    if negb connection_success then
      let attempts' := MachineInt.to_signed (attempts + 1) in
      let t2 :=
        set_conn {| connection_attempts_ := attempts';
                    last_heartbeat_ := 0;
                    has_ever_connected_ := has_ever;
                    fully_closed_ := fully_closed_ (conn t) |} t1 in
      let t3 :=
        if (3 <=? attempts')%Z
        then status_set_error "Failed to connect to WebSocket server" t2
        else t2 in
      if (15 <=? attempts')%Z then
        Terminated Rebooting (fx ++ [AppReboot])
      else
        let timeout :=
          MachineInt.int_min 15000 (MachineInt.to_signed (attempts' * 5000)) in
        Continue t3 (fx ++ [SetTimeout "reconnect" timeout])
    else
      Continue
        (status_clear_error
           (set_conn {| connection_attempts_ := 0;
                        last_heartbeat_ := 0;
                        has_ever_connected_ := true;
                        fully_closed_ := fully_closed_ (conn t) |} t1))
        fx.

(** [reconnect()] *)
Definition reconnect (link : Link) (t : TransitTracker) : Outcome :=
  let '(t1, fx) := close false t in
  match connect_ws_ link t1 with
  | Continue t2 fx' => Continue t2 (fx ++ fx')
  | Terminated why fx' => Terminated why (fx ++ fx')
  end.

(** ** The staleness watchdog: the interval callback of [setup] *)

(** [rtc_->now()] *)
Record ESPTime := mkESPTime { timestamp : Z; is_valid : bool }.

(** The loop over the trips, leaving at the first stale one. *)
Fixpoint scan_stale (now : ESPTime) (trips : list Trip.t) : bool :=
  match trips with
  | [] => false
  | trip :: rest =>
      if (60 <? timestamp now - Trip.departure_time trip)%Z then true
      else scan_stale now rest
  end.

Definition check_stale_trips (link : Link) (now : ESPTime)
    (t : TransitTracker) : Outcome :=
  if ws_connected t && negb (bool_decide (trips t = [])) then
    let has_stale_trips :=
      if is_valid now then scan_stale now (trips t) else false in
    if has_stale_trips then reconnect link t else Continue t []
  else Continue t [].

(** * Pagination engine *)

(** [next_stop()].  [stop_names_[stop_id]] is [operator[]] of [std::map]:
    an absent key is inserted with the empty string. *)
Definition next_stop (t : TransitTracker) : TransitTracker :=
  if bool_decide (stop_ids_ t = []) then t
  else
    let index :=
      MachineInt.to_signed
        (MachineInt.to_unsigned (current_stop_index_ (page t) + 1)
           `mod` Z.of_nat (length (stop_ids_ t))) in
    let stop_id := default "" (stop_ids_ t !! Z.to_nat index) in
    let current_stop_name := default "" (stop_names_ t !! stop_id) in
    let names :=
      match stop_names_ t !! stop_id with
      | Some _ => stop_names_ t
      | None => <[stop_id := ""]> (stop_names_ t)
      end in
    let same :=
      bool_decide (current_stop_name = last_displayed_stop_name_ (page t)) in
    set_stop_names_ names
      (set_page
         {| current_stop_index_ := index;
            current_subpage_index_ := 0;
            total_subpages_for_current_stop_ := if same then 1 else 2;
            last_displayed_stop_name_ :=
              if same then last_displayed_stop_name_ (page t)
              else current_stop_name;
            last_page_switch_ := last_page_switch_ (page t);
            current_page_duration_ := current_page_duration_ (page t) |} t).

(** [draw_current_page()]: the page whose drawing routine is called. *)
Definition draw_current_page (t : TransitTracker) : Page :=
  if (total_subpages_for_current_stop_ (page t) =? 1)%Z then SchedulePage
  else if (current_subpage_index_ (page t) =? 0)%Z then StopNamePage
  else SchedulePage.

(** Does [tick()] find the current page's time elapsed at [millis() = now]?
    The subtraction is on [unsigned long]. *)
Definition page_elapsed (now : Z) (t : TransitTracker) : bool :=
  (current_page_duration_ (page t)
     <=? MachineInt.to_unsigned (now - last_page_switch_ (page t)))%Z.

(** [tick()] *)
Definition tick (now : Z) (t : TransitTracker)
  : TransitTracker * list Effect :=
  if page_elapsed now t then
    let p := page t in
    let t1 :=
      set_page
        {| current_stop_index_ := current_stop_index_ p;
           current_subpage_index_ :=
             MachineInt.to_signed (current_subpage_index_ p + 1);
           total_subpages_for_current_stop_ :=
             total_subpages_for_current_stop_ p;
           last_displayed_stop_name_ := last_displayed_stop_name_ p;
           last_page_switch_ := last_page_switch_ p;
           current_page_duration_ := current_page_duration_ p |} t in
    let t2 :=
      if (total_subpages_for_current_stop_ (page t1)
            <=? current_subpage_index_ (page t1))%Z
      then next_stop t1 else t1 in
    let shown := draw_current_page t2 in
    let p2 := page t2 in
    let duration :=
      if (total_subpages_for_current_stop_ p2 =? 1)%Z
         || (current_subpage_index_ p2 =? 1)%Z
      then 8000%Z else 5000%Z in
    (set_page
       {| current_stop_index_ := current_stop_index_ p2;
          current_subpage_index_ := current_subpage_index_ p2;
          total_subpages_for_current_stop_ :=
            total_subpages_for_current_stop_ p2;
          last_displayed_stop_name_ := last_displayed_stop_name_ p2;
          last_page_switch_ := now;
          current_page_duration_ := duration |} t2,
     [Draw shown])
  else (t, []).

(** [add_stop_name(stop_id, stop_name)] *)
Definition add_stop_name (stop_id stop_name : string) (t : TransitTracker)
  : TransitTracker :=
  {| trips := trips t; ws_connected := ws_connected t;
     status_error := status_error t; conn := conn t; page := page t;
     base_url_ := base_url_ t; display_limit_ := display_limit_ t;
     abbreviations_ := abbreviations_ t;
     default_route_color_ := default_route_color_ t;
     route_styles_ := route_styles_ t;
     stop_names_ := <[stop_id := stop_name]> (stop_names_ t);
     stop_ids_ := stop_ids_ t ++ [stop_id] |}.

(** * Loading the tables from text *)

Section TablesFromText.

(** [split] comes from [string_utils.h], which is not among the sources;
    the loaders are embedded over any such function. *)
Variable split : string → ascii → list string.

Definition newline : ascii := "010"%char.

(** [add_abbreviation(from, to)] *)
Definition add_abbreviation (from to : string) (t : TransitTracker) :=
  set_abbreviations_ (StdMap.assign from to (abbreviations_ t)) t.

(** [add_route_style(route_id, name, color)] *)
Definition add_route_style (route_id name : string) (color : Color)
    (t : TransitTracker) :=
  set_route_styles_
    (<[route_id := RouteStyle.mk name color]> (route_styles_ t)) t.

(** The loop of [set_abbreviations_from_text] over the lines. *)
Fixpoint abbreviation_lines (lines : list string) (t : TransitTracker)
  : TransitTracker :=
  match lines with
  | [] => t
  | line :: rest =>
      match split line ";"%char with
      | [from; to] => abbreviation_lines rest (add_abbreviation from to t)
      | _ => abbreviation_lines rest t
      end
  end.

Definition set_abbreviations_from_text (text : string) (t : TransitTracker)
  : TransitTracker :=
  abbreviation_lines (split text newline) (set_abbreviations_ StdMap.empty t).

(** The loop of [set_route_styles_from_text]; [None] is an exception of
    [std::stoul] leaving the function. *)
Fixpoint route_style_lines (lines : list string) (t : TransitTracker)
  : option TransitTracker :=
  match lines with
  | [] => Some t
  | line :: rest =>
      match split line ";"%char with
      | [route_id; name; hex] =>
          match StdString.stoul16 hex with
          | StdString.StoulValue color =>
              route_style_lines rest
                (add_route_style route_id name (Color_of_code color) t)
          | _ => None
          end
      | _ => route_style_lines rest t
      end
  end.

Definition set_route_styles_from_text (text : string) (t : TransitTracker)
  : option TransitTracker :=
  route_style_lines (split text newline) (set_route_styles_ ∅ t).

End TablesFromText.


(** * Render pipeline: the filtered read of [draw_schedule] *)

(** The loop over the trips that collects those of the current stop and
    leaves once [display_limit_] of them are collected; the comparison is
    made in [size_t]. *)
Definition collect (stop_id : string) (trip : Trip.t)
    (matching : list Trip.t) : list Trip.t :=
  if bool_decide (Trip.stop_id trip = stop_id) then matching ++ [trip]
  else matching.

Definition limit_reached (t : TransitTracker) (matching : list Trip.t) : bool :=
  (MachineInt.to_unsigned (display_limit_ t) <=? Z.of_nat (length matching))%Z.

Fixpoint matching_loop (t : TransitTracker) (stop_id : string)
    (trips : list Trip.t) (matching : list Trip.t) : list Trip.t :=
  match trips with
  | [] => matching
  | trip :: rest =>
      let matching' := collect stop_id trip matching in
      if limit_reached t matching' then matching'
      else matching_loop t stop_id rest matching'
  end.

(** The trips that [draw_schedule] lays out for a stop, given the vector. *)
Definition matching_trips (t : TransitTracker) (stop_id : string)
    (trips : list Trip.t) : list Trip.t :=
  matching_loop t stop_id trips [].

(** What the watchdog finds on a vector of trips. *)
Definition has_stale_trips (now : ESPTime) (trips : list Trip.t) : bool :=
  if is_valid now then scan_stale now trips else false.

(** * The two execution contexts and the mutex

    The transport context runs [on_ws_message_]; the foreground context runs
    [draw_schedule] and the watchdog callback.  Each statement that touches
    [schedule_state_] is one step, and the steps of the two contexts
    interleave in any order that the mutex allows.  The configuration
    members of the component are not written by either context and are read
    from [t]; the vector [schedule_state_.trips] is the shared [cache]. *)

Inductive Owner := Transport | Foreground.

Global Instance Owner_eq_dec : EqDecision Owner.
Proof. solve_decision. Defined.

(** The log of a run.  What the foreground context has read when it leaves
    a critical section: the trips laid out for a stop, or the verdict of the
    watchdog's scan; what the watchdog's test before [mutex.lock()] has
    found; and each replace that the handler has completed, with the vector
    it leaves. *)
Inductive Observation :=
| Drawn (stop_id : string) (matching : list Trip.t)
| Scanned (now : ESPTime) (stale : bool)
| Guarded (now : ESPTime) (passed : bool)
| Replaced (snapshot : list Trip.t).

Section Interleaving.
Context {V : Type} `{JsonApi V}.

(** Where [on_ws_message_] stands in a "schedule" message. *)
Inductive TransportPc :=
| TIdle
| TLock (entries : list V)      (* at mutex.lock() *)
| TClear (entries : list V)     (* at trips.clear() *)
| TLoop (rest : list V).        (* in the loop, at push_back or at unlock *)

(** Where the foreground context stands. *)
Inductive ForegroundPc :=
| FIdle
| FDrawLock (stop_id : string)                  (* at the lock_guard *)
| FDrawLoop (stop_id : string) (i : nat) (matching : list Trip.t)
| FWatchGuard (now : ESPTime)                   (* at the test before lock *)
| FWatchLock (now : ESPTime)                    (* at mutex.lock() *)
| FWatchScan (now : ESPTime) (i : nat).

Record System := mkSystem {
  cache : list Trip.t;
  mutex : option Owner;
  transport : TransportPc;
  foreground : ForegroundPc;
  observed : list Observation;
  halted : bool
}.

Definition start (t : TransitTracker) : System :=
  {| cache := trips t; mutex := None; transport := TIdle;
     foreground := FIdle; observed := []; halted := false |}.

(** The choices of the scheduler and of the environment. *)
Inductive Move :=
| Deliver (entries : list V)     (* a "schedule" message enters the handler *)
| TransportStep
| BeginDraw (stop_id : string)   (* draw_schedule reaches the filtered read *)
| BeginWatchdog (now : ESPTime)  (* the interval callback starts *)
| ForegroundStep.

Definition transport_step (t : TransitTracker) (s : System) : option System :=
  match transport s with
  | TIdle => None
  | TLock entries =>
      match mutex s with
      | None =>
          Some {| cache := cache s; mutex := Some Transport;
                  transport := TClear entries; foreground := foreground s;
                  observed := observed s; halted := false |}
      | Some _ => None
      end
  | TClear entries =>
      Some {| cache := []; mutex := mutex s;
              transport := TLoop entries; foreground := foreground s;
              observed := observed s; halted := false |}
  | TLoop (trip :: rest) =>
      match decode_trip t trip with
      | Some decoded =>
          Some {| cache := cache s ++ [decoded]; mutex := mutex s;
                  transport := TLoop rest; foreground := foreground s;
                  observed := observed s; halted := false |}
      | None =>
          Some {| cache := cache s; mutex := mutex s;
                  transport := TLoop (trip :: rest);
                  foreground := foreground s;
                  observed := observed s; halted := true |}
      end
  | TLoop [] =>
      Some {| cache := cache s; mutex := None;
              transport := TIdle; foreground := foreground s;
              observed := observed s ++ [Replaced (cache s)];
              halted := false |}
  end.

(** The foreground context leaves its critical section with what it read.
    [draw_schedule] collects pointers into the vector and lays the trips out
    before its guard gives the mutex back; the model keeps the trips
    themselves. *)
Definition leave (o : Observation) (s : System) : System :=
  {| cache := cache s; mutex := None; transport := transport s;
     foreground := FIdle; observed := observed s ++ [o]; halted := false |}.

Definition goto (pc : ForegroundPc) (s : System) : System :=
  {| cache := cache s; mutex := mutex s; transport := transport s;
     foreground := pc; observed := observed s; halted := false |}.

(** The watchdog's test [ws_client_.available() && !trips.empty()], which
    stands before [mutex.lock()]: it reads the vector as it is. *)
Definition guard (now : ESPTime) (passed : bool) (s : System) : System :=
  {| cache := cache s; mutex := mutex s; transport := transport s;
     foreground := if passed then FWatchLock now else FIdle;
     observed := observed s ++ [Guarded now passed]; halted := false |}.

Definition acquire (pc : ForegroundPc) (s : System) : option System :=
  match mutex s with
  | None =>
      Some {| cache := cache s; mutex := Some Foreground;
              transport := transport s; foreground := pc;
              observed := observed s; halted := false |}
  | Some _ => None
  end.

Definition foreground_step (t : TransitTracker) (s : System) : option System :=
  match foreground s with
  | FIdle => None
  | FDrawLock stop_id => acquire (FDrawLoop stop_id 0 []) s
  | FDrawLoop stop_id i matching =>
      match cache s !! i with
      | Some trip =>
          let matching' := collect stop_id trip matching in
          if limit_reached t matching'
          then Some (leave (Drawn stop_id matching') s)
          else Some (goto (FDrawLoop stop_id (S i) matching') s)
      | None => Some (leave (Drawn stop_id matching) s)
      end
  | FWatchGuard now =>
      Some (guard now
              (ws_connected t && negb (bool_decide (cache s = []))) s)
  | FWatchLock now => acquire (FWatchScan now 0) s
  | FWatchScan now i =>
      if is_valid now then
        match cache s !! i with
        | Some trip =>
            if (60 <? timestamp now - Trip.departure_time trip)%Z
            then Some (leave (Scanned now true) s)
            else Some (goto (FWatchScan now (S i)) s)
        | None => Some (leave (Scanned now false) s)
        end
      else Some (leave (Scanned now false) s)
  end.

Definition step (t : TransitTracker) (m : Move) (s : System) : option System :=
  if halted s then None
  else
    match m with
    | Deliver entries =>
        match transport s with
        | TIdle =>
            Some {| cache := cache s; mutex := mutex s;
                    transport := TLock entries; foreground := foreground s;
                    observed := observed s; halted := false |}
        | _ => None
        end
    | TransportStep => transport_step t s
    | BeginDraw stop_id =>
        match foreground s with
        | FIdle => Some (goto (FDrawLock stop_id) s)
        | _ => None
        end
    | BeginWatchdog now =>
        match foreground s with
        | FIdle => Some (goto (FWatchGuard now) s)
        | _ => None
        end
    | ForegroundStep => foreground_step t s
    end.

(** A schedule of moves, run from a state; [None] when a move of the
    schedule is not enabled. *)
Fixpoint run (t : TransitTracker) (moves : list Move) (s : System)
  : option System :=
  match moves with
  | [] => Some s
  | m :: rest =>
      match step t m s with
      | Some s' => run t rest s'
      | None => None
      end
  end.

End Interleaving.

(** * Runs and observations used by the statements *)

(** The guards at the head of [connect_ws_] let the call through. *)
Definition connectable (t : TransitTracker) : Prop :=
  base_url_ t ≠ "" ∧ fully_closed_ (conn t) = false ∧ ws_connected t = false.

(** The attempt fails: the link is down, or the transport refuses. *)
Definition failing (link : Link) : Prop :=
  network_is_connected link && ws_connect_result link = false.

(** The transport call made by an attempt, if any. *)
Definition attempt_fx (link : Link) (t : TransitTracker) : list Effect :=
  if network_is_connected link then [WsConnect (base_url_ t)] else [].

(** The component after a failed attempt that does not restart it. *)
Definition after_failure (t : TransitTracker) : TransitTracker :=
  let attempts' := (connection_attempts_ (conn t) + 1)%Z in
  let t2 :=
    set_conn {| connection_attempts_ := attempts';
                last_heartbeat_ := 0;
                has_ever_connected_ := has_ever_connected_ (conn t);
                fully_closed_ := fully_closed_ (conn t) |}
      (set_ws_connected false t) in
  if (3 <=? attempts')%Z
  then status_set_error "Failed to connect to WebSocket server" t2
  else t2.

(** Consecutive calls of [connect_ws_], one per element of [links]; the
    run ends when the device restarts. *)
Fixpoint run_connects (links : list Link) (t : TransitTracker)
  : list Outcome :=
  match links with
  | [] => []
  | link :: rest =>
      let o := connect_ws_ link t in
      o :: match o with
           | Continue t' _ => run_connects rest t'
           | Terminated _ _ => []
           end
  end.

(** The delays of the retries that an outcome schedules. *)
Definition retry_delays (o : Outcome) : list Z :=
  omap (λ e, match e with SetTimeout "reconnect" ms => Some ms | _ => None end)
    (effects o).

Definition reboots (o : Outcome) : nat :=
  length (filter (λ e, e = AppReboot) (effects o)).

(** How often the restart was requested over a whole run. *)
Definition total_reboots (run : list Outcome) : nat :=
  sum_list (reboots <$> run).

(** The retry delays of the specification: 5000, 10000, 15000 ms after the
    first three failures and 15000 ms after every later one. *)
Definition backoff_delay (failure : nat) : Z :=
  match failure with
  | 1%nat => 5000
  | 2%nat => 10000
  | _ => 15000
  end.

(** ** Concrete inputs *)

Definition example_trip (stop : string) (departure : Z) : Trip.t :=
  {| Trip.stop_id := stop; Trip.route_id := "40"; Trip.route_name := "40";
     Trip.route_color := Color_of_code 167505;
     Trip.headsign := "Northgate";
     Trip.arrival_time := departure; Trip.departure_time := departure;
     Trip.is_realtime := true |}.

(** A configured component whose connection is closed, with two trips in
    the cache. *)
Definition example_tracker : TransitTracker :=
  {| trips := [example_trip "1_100" 1000; example_trip "1_200" 1300];
     ws_connected := false; status_error := None;
     conn := initial_connection; page := initial_pagination;
     base_url_ := "wss://feed.example/ws"; display_limit_ := 3;
     abbreviations_ := StdMap.empty;
     default_route_color_ := Color_of_code 167505;
     route_styles_ := ∅; stop_names_ := ∅; stop_ids_ := [] |}.

Definition link_down : Link :=
  {| network_is_connected := false; ws_connect_result := false |}.

Definition link_refused : Link :=
  {| network_is_connected := true; ws_connect_result := false |}.

Definition link_up : Link :=
  {| network_is_connected := true; ws_connect_result := true |}.

(** ** Text *)

(** [needle] occurs in [hay]. *)
Definition occurs (needle hay : string) : Prop :=
  ∃ pre post, hay = pre +:+ needle +:+ post.

(** [hay] splits as [pre], [needle], [post] at the first occurrence of
    [needle]. *)
Definition first_occurrence (needle hay pre post : string) : Prop :=
  hay = pre +:+ needle +:+ post ∧
  ∀ pre' post', hay = pre' +:+ needle +:+ post' →
    (String.length pre ≤ String.length pre')%nat.

(** One pass over the table, as the amended C3 words it: the entries are
    taken once each in table order; an entry whose key does not occur in the
    current text leaves it alone, and otherwise the first occurrence of the
    key in the current text is replaced.  The last argument lists the
    entries that were replaced. *)
Inductive rewrites
  : StdMap.t string → string → string → list (string * string) → Prop :=
| rewrites_done text :
    rewrites [] text text []
| rewrites_skip from to rest text final applied :
    ¬ occurs from text →
    rewrites rest text final applied →
    rewrites ((from, to) :: rest) text final applied
| rewrites_hit from to rest pre post final applied :
    first_occurrence from (pre +:+ from +:+ post) pre post →
    rewrites rest (pre +:+ to +:+ post) final applied →
    rewrites ((from, to) :: rest) (pre +:+ from +:+ post) final
      ((from, to) :: applied).

(** The value of a string of hexadecimal digits read in base 16. *)
Fixpoint base16_from (acc : Z) (s : string) : Z :=
  match s with
  | "" => acc
  | String c rest =>
      base16_from (acc * 16 + default 0%Z (StdString.hex_digit c)) rest
  end.

Definition base16 (s : string) : Z := base16_from 0 s.

Fixpoint all_hex (s : string) : bool :=
  match s with
  | "" => true
  | String c rest =>
      bool_decide (is_Some (StdString.hex_digit c)) && all_hex rest
  end.

(** A colour as the feed writes it: one to eight hexadecimal digits and
    nothing else. *)
Definition hex_color (s : string) : Prop :=
  s ≠ "" ∧ all_hex s = true ∧ (String.length s ≤ 8)%nat.

Section PayloadShape.
Context {V : Type} `{JsonApi V}.

(** The entry of a valid "schedule" payload: the four texts are strings and
    [routeColor] is absent (null) or a colour. *)
Definition valid_trip_entry (trip : V) : Prop :=
  is_Some (jas_cstr (jmember trip "headsign")) ∧
  is_Some (jas_cstr (jmember trip "stopId")) ∧
  is_Some (jas_cstr (jmember trip "routeId")) ∧
  is_Some (jas_cstr (jmember trip "routeName")) ∧
  (jis_null (jmember trip "routeColor") = true ∨
   jis_null (jmember trip "routeColor") = false ∧
   ∃ hex, jas_cstr (jmember trip "routeColor") = Some hex ∧ hex_color hex).

(** The colour and the name of a decoded trip as C2 words them: the style
    of the route if it has one, with the name taken from the style too;
    else the colour of the feed read in base 16 if the feed gives one; else
    the default colour. *)
Definition styled_as (t : TransitTracker) (entry : V) (trip : Trip.t) : Prop :=
  jas_cstr (jmember entry "routeId") = Some (Trip.route_id trip) ∧
  match route_styles_ t !! Trip.route_id trip with
  | Some style =>
      Trip.route_color trip = RouteStyle.color style ∧
      Trip.route_name trip = RouteStyle.name style
  | None =>
      jas_cstr (jmember entry "routeName") = Some (Trip.route_name trip) ∧
      if jis_null (jmember entry "routeColor")
      then Trip.route_color trip = default_route_color_ t
      else ∃ hex, jas_cstr (jmember entry "routeColor") = Some hex ∧
                  Trip.route_color trip = Color_of_code (base16 hex)
  end.

(** A message that does not decode, or whose event is neither "heartbeat"
    nor "schedule". *)
Definition undecodable (message : Deserialized V) : Prop :=
  match message with
  | DeserializationError => True
  | Document root =>
      event_of root ≠ "heartbeat" ∧ event_of root ≠ "schedule"
  end.

End PayloadShape.

(** ** A concrete feed *)

Definition feed_entry (headsign route : string) (color : json)
    (departure : Z) : json :=
  JObj [("headsign", JStr headsign); ("stopId", JStr "1_100");
        ("routeId", JStr route); ("routeName", JStr route);
        ("routeColor", color);
        ("arrivalTime", JNum departure); ("departureTime", JNum departure);
        ("isRealtime", JBool true)].

Definition example_schedule : json :=
  JObj [("event", JStr "schedule");
        ("data",
         JObj [("trips",
                JArr [feed_entry "Transit Center" "8" (JStr "ff0000") 1060;
                      feed_entry "Northgate" "40" (JStr "fdb71a") 1120;
                      feed_entry "Roosevelt" "62" JNull 1180])])].

(** The example component with a style for route 8 and two abbreviations,
    the second of which matches the replacement of the first. *)
Definition styled_tracker : TransitTracker :=
  {| trips := trips example_tracker;
     ws_connected := true; status_error := None;
     conn := initial_connection; page := initial_pagination;
     base_url_ := base_url_ example_tracker; display_limit_ := 3;
     abbreviations_ :=
       StdMap.assign "Ctr" "C" (StdMap.assign "Center" "Ctr" StdMap.empty);
     default_route_color_ := Color_of_code 167505;
     route_styles_ := {[ "8" := RouteStyle.mk "Eight" (Color_of_code 255) ]};
     stop_names_ := ∅; stop_ids_ := [] |}.

Definition decoded_example : list Trip.t :=
  [ {| Trip.stop_id := "1_100"; Trip.route_id := "8";
       Trip.route_name := "Eight"; Trip.route_color := Color_of_code 255;
       Trip.headsign := "Transit C";
       Trip.arrival_time := 1060; Trip.departure_time := 1060;
       Trip.is_realtime := true |};
    {| Trip.stop_id := "1_100"; Trip.route_id := "40";
       Trip.route_name := "40"; Trip.route_color := Color_of_code 16627482;
       Trip.headsign := "Northgate";
       Trip.arrival_time := 1120; Trip.departure_time := 1120;
       Trip.is_realtime := true |};
    {| Trip.stop_id := "1_100"; Trip.route_id := "62";
       Trip.route_name := "62"; Trip.route_color := Color_of_code 167505;
       Trip.headsign := "Roosevelt";
       Trip.arrival_time := 1180; Trip.departure_time := 1180;
       Trip.is_realtime := true |} ].

(** ** A concrete configuration text *)

(** The number of fields of a line. *)
Definition fields (split : string → ascii → list string) (line : string)
  : nat :=
  length (split line ";"%char).

(** Modelled from the spec: [split] of [string_utils.h] is not among the
    sources and the specification only says that the rules come as lines of
    fields separated by [;].  This function cuts a text at every occurrence
    of the delimiter; it is used to run the loaders on examples. *)
Fixpoint split_on (s : string) (delim : ascii) : list string :=
  match s with
  | "" => [""]
  | String c rest =>
      if bool_decide (c = delim) then "" :: split_on rest delim
      else match split_on rest delim with
           | first :: others => String c first :: others
           | [] => [String c ""]
           end
  end.

Definition abbreviations_text : string :=
  "Center;Ctr" +:+ String newline ("not a rule" +:+ String newline "Ctr;C").

Definition route_styles_text : string :=
  "8;Eight;0000ff"
  +:+ String newline ("8;Eight" +:+ String newline "40;Forty;fdb71a").

(** ** Pages shown over time *)

(** Does a tick that finds the page's time elapsed move on to the next
    stop?  [next_stop()] is called when the incremented sub-page index
    reaches the number of sub-pages, and it returns at once when no stop is
    configured. *)
Definition advances (t : TransitTracker) : bool :=
  negb (bool_decide (stop_ids_ t = []))
  && (total_subpages_for_current_stop_ (page t)
        <=? MachineInt.to_signed (current_subpage_index_ (page t) + 1))%Z.

(** What a run of ticks shows: the start of a visit to a stop, with the
    number of sub-pages computed for it, and each page drawn, with the
    duration set for it. *)
Inductive PageEvent :=
| VisitStart (total : Z)
| Shown (p : Page) (duration : Z).

Definition tick_events (now : Z) (t : TransitTracker) : list PageEvent :=
  let '(t', fx) := tick now t in
  (if page_elapsed now t && advances t
   then [VisitStart (total_subpages_for_current_stop_ (page t'))] else [])
  ++ omap (λ e, match e with
                | Draw p => Some (Shown p (current_page_duration_ (page t')))
                | _ => None
                end) fx.

Fixpoint page_log (nows : list Z) (t : TransitTracker) : list PageEvent :=
  match nows with
  | [] => []
  | now :: rest => tick_events now t ++ page_log rest (tick now t).1
  end.

Definition run_ticks (nows : list Z) (t : TransitTracker) : TransitTracker :=
  foldl (λ t now, (tick now t).1) t nows.

(** The pages of the log up to the next start of a visit. *)
Fixpoint shown_run (log : list PageEvent) : list (Page * Z) :=
  match log with
  | Shown p d :: rest => (p, d) :: shown_run rest
  | _ => []
  end.

(** The visits of a log: for each, the number of sub-pages and the pages
    shown during it. *)
Fixpoint visits (log : list PageEvent) : list (Z * list (Page * Z)) :=
  match log with
  | [] => []
  | VisitStart n :: rest => (n, shown_run rest) :: visits rest
  | Shown _ _ :: rest => visits rest
  end.

(** The pages of a visit according to C9. *)
Definition expected_pages (total : Z) : list (Page * Z) :=
  if (total =? 2)%Z then [(StopNamePage, 5000%Z); (SchedulePage, 8000%Z)]
  else [(SchedulePage, 8000%Z)].

(** Every visit has one or two sub-pages and shows a non-empty beginning of
    its expected pages, and all of them unless it is the last visit of the
    log, which the log may leave unfinished. *)
Definition visits_ok (vs : list (Z * list (Page * Z))) : Prop :=
  ∀ (i : nat) n pages, vs !! i = Some (n, pages) →
    (n = 1 ∨ n = 2)%Z ∧ pages ≠ [] ∧
    pages `prefix_of` expected_pages n ∧
    (S i < length vs → pages = expected_pages n)%nat.

(** A component with two stops. *)
Definition two_stops : TransitTracker :=
  add_stop_name "1_200" "Pine St"
    (add_stop_name "1_100" "Pine St"
       (add_stop_name "1_050" "Union Station" example_tracker)).

(** The name page of the current visit has been shown and its schedule page
    is still to come. *)
Definition name_shown (t : TransitTracker) : Prop :=
  stop_ids_ t ≠ [] ∧
  total_subpages_for_current_stop_ (page t) = 2%Z ∧
  current_subpage_index_ (page t) = 0%Z.

(** Logs in which every visit shows its expected pages: the first argument
    lists the pages that the visit in progress at the head of the log has
    still to show. *)
Inductive visit_log : list (Page * Z) → list PageEvent → Prop :=
| visit_log_end rem :
    visit_log rem []
| visit_log_shown p d rem log :
    visit_log rem log →
    visit_log ((p, d) :: rem) (Shown p d :: log)
| visit_log_start n p d rem log :
    (n = 1 ∨ n = 2)%Z →
    expected_pages n = (p, d) :: rem →
    visit_log rem log →
    visit_log [] (VisitStart n :: Shown p d :: log).

(** ** Snapshots and what the readers see *)

Section Snapshots.
Context {V : Type} `{JsonApi V}.

(** The vector after an event of the log, given the vector before it: only
    a completed replace changes it. *)
Definition after (current : list Trip.t) (o : Observation) : list Trip.t :=
  match o with
  | Replaced snapshot => snapshot
  | _ => current
  end.

(** The last complete snapshot at the end of a log that starts with
    [current] in the vector. *)
Definition latest (current : list Trip.t) (log : list Observation)
  : list Trip.t :=
  foldl after current log.

(** A read under the mutex is what the reader computes on [snapshot]. *)
Definition reads_snapshot (t : TransitTracker) (snapshot : list Trip.t)
    (o : Observation) : Prop :=
  match o with
  | Drawn stop_id matching => matching = matching_trips t stop_id snapshot
  | Scanned now stale => stale = has_stale_trips now snapshot
  | Guarded _ _ => True
  | Replaced _ => True
  end.


(** Every event of the log satisfies [P] on the last complete snapshot
    before it: the trips held at the start, or the vector left by the last
    replace completed before the event. *)
Fixpoint log_ok (P : list Trip.t → Observation → Prop)
    (current : list Trip.t) (log : list Observation) : Prop :=
  match log with
  | [] => True
  | o :: rest => P current o ∧ log_ok P (after current o) rest
  end.

(** The whole decoded list of a "schedule" message that was delivered. *)
Definition delivered_snapshot (t : TransitTracker)
    (delivered : list V → Prop) (snapshot : list Trip.t) : Prop :=
  ∃ entries, delivered entries ∧ push_trips t entries [] = Some snapshot.

(** The invariant of the interleaving, for the messages [delivered]. *)
Definition transport_ok (delivered : list V → Prop) (t : TransitTracker)
    (s : System (V:=V)) : Prop :=
  match transport s with
  | TIdle =>
      mutex s ≠ Some Transport ∧ cache s = latest (trips t) (observed s)
  | TLock entries =>
      mutex s ≠ Some Transport ∧ cache s = latest (trips t) (observed s) ∧
      delivered entries
  | TClear entries => mutex s = Some Transport ∧ delivered entries
  | TLoop rest =>
      mutex s = Some Transport ∧
      ∃ entries, delivered entries ∧
                 push_trips t entries [] = push_trips t rest (cache s)
  end.

Definition foreground_ok (t : TransitTracker) (s : System (V:=V)) : Prop :=
  match foreground s with
  | FDrawLoop stop_id i matching =>
      mutex s = Some Foreground ∧
      matching_loop t stop_id (drop i (cache s)) matching
        = matching_trips t stop_id (cache s)
  | FWatchScan now i =>
      mutex s = Some Foreground ∧
      scan_stale now (drop i (cache s)) = scan_stale now (cache s)
  | _ => mutex s ≠ Some Foreground
  end.

Definition consistent (delivered : list V → Prop) (t : TransitTracker)
    (s : System (V:=V)) : Prop :=
  transport_ok delivered t s ∧ foreground_ok t s ∧
  log_ok (reads_snapshot t) (trips t) (observed s) ∧
  ∀ snapshot, Replaced snapshot ∈ observed s →
              delivered_snapshot t delivered snapshot.

End Snapshots.

(** ** A concrete interleaving *)

Definition example_entries : list json := schedule_entries example_schedule.

Definition example_now : ESPTime := {| timestamp := 2000; is_valid := true |}.

(** A filtered read that starts before the message arrives and finishes
    while the handler waits for the mutex, a watchdog tick that waits while
    the handler fills the vector, and a second filtered read after the
    replace. *)
Definition example_moves : list (Move (V:=json)) :=
  [BeginDraw "1_100"; ForegroundStep; Deliver example_entries;
   ForegroundStep; ForegroundStep; ForegroundStep;
   TransportStep; TransportStep; BeginWatchdog example_now; TransportStep;
   ForegroundStep; TransportStep; TransportStep; TransportStep;
   ForegroundStep; ForegroundStep;
   BeginDraw "1_100"; ForegroundStep; ForegroundStep; ForegroundStep;
   ForegroundStep].


(** * The rest of the component

    The members of [class TransitTracker] that the functions below read and
    that no function of the component writes after configuration. *)

Inductive UnitDisplay := UNIT_DISPLAY_LONG | UNIT_DISPLAY_SHORT | UNIT_DISPLAY_NONE.

Record Settings := mkSettings {
  feed_code_ : string;
  schedule_string_ : string;
  list_mode_ : string;
  display_departure_times_ : bool;
  limit_ : Z;
  unit_display_ : UnitDisplay
}.

(** ** [from_now_]

    [str_sprintf] with the formats the function uses: [%d] prints an [int]
    in decimal, [%02d] pads the same text with a zero to two characters. *)

Definition sprintf_d (n : Z) : string := pretty n.

Definition sprintf_02d (n : Z) : string :=
  let s := pretty n in
  if (String.length s <? 2)%nat then "0" +:+ s else s.

(** [rtc] is [None] when [rtc_] is the null pointer.  The current time is
    read into a [uint] and the difference is stored in an [int]. *)
Definition from_now_ (rtc : option ESPTime) (u : UnitDisplay)
    (unix_timestamp : Z) : string :=
  match rtc with
  | None => ""
  | Some clock =>
      let now := MachineInt.to_unsigned (timestamp clock) in
      let diff := MachineInt.to_signed (unix_timestamp - now) in
      if (diff <? 30)%Z then "Now"
      else if (diff <? 60)%Z then
        match u with
        | UNIT_DISPLAY_LONG => "0min"
        | UNIT_DISPLAY_SHORT => "0m"
        | UNIT_DISPLAY_NONE => "0"
        end
      else
        let minutes := Z.quot diff 60 in
        if (minutes <? 60)%Z then
          match u with
          | UNIT_DISPLAY_LONG => sprintf_d minutes +:+ "min"
          | UNIT_DISPLAY_SHORT => sprintf_d minutes +:+ "m"
          | UNIT_DISPLAY_NONE => sprintf_d minutes
          end
        else
          let hours := Z.quot minutes 60 in
          let minutes := Z.rem minutes 60 in
          match u with
          | UNIT_DISPLAY_LONG | UNIT_DISPLAY_SHORT =>
              sprintf_d hours +:+ "h" +:+ sprintf_d minutes +:+ "m"
          | UNIT_DISPLAY_NONE =>
              sprintf_d hours +:+ ":" +:+ sprintf_02d minutes
          end
  end.

(** ** The display

    The calls that the drawing functions make on [display_], in order.
    [PrintPlain] is the overload of [print] without colour and alignment.
    Coordinates and extents are pixels of a panel, far from the limits of
    [int], and their arithmetic is written without wrap-around. *)

Inductive TextAlign := CENTER | TOP_LEFT | TOP_RIGHT.

Inductive DisplayCall :=
| Print (x y : Z) (color : Color) (align : TextAlign) (text : string)
| PrintPlain (x y : Z) (text : string)
| StartClipping (left top right bottom : Z)
| EndClipping
| DrawPixelAt (x y : Z) (color : Color).

Global Instance TextAlign_eq_dec : EqDecision TextAlign.
Proof. solve_decision. Defined.

Global Instance DisplayCall_eq_dec : EqDecision DisplayCall.
Proof. solve_decision. Defined.

(** [display_->get_width()] and [display_->get_height()]. *)
Record Panel := mkPanel { get_width : Z; get_height : Z }.

(** What [font_->measure] writes through its four pointers. *)
Record Extent := mkExtent {
  ext_width : Z;
  ext_x_offset : Z;
  ext_baseline : Z;
  ext_height : Z
}.

(** ** [draw_realtime_icon_] *)

Definition realtime_icon : list (list Z) :=
  [ [0; 0; 0; 3; 3; 3];
    [0; 0; 3; 0; 0; 0];
    [0; 3; 0; 0; 2; 2];
    [3; 0; 0; 2; 0; 0];
    [3; 0; 2; 0; 0; 1];
    [3; 0; 2; 0; 1; 1] ]%Z.

(** The frame of the animation at [millis() = millis]: the value is stored
    in a [long] and the remainder and the quotient are those of C++. *)
Definition icon_frame (millis : Z) : Z :=
  let num_frames := 6%Z in
  let idle_frame_duration := 3000%Z in
  let anim_frame_duration := 200%Z in
  let cycle_duration :=
    (idle_frame_duration + (num_frames - 1) * anim_frame_duration)%Z in
  let now := MachineInt.to_signed millis in
  let cycle_time := Z.rem now cycle_duration in
  if (cycle_time <? idle_frame_duration)%Z then 0%Z
  else (1 + Z.quot (cycle_time - idle_frame_duration) anim_frame_duration)%Z.

Definition is_segment_lit (frame : Z) (segment : Z) : bool :=
  if (segment =? 1)%Z then (1 <=? frame)%Z && (frame <=? 3)%Z
  else if (segment =? 2)%Z then (2 <=? frame)%Z && (frame <=? 4)%Z
  else if (segment =? 3)%Z then (3 <=? frame)%Z && (frame <=? 5)%Z
  else false.

Definition lit_color : Color := Color_of_code 2162432.
Definition unlit_color : Color := Color_of_code 42752.

(** The cells of row [i], from column [j] on. *)
Fixpoint icon_row (frame : Z) (bottom_right_x bottom_right_y : Z)
    (i j : Z) (cells : list Z) : list DisplayCall :=
  match cells with
  | [] => []
  | segment_number :: rest =>
      (if (segment_number =? 0)%Z then []
       else [DrawPixelAt (bottom_right_x - (5 - j))%Z
               (bottom_right_y - (5 - i))%Z
               (if is_segment_lit frame segment_number
                then lit_color else unlit_color)])
      ++ icon_row frame bottom_right_x bottom_right_y i (j + 1)%Z rest
  end.

Fixpoint icon_rows (frame : Z) (bottom_right_x bottom_right_y : Z)
    (i : Z) (rows : list (list Z)) : list DisplayCall :=
  match rows with
  | [] => []
  | cells :: rest =>
      icon_row frame bottom_right_x bottom_right_y i 0 cells
      ++ icon_rows frame bottom_right_x bottom_right_y (i + 1)%Z rest
  end.

Definition draw_realtime_icon_ (millis : Z)
    (bottom_right_x bottom_right_y : Z) : list DisplayCall :=
  icon_rows (icon_frame millis) bottom_right_x bottom_right_y 0%Z
    realtime_icon.

(** ** The text pages *)

Section Drawing.

(** [font_->measure] and the panel behind [display_]. *)
Variable measure : string → Extent.
Variable panel : Panel.

(** [draw_text_centered_] *)
Definition draw_text_centered_ (text : string) (color : Color)
  : list DisplayCall :=
  let display_center_x := Z.quot (get_width panel) 2 in
  let display_center_y := Z.quot (get_height panel) 2 in
  [Print display_center_x display_center_y color CENTER text].

(** [stop_ids_[current_stop_index_]]; [None] when the index is outside the
    vector, where the access is undefined. *)
Definition current_stop_id (t : TransitTracker) : option string :=
  if (current_stop_index_ (page t) <? 0)%Z then None
  else stop_ids_ t !! Z.to_nat (current_stop_index_ (page t)).

(** [draw_stop_name()] *)
Definition draw_stop_name (s : Settings) (t : TransitTracker)
  : option (list DisplayCall) :=
  if bool_decide (stop_ids_ t = []) then
    Some (draw_text_centered_ "No Stops Configured" (Color_of_code 2434599))
  else
    stop_id ← current_stop_id t;
    let stop_name := default "Unknown Stop" (stop_names_ t !! stop_id) in
    let x := Z.quot (get_width panel) 2 in
    let y := Z.quot (get_height panel) 2 in
    Some [Print x (y - 6)%Z (Color_of_code 44783) CENTER stop_name;
          Print x (y + 6)%Z (Color_of_code 16777215) CENTER
            (if display_departure_times_ s then "Upcoming Bus Departures"
             else "Upcoming Bus Arrivals")].

(** The first loop over the matching trips: the widest route name. *)
Definition route_max_width (matching : list Trip.t) : Z :=
  foldl (λ acc trip, Z.max acc (ext_width (measure (Trip.route_name trip))))
    0%Z matching.

(** The body of the second loop for one trip, at [y_offset]. *)
Definition draw_row (s : Settings) (now : ESPTime) (millis : Z)
    (routeMaxWidth y_offset : Z) (trip : Trip.t) : list DisplayCall :=
  let time_display :=
    from_now_ (Some now) (unit_display_ s)
      (if display_departure_times_ s then Trip.departure_time trip
       else Trip.arrival_time trip) in
  let time_width := ext_width (measure time_display) in
  let time_height := ext_height (measure time_display) in
  let headsign_clipping_end := (get_width panel - time_width - 4)%Z in
  let time_color :=
    if Trip.is_realtime trip then Color_of_code 2162432
    else Color_of_code 10987431 in
  [Print 0 y_offset (Trip.route_color trip) TOP_LEFT (Trip.route_name trip);
   Print (get_width panel + 1)%Z y_offset time_color TOP_RIGHT time_display]
  ++ (if Trip.is_realtime trip
      then draw_realtime_icon_ millis (get_width panel - time_width - 2)%Z
             (y_offset + time_height - 6)%Z
      else [])
  ++ [StartClipping 0 0
        (if Trip.is_realtime trip then (headsign_clipping_end - 8)%Z
         else headsign_clipping_end)
        (get_height panel);
      PrintPlain (routeMaxWidth + 3)%Z y_offset (Trip.headsign trip);
      EndClipping].

Fixpoint draw_rows (s : Settings) (now : ESPTime) (millis : Z)
    (routeMaxWidth y_offset : Z) (matching : list Trip.t)
  : list DisplayCall :=
  match matching with
  | [] => []
  | trip :: rest =>
      draw_row s now millis routeMaxWidth y_offset trip
      ++ draw_rows s now millis routeMaxWidth
           (y_offset + ext_height (measure (Trip.route_name trip)))%Z rest
  end.

(** What [draw_schedule] finds around it: whether [display_] is set, what
    [esphome::network::is_connected()] and [rtc_->now()] answer, and
    [millis()] for the icon. *)
Record Surroundings := mkSurroundings {
  has_display : bool;
  network_up : bool;
  clock : ESPTime;
  uptime : Z
}.

(** [draw_schedule()] *)
Definition draw_schedule (s : Settings) (e : Surroundings)
    (t : TransitTracker) : option (list DisplayCall) :=
  if negb (has_display e) then Some []
  else if negb (network_up e) then
    Some (draw_text_centered_ "Connecting to Wi-Fi" (Color_of_code 2434599))
  else if negb (is_valid (clock e)) then
    Some (draw_text_centered_ "Waiting for time sync" (Color_of_code 2434599))
  else if bool_decide (base_url_ t = "") then
    Some (draw_text_centered_ "No base URL set" (Color_of_code 2434599))
  else if bool_decide (is_Some (status_error t)) then
    Some (draw_text_centered_ "Error loading schedule"
            (Color_of_code 16665692))
  else if negb (has_ever_connected_ (conn t)) then
    Some (draw_text_centered_ "Loading..." (Color_of_code 2434599))
  else if bool_decide (stop_ids_ t = []) then
    Some (draw_text_centered_ "No Stops Configured" (Color_of_code 2434599))
  else
    stop_id ← current_stop_id t;
    let matching := matching_trips t stop_id (trips t) in
    if bool_decide (matching = []) then
      Some (draw_text_centered_
              (if display_departure_times_ s then "No upcoming departures"
               else "No upcoming arrivals")
              (Color_of_code 2434599))
    else
      Some (draw_rows s (clock e) (uptime e) (route_max_width matching) 2
              matching).

(** [draw_current_page()] with the calls of the routine it selects. *)
Definition render_current_page (s : Settings) (e : Surroundings)
    (t : TransitTracker) : option (list DisplayCall) :=
  match draw_current_page t with
  | StopNamePage => draw_stop_name s t
  | SchedulePage => draw_schedule s e t
  end.

End Drawing.

(** ** [loop], [on_ws_event_], [on_shutdown] *)

(** [loop()] after [ws_client_.poll()] has returned; the messages and
    events that the poll delivers are calls of their handlers.  The
    subtraction is made in [unsigned long]. *)
Definition loop (link : Link) (millis : Z) (t : TransitTracker) : Outcome :=
  if negb (last_heartbeat_ (conn t) =? 0)%Z
     && (60000 <? MachineInt.to_unsigned (millis - last_heartbeat_ (conn t)))%Z
  then reconnect link t
  else Continue t [].

Inductive WebsocketsEvent :=
| ConnectionOpened
| ConnectionClosed
| GotPing
| GotPong.

(** The document that the handler of [ConnectionOpened] builds, in the order
    in which it adds the members.  The strings are taken to fit the 4 KiB
    pool of the document. *)
Definition subscribe_document (s : Settings) : json :=
  JObj [("event", JStr "schedule:subscribe");
        ("data",
         JObj ((if bool_decide (feed_code_ s = "") then []
                else [("feedCode", JStr (feed_code_ s))])
               ++ [("routeStopPairs", JStr (schedule_string_ s));
                   ("limit", JNum (limit_ s));
                   ("sortByDeparture", JBool (display_departure_times_ s));
                   ("listMode", JStr (list_mode_ s))]))].

(** What the event handler asks of its collaborators: a message to send, or
    [connect_ws_] to be called from the main loop ([defer]). *)
Inductive EventCall :=
| WsSend (document : json)
| DeferConnect.

(** [on_ws_event_]; [psram_ok] tells whether [heap_caps_malloc] returned a
    buffer. *)
Definition on_ws_event_ (psram_ok : bool) (s : Settings)
    (event : WebsocketsEvent) (t : TransitTracker) : list EventCall :=
  match event with
  | ConnectionOpened =>
      if negb psram_ok then [] else [WsSend (subscribe_document s)]
  | ConnectionClosed =>
      if negb (fully_closed_ (conn t))
         && (connection_attempts_ (conn t) =? 0)%Z
      then [DeferConnect] else []
  | GotPing => []
  | GotPong => []
  end.

(** [on_shutdown()]: the name of the interval it cancels, and [close(true)]. *)
Definition on_shutdown (t : TransitTracker)
  : string * (TransitTracker * list Effect) :=
  ("check_stale_trips", close true t).

(** ** The entry points in sequence

    The foreground context calls the entry points one after the other:
    [connect_ws_] from [setup], from the "reconnect" timeout and from the
    deferred call, the interval callback, [loop], the message handler,
    [tick], and the public [reconnect], [close] and [add_stop_name]. *)

Section EntryPoints.
Context {V : Type} `{JsonApi V}.

Inductive Call :=
| CallConnect (link : Link)
| CallReconnect (link : Link)
| CallClose (fully : bool)
| CallShutdown
| CallWatchdog (link : Link) (now : ESPTime)
| CallLoop (link : Link) (millis : Z)
| CallMessage (psram_ok : bool) (millis : Z) (message : Deserialized V)
| CallTick (now : Z)
| CallAddStopName (stop_id stop_name : string).

Definition perform (c : Call) (t : TransitTracker) : Outcome :=
  match c with
  | CallConnect link => connect_ws_ link t
  | CallReconnect link => reconnect link t
  | CallClose fully => let '(t', fx) := close fully t in Continue t' fx
  | CallShutdown => let '(t', fx) := (on_shutdown t).2 in Continue t' fx
  | CallWatchdog link now => check_stale_trips link now t
  | CallLoop link millis => loop link millis t
  | CallMessage psram_ok millis message =>
      on_ws_message_ psram_ok millis message t
  | CallTick now => let '(t', fx) := tick now t in Continue t' fx
  | CallAddStopName stop_id stop_name =>
      Continue (add_stop_name stop_id stop_name t) []
  end.

(** The calls one after the other, until one of them ends the run. *)
Fixpoint run_calls (calls : list Call) (t : TransitTracker) : Outcome :=
  match calls with
  | [] => Continue t []
  | c :: rest =>
      match perform c t with
      | Continue t' fx =>
          match run_calls rest t' with
          | Continue t'' fx' => Continue t'' (fx ++ fx')
          | Terminated why fx' => Terminated why (fx ++ fx')
          end
      | Terminated why fx => Terminated why fx
      end
  end.

End EntryPoints.

(** ** Observations on the rest of the component *)

(** The text does not begin with the letter N. *)
Definition no_N_head (s : string) : Prop :=
  match s with
  | String c _ => c ≠ "N"%char
  | "" => True
  end.

(** The seconds from the clock's time to [unix_timestamp] fit what
    [from_now_] computes with: the time read fits a [uint] and the difference
    an [int]. *)
Definition in_reach (clock : ESPTime) (unix_timestamp : Z) : Prop :=
  (0 ≤ timestamp clock < MachineInt.two32)%Z ∧
  (- MachineInt.two31 ≤ unix_timestamp - timestamp clock < MachineInt.two31)%Z.

(** The unit that [from_now_] writes after a count of minutes. *)
Definition unit_suffix (u : UnitDisplay) : string :=
  match u with
  | UNIT_DISPLAY_LONG => "min"
  | UNIT_DISPLAY_SHORT => "m"
  | UNIT_DISPLAY_NONE => ""
  end.

(** A pixel of the icon drawn with its bottom right corner at [(x, y)]:
    inside the square of six by six pixels, in one of the two colours. *)
Definition icon_pixel (x y : Z) (call : DisplayCall) : Prop :=
  ∃ px py color,
    call = DrawPixelAt px py color ∧
    (x - 5 ≤ px ≤ x)%Z ∧ (y - 5 ≤ py ≤ y)%Z ∧
    (color = lit_color ∨ color = unlit_color).

Definition is_lit_pixel (call : DisplayCall) : bool :=
  match call with
  | DrawPixelAt _ _ color => bool_decide (color = lit_color)
  | _ => false
  end.

Definition lit_pixels (calls : list DisplayCall) : list DisplayCall :=
  filter (λ call, is_lit_pixel call) calls.

(** An effect that neither opens a connection, nor schedules a retry, nor
    restarts the device. *)
Definition is_quiet (fx : Effect) : Prop :=
  match fx with
  | WsClose | Draw _ => True
  | WsConnect _ | SetTimeout _ _ | AppReboot => False
  end.

(** A timeout, if the effect is one, is the "reconnect" timeout with one of
    the three delays of the back-off. *)
Definition retry_timeout (fx : Effect) : Prop :=
  match fx with
  | SetTimeout name ms =>
      name = "reconnect" ∧ (ms = 5000 ∨ ms = 10000 ∨ ms = 15000)%Z
  | _ => True
  end.

(** The counter of failed attempts is where a restart has not yet come, and
    from three failures on the error status is set. *)
Definition backoff_ok (t : TransitTracker) : Prop :=
  (0 ≤ connection_attempts_ (conn t) ≤ 14)%Z ∧
  ((3 ≤ connection_attempts_ (conn t))%Z → is_Some (status_error t)).

(** An outcome keeps a property of the state, of the effects and of the way
    a run ends. *)
Definition kept (holds : TransitTracker → Prop) (allowed : Effect → Prop)
    (ending : Termination → Prop) (o : Outcome) : Prop :=
  match o with
  | Continue t' fx => holds t' ∧ Forall allowed fx
  | Terminated why fx => ending why ∧ Forall allowed fx
  end.

(** What the loop of [draw_schedule] collects when [display_limit_] is 0
    as a [size_t]: the loop is left after the first trip of the vector. *)
Definition first_if_matching (stop_id : string) (trips : list Trip.t)
  : list Trip.t :=
  match trips with
  | [] => []
  | trip :: _ => if bool_decide (Trip.stop_id trip = stop_id) then [trip] else []
  end.

Definition at_stop (stop_id : string) (trips : list Trip.t) : list Trip.t :=
  filter (λ trip, Trip.stop_id trip = stop_id) trips.

(** The registry of stops as [add_stop_name] builds it: the index of the
    current stop is inside the vector (or 0 while the vector may still be
    empty) and every registered stop has a name. *)
Definition registry_ok (t : TransitTracker) : Prop :=
  (0 ≤ current_stop_index_ (page t))%Z ∧
  (current_stop_index_ (page t) = 0%Z ∨
   (current_stop_index_ (page t) < Z.of_nat (length (stop_ids_ t)))%Z) ∧
  ∀ stop_id, stop_id ∈ stop_ids_ t → is_Some (stop_names_ t !! stop_id).

(** The name registered for the stop at an index of the vector. *)
Definition name_at (t : TransitTracker) (index : Z) : option string :=
  stop_id ← stop_ids_ t !! Z.to_nat index;
  stop_names_ t !! stop_id.

(** [next_stop()] called [k] times. *)
Definition next_stops (k : nat) (t : TransitTracker) : TransitTracker :=
  Nat.iter k next_stop t.

(** The first key of a table, if there is one, comes after [k]. *)
Definition above {V} (k : string) (m : StdMap.t V) : Prop :=
  match m with
  | [] => True
  | (k', _) :: _ => String.compare k k' = Lt
  end.

(** Each key of the table is smaller than the next one. *)
Fixpoint keys_ascend {V} (m : StdMap.t V) : Prop :=
  match m with
  | [] => True
  | (k, _) :: rest => above k rest ∧ keys_ascend rest
  end.

(** The entries of the table stand in the strict order of their keys, which
    is the order in which a loop over the [std::map] visits them. *)
Definition keys_in_order {V} (m : StdMap.t V) : Prop :=
  ∀ (i j : nat) a b, (i < j)%nat → m !! i = Some a → m !! j = Some b →
    String.compare a.1 b.1 = Lt.

(** The clipping calls of a drawing are in order: no region is opened inside
    another or closed without being open, the text without alignment is
    printed inside a region and everything else outside, and no region is
    left open at the end.  [inside] tells whether a region is open. *)
Fixpoint clipping_ok (inside : bool) (calls : list DisplayCall) : bool :=
  match calls with
  | [] => negb inside
  | StartClipping _ _ _ _ :: rest => negb inside && clipping_ok true rest
  | EndClipping :: rest => inside && clipping_ok false rest
  | PrintPlain _ _ _ :: rest => inside && clipping_ok inside rest
  | Print _ _ _ _ _ :: rest => negb inside && clipping_ok inside rest
  | DrawPixelAt _ _ _ :: rest => negb inside && clipping_ok inside rest
  end.

Definition is_pixel (call : DisplayCall) : Prop :=
  match call with
  | DrawPixelAt _ _ _ => True
  | _ => False
  end.

Definition is_headsign (call : DisplayCall) : bool :=
  match call with
  | PrintPlain _ _ _ => true
  | _ => false
  end.

(** The headsigns of a drawing: the calls of [print] without alignment. *)
Definition headsign_calls (calls : list DisplayCall) : list DisplayCall :=
  filter (λ call, is_headsign call) calls.

(** The most rows that [draw_schedule] can lay out. *)
Definition most_rows (t : TransitTracker) : nat :=
  Z.to_nat (Z.max 1 (MachineInt.to_unsigned (display_limit_ t))).

(** * Machine integers: facts *)

Lemma to_signed_small z :
  (- MachineInt.two31 ≤ z < MachineInt.two31)%Z → MachineInt.to_signed z = z.
Proof.
  unfold MachineInt.to_signed, MachineInt.two31, MachineInt.two32.
  intros Hz. rewrite Z.mod_small; lia.
Qed.

Lemma to_unsigned_small z :
  (0 ≤ z < MachineInt.two32)%Z → MachineInt.to_unsigned z = z.
Proof. unfold MachineInt.to_unsigned. intros Hz. by rewrite Z.mod_small. Qed.

Lemma int_min_eq a b : MachineInt.int_min a b = Z.min a b.
Proof.
  unfold MachineInt.int_min.
  destruct (b <? a)%Z eqn:Hlt;
    [apply Z.ltb_lt in Hlt | apply Z.ltb_ge in Hlt]; lia.
Qed.

(** * Connection manager: facts *)

Lemma set_ws_connected_same t :
  ws_connected t = false → set_ws_connected false t = t.
Proof. destruct t; simpl; intros ->; reflexivity. Qed.

Lemma connect_ws_failed link t :
  connectable t → failing link →
  (0 ≤ connection_attempts_ (conn t) < 100000)%Z →
  connect_ws_ link t =
    if (15 <=? connection_attempts_ (conn t) + 1)%Z
    then Terminated Rebooting (attempt_fx link t ++ [AppReboot])
    else Continue (after_failure t)
           (attempt_fx link t ++
            [SetTimeout "reconnect"
               (Z.min 15000 ((connection_attempts_ (conn t) + 1) * 5000))]).
Proof.
  intros (Hurl & Hclosed & Hws) Hfail Hrange.
  unfold connect_ws_, failing, attempt_fx, after_failure in *.
  rewrite bool_decide_eq_false_2 by done.
  rewrite Hclosed, Hws.
  assert (Hs1 : MachineInt.to_signed (connection_attempts_ (conn t) + 1)
                = (connection_attempts_ (conn t) + 1)%Z).
  { apply to_signed_small.
    unfold MachineInt.two31; lia. }
  destruct (network_is_connected link) eqn:Hnet; simpl in *.
  - rewrite Hfail; simpl. rewrite Hs1.
    destruct (15 <=? connection_attempts_ (conn t) + 1)%Z eqn:H15; [done|].
    apply Z.leb_gt in H15.
    rewrite to_signed_small
      by (unfold MachineInt.two31; lia).
    by rewrite int_min_eq.
  - rewrite Hs1.
    destruct (15 <=? connection_attempts_ (conn t) + 1)%Z eqn:H15; [done|].
    apply Z.leb_gt in H15.
    rewrite to_signed_small
      by (unfold MachineInt.two31; lia).
    rewrite (set_ws_connected_same t Hws).
    by rewrite int_min_eq.
Qed.

Lemma after_failure_connectable t :
  connectable t → connectable (after_failure t).
Proof.
  intros (Hurl & Hclosed & Hws). unfold after_failure, connectable.
  destruct (3 <=? _)%Z; simpl; auto.
Qed.

Lemma after_failure_attempts t :
  connection_attempts_ (conn (after_failure t))
  = (connection_attempts_ (conn t) + 1)%Z.
Proof. unfold after_failure. destruct (3 <=? _)%Z; reflexivity. Qed.

Lemma retry_delays_failed link t ms :
  retry_delays
    (Continue (after_failure t)
       (attempt_fx link t ++ [SetTimeout "reconnect" ms])) = [ms].
Proof.
  unfold retry_delays, attempt_fx; simpl.
  destruct (network_is_connected link); reflexivity.
Qed.

Lemma reboots_failed link t ms :
  reboots
    (Continue (after_failure t)
       (attempt_fx link t ++ [SetTimeout "reconnect" ms])) = 0%nat.
Proof.
  unfold reboots, attempt_fx; simpl.
  destruct (network_is_connected link); reflexivity.
Qed.

Lemma reboots_restart link t :
  reboots (Terminated Rebooting (attempt_fx link t ++ [AppReboot])) = 1%nat.
Proof.
  unfold reboots, attempt_fx; simpl.
  destruct (network_is_connected link); reflexivity.
Qed.

Lemma retry_delays_restart link t :
  retry_delays (Terminated Rebooting (attempt_fx link t ++ [AppReboot])) = [].
Proof.
  unfold retry_delays, attempt_fx; simpl.
  destruct (network_is_connected link); reflexivity.
Qed.

(** A run of failures that starts with [a] failures already counted: the
    attempt at position [k] is failure number [a + k + 1]. *)
Lemma run_connects_failing links : ∀ t (a : nat),
  connectable t →
  connection_attempts_ (conn t) = Z.of_nat a →
  (a ≤ 14)%nat →
  Forall failing links →
  length (run_connects links t) = (length links `min` (15 - a))%nat ∧
  total_reboots (run_connects links t)
    = (if decide (15 - a ≤ length links)%nat then 1 else 0)%nat ∧
  ∀ (k : nat) o, run_connects links t !! k = Some o →
    (a + k ≤ 14)%nat ∧
    reboots o = (if decide (a + k = 14)%nat then 1 else 0)%nat ∧
    retry_delays o =
      (if decide (a + k = 14)%nat then []
       else [Z.min 15000 (Z.of_nat (a + k + 1) * 5000)]) ∧
    (a + k < 14 → ∃ t' fx, o = Continue t' fx ∧ connectable t' ∧
       connection_attempts_ (conn t') = Z.of_nat (a + k + 1))%nat.
Proof.
  induction links as [|link links IH]; intros t a Hc Ha Hle Hall.
  { split; [done|]. split; [|by intros k o Hk].
    simpl. destruct (decide _); [simpl in *; lia|done]. }
  apply Forall_cons in Hall as [Hfail Hall].
  cbn [run_connects].
  rewrite (connect_ws_failed link t Hc Hfail) by lia.
  rewrite Ha.
  destruct (15 <=? Z.of_nat a + 1)%Z eqn:H15.
  - apply Z.leb_le in H15. assert (a = 14)%nat as -> by lia.
    split; [simpl; lia|].
    split.
    { unfold total_reboots. cbn [fmap list_fmap sum_list].
      rewrite reboots_restart. cbn [length].
      destruct (decide _); [done|lia]. }
    intros [|k] o Hk; simpl in Hk; [|by rewrite lookup_nil in Hk].
    injection Hk as <-.
    rewrite reboots_restart, retry_delays_restart.
    repeat split; try done. lia.
  - apply Z.leb_gt in H15.
    destruct (IH (after_failure t) (S a)) as (IHlen & IHsum & IHk);
      [by apply after_failure_connectable
      |rewrite after_failure_attempts, Ha; lia
      |lia|done|].
    split.
    { cbn [length]. rewrite IHlen. lia. }
    split.
    { unfold total_reboots in *. cbn [fmap list_fmap sum_list].
      rewrite reboots_failed. fold (fmap (M:=list) reboots).
      rewrite IHsum. cbn [length]. unfold id.
      repeat destruct (decide _); lia. }
    intros [|k] o Hk; simpl in Hk.
    + injection Hk as <-.
      rewrite reboots_failed, retry_delays_failed.
      rewrite Nat.add_0_r.
      destruct (decide (a = 14)%nat); [lia|].
      repeat split; [lia| |].
      * do 2 f_equal. lia.
      * intros _. eexists _, _. split; [done|].
        split; [by apply after_failure_connectable|].
        rewrite after_failure_attempts, Ha. lia.
    + destruct (IHk k o Hk) as (Hb & Hr & Hd & Hn).
      replace (a + S k)%nat with (S a + k)%nat by lia.
      done.
Qed.

Lemma connect_ws_success link t :
  connectable t →
  network_is_connected link = true → ws_connect_result link = true →
  ∃ t', connect_ws_ link t = Continue t' [WsConnect (base_url_ t)] ∧
        connection_attempts_ (conn t') = 0%Z ∧
        has_ever_connected_ (conn t') = true ∧
        status_error t' = None.
Proof.
  intros (Hurl & Hclosed & Hws) Hnet Hres.
  unfold connect_ws_.
  rewrite bool_decide_eq_false_2 by done.
  rewrite Hclosed, Hws, Hnet, Hres. simpl.
  eexists. split; [reflexivity|]. done.
Qed.

Lemma backoff_delay_min (n : nat) :
  (1 ≤ n)%nat → backoff_delay n = Z.min 15000 (Z.of_nat n * 5000).
Proof.
  intros Hn. destruct n as [|[|[|n]]]; [lia|done|done|].
  unfold backoff_delay. lia.
Qed.

(** C5.  In a run of consecutive failed connection attempts that starts
    with the counter at 0, failure number [k + 1] (for the failures before
    the fifteenth, at which the device restarts) leaves the counter at
    [k + 1] and schedules exactly one retry, after 5000 ms, 10000 ms and
    15000 ms for the first three failures and 15000 ms for every later one,
    which is [min 15000 (count * 5000)]; a successful connect right after it
    puts the counter back to 0. *)
Theorem backoff_schedule (links : list Link) (t : TransitTracker) (up : Link) :
  connectable t →
  connection_attempts_ (conn t) = 0%Z →
  Forall failing links →
  network_is_connected up = true → ws_connect_result up = true →
  ∀ k : nat, (k < length links)%nat → (k < 14)%nat →
    ∃ t' fx,
      run_connects links t !! k = Some (Continue t' fx) ∧
      connection_attempts_ (conn t') = Z.of_nat (k + 1) ∧
      retry_delays (Continue t' fx) = [backoff_delay (k + 1)] ∧
      backoff_delay (k + 1) = Z.min 15000 (Z.of_nat (k + 1) * 5000) ∧
      ∃ t'', connect_ws_ up t' = Continue t'' [WsConnect (base_url_ t')] ∧
             connection_attempts_ (conn t'') = 0%Z.
Proof.
  intros Hc Ha Hall Hnet Hres k Hk Hk14.
  destruct (run_connects_failing links t 0 Hc Ha ltac:(lia) Hall)
    as (Hlen & _ & Hrun).
  destruct (lookup_lt_is_Some_2 (run_connects links t) k) as [o Ho];
    [rewrite Hlen; lia|].
  destruct (Hrun k o Ho) as (_ & _ & Hdelay & Hcont).
  destruct Hcont as (t' & fx & -> & Hc' & Ha'); [simpl; lia|].
  simpl in Hdelay, Ha'.
  destruct (decide (k = 14)%nat); [lia|].
  exists t', fx. split; [done|]. split; [done|].
  rewrite backoff_delay_min by lia.
  split; [done|]. split; [done|].
  destruct (connect_ws_success up t' Hc' Hnet Hres) as (t'' & Ht'' & Hz & _).
  by exists t''.
Qed.

(** C6.  In a run of consecutive failed connection attempts that starts
    with the counter at 0, [App.reboot()] is called in the fifteenth attempt
    and in no other: not in the fourteen before it, and the run ends with
    it, so that it is called once in a run of fifteen or more failures and
    not at all in a shorter one. *)
Theorem restart_exactly_once (links : list Link) (t : TransitTracker) :
  connectable t →
  connection_attempts_ (conn t) = 0%Z →
  Forall failing links →
  total_reboots (run_connects links t)
    = (if decide (15 ≤ length links)%nat then 1 else 0)%nat ∧
  length (run_connects links t) = (length links `min` 15)%nat ∧
  ∀ (k : nat) o, run_connects links t !! k = Some o →
    reboots o = (if decide (k = 14)%nat then 1 else 0)%nat.
Proof.
  intros Hc Ha Hall.
  destruct (run_connects_failing links t 0 Hc Ha ltac:(lia) Hall)
    as (Hlen & Hsum & Hrun).
  split; [done|]. split; [done|].
  intros k o Ho. by destruct (Hrun k o Ho) as (_ & Hr & _).
Qed.

(** C7, as amended.  [connect_ws_] does nothing when no base URL is set,
    when the connection is fully closed or when the client is already
    connected.  When no network link is available it makes no transport
    call, but it handles the call as a failed attempt: the counter is
    incremented, [last_heartbeat_] is cleared and a retry is scheduled after
    [min 15000 (count * 5000)] ms, or the device restarts at the fifteenth
    failure. *)
Theorem connect_ws_guards (link : Link) (t : TransitTracker) :
  (0 ≤ connection_attempts_ (conn t) < 100000)%Z →
  (base_url_ t = "" ∨ fully_closed_ (conn t) = true ∨ ws_connected t = true →
   connect_ws_ link t = Continue t []) ∧
  (connectable t → network_is_connected link = false →
   connection_attempts_ (conn (after_failure t))
     = (connection_attempts_ (conn t) + 1)%Z ∧
   last_heartbeat_ (conn (after_failure t)) = 0%Z ∧
   connect_ws_ link t =
     if (15 <=? connection_attempts_ (conn t) + 1)%Z
     then Terminated Rebooting [AppReboot]
     else Continue (after_failure t)
            [SetTimeout "reconnect"
               (Z.min 15000 ((connection_attempts_ (conn t) + 1) * 5000))]).
Proof.
  intros Hrange. split.
  - unfold connect_ws_. intros [Hurl|[Hclosed|Hws]].
    + by rewrite bool_decide_eq_true_2.
    + rewrite Hclosed. by destruct (bool_decide _).
    + rewrite Hws. by destruct (bool_decide _), (fully_closed_ (conn t)).
  - intros Hc Hnet.
    split; [apply after_failure_attempts|].
    split; [unfold after_failure; by destruct (3 <=? _)%Z|].
    rewrite (connect_ws_failed link t Hc) by (unfold failing; by rewrite ?Hnet).
    unfold attempt_fx. by rewrite Hnet.
Qed.

Lemma backoff_schedule_witness :
  ∃ t' fx,
    run_connects (replicate 6 link_down) example_tracker !! 3%nat
      = Some (Continue t' fx) ∧
    connection_attempts_ (conn t') = Z.of_nat (3 + 1) ∧
    retry_delays (Continue t' fx) = [backoff_delay (3 + 1)] ∧
    backoff_delay (3 + 1) = Z.min 15000 (Z.of_nat (3 + 1) * 5000) ∧
    ∃ t'', connect_ws_ link_up t' = Continue t'' [WsConnect (base_url_ t')] ∧
           connection_attempts_ (conn t'') = 0%Z.
Proof.
  apply (backoff_schedule (replicate 6 link_down) example_tracker link_up).
  - repeat split. discriminate.
  - reflexivity.
  - simpl. repeat (apply Forall_cons_2; [reflexivity|]). apply Forall_nil_2.
  - reflexivity.
  - reflexivity.
  - simpl. lia.
  - lia.
Defined.

Lemma restart_exactly_once_witness :
  total_reboots (run_connects (replicate 20 link_refused) example_tracker)
    = (if decide (15 ≤ length (replicate 20 link_refused))%nat
       then 1 else 0)%nat ∧
  length (run_connects (replicate 20 link_refused) example_tracker)
    = (length (replicate 20 link_refused) `min` 15)%nat ∧
  ∀ (k : nat) o,
    run_connects (replicate 20 link_refused) example_tracker !! k = Some o →
    reboots o = (if decide (k = 14)%nat then 1 else 0)%nat.
Proof.
  apply (restart_exactly_once (replicate 20 link_refused) example_tracker).
  - repeat split. discriminate.
  - reflexivity.
  - simpl. repeat (apply Forall_cons_2; [reflexivity|]). apply Forall_nil_2.
Defined.

(** C7, as stated, fails: with no network link the call is counted as a
    failed attempt and a retry is scheduled. *)
Lemma connect_ws_without_link_counts :
  network_is_connected link_down = false ∧
  connection_attempts_ (conn example_tracker) = 0%Z ∧
  ∃ t', connect_ws_ link_down example_tracker
          = Continue t' [SetTimeout "reconnect" 5000] ∧
        connection_attempts_ (conn t') = 1%Z ∧
        connect_ws_ link_down example_tracker ≠ Continue example_tracker [].
Proof.
  split; [reflexivity|]. split; [reflexivity|].
  eexists. split; [vm_compute; reflexivity|].
  split; [reflexivity|]. vm_compute. discriminate.
Qed.

Lemma connect_ws_guards_witness :
  (base_url_ (set_ws_connected true example_tracker) = ""
   ∨ fully_closed_ (conn (set_ws_connected true example_tracker)) = true
   ∨ ws_connected (set_ws_connected true example_tracker) = true →
   connect_ws_ link_up (set_ws_connected true example_tracker)
   = Continue (set_ws_connected true example_tracker) []) ∧
  connect_ws_ link_down example_tracker =
    Continue (after_failure example_tracker) [SetTimeout "reconnect" 5000].
Proof.
  split.
  - apply (connect_ws_guards link_up (set_ws_connected true example_tracker)).
    simpl. lia.
  - apply (connect_ws_guards link_down example_tracker).
    + simpl. lia.
    + repeat split. discriminate.
    + reflexivity.
Defined.

(** * Staleness watchdog: facts *)

Lemma scan_stale_true now trips :
  scan_stale now trips = true ↔
  ∃ trip, trip ∈ trips ∧ (60 < timestamp now - Trip.departure_time trip)%Z.
Proof.
  induction trips as [|trip rest IH]; simpl.
  - split; [done|]. intros (? & Hin & _). by apply elem_of_nil in Hin.
  - destruct (60 <? _)%Z eqn:Hlt.
    + apply Z.ltb_lt in Hlt. split; [|done].
      intros _. exists trip. split; [left|done].
    + apply Z.ltb_ge in Hlt. rewrite IH. split.
      * intros (x & Hin & Hx). exists x. split; [by right|done].
      * intros (x & Hin & Hx). apply elem_of_cons in Hin as [->|Hin]; [lia|].
        by exists x.
Qed.

Lemma reconnect_closes link t :
  ∃ fx, effects (reconnect link t) = WsClose :: fx.
Proof.
  unfold reconnect, close.
  destruct (connect_ws_ link _); eexists; reflexivity.
Qed.

(** C8, as amended.  On a watchdog tick, if the websocket client reports an
    open connection, the clock's time is valid and some cached trip departed
    more than 60 seconds before it (so the cache is not empty), the tick
    calls [reconnect()], which starts by closing the connection; if every
    cached trip's departure time is at most 60 seconds before the current
    time, or the client reports no open connection, or the time is not
    valid, the tick does nothing. *)
Theorem staleness_watchdog (link : Link) (now : ESPTime) (t : TransitTracker) :
  (ws_connected t = true → is_valid now = true →
   (∃ trip, trip ∈ trips t ∧
            (60 < timestamp now - Trip.departure_time trip)%Z) →
   check_stale_trips link now t = reconnect link t ∧
   ∃ fx, effects (check_stale_trips link now t) = WsClose :: fx) ∧
  ((∀ trip, trip ∈ trips t →
            (timestamp now - Trip.departure_time trip ≤ 60)%Z) →
   check_stale_trips link now t = Continue t []) ∧
  (ws_connected t = false ∨ is_valid now = false →
   check_stale_trips link now t = Continue t []).
Proof.
  unfold check_stale_trips. split; [|split].
  - intros Hws Hvalid Hstale.
    assert (Hne : trips t ≠ []).
    { destruct Hstale as (trip & Hin & _). intros Heq.
      rewrite Heq in Hin. by apply elem_of_nil in Hin. }
    rewrite Hws, Hvalid, bool_decide_eq_false_2 by done. simpl.
    apply scan_stale_true in Hstale. rewrite Hstale.
    split; [done|]. apply reconnect_closes.
  - intros Hfresh.
    assert (Hscan : scan_stale now (trips t) = false).
    { apply not_true_is_false. intros (trip & Hin & Hlt)%scan_stale_true.
      specialize (Hfresh trip Hin). lia. }
    rewrite Hscan.
    by destruct (ws_connected t), (bool_decide _), (is_valid now).
  - intros [Hws| Hvalid].
    + by rewrite Hws.
    + rewrite Hvalid. by destruct (ws_connected t), (bool_decide _).
Qed.

(** C8, as stated, fails: a stale trip in a non-empty cache does not make
    the tick reconnect while the client reports no open connection. *)
Lemma watchdog_idle_when_disconnected :
  trips example_tracker ≠ [] ∧
  (∃ trip, trip ∈ trips example_tracker ∧
           (60 < 2000 - Trip.departure_time trip)%Z) ∧
  check_stale_trips link_up (mkESPTime 2000 true) example_tracker
    = Continue example_tracker [] ∧
  check_stale_trips link_up (mkESPTime 2000 true) example_tracker
    ≠ reconnect link_up example_tracker.
Proof.
  split; [discriminate|]. split.
  - exists (example_trip "1_100" 1000). split; [left|reflexivity].
  - split; [reflexivity|]. vm_compute. discriminate.
Qed.

Lemma staleness_watchdog_witness :
  (check_stale_trips link_up (mkESPTime 2000 true)
     (set_ws_connected true example_tracker)
   = reconnect link_up (set_ws_connected true example_tracker) ∧
   ∃ fx, effects (check_stale_trips link_up (mkESPTime 2000 true)
                    (set_ws_connected true example_tracker))
         = WsClose :: fx) ∧
  check_stale_trips link_up (mkESPTime 1050 true)
    (set_ws_connected true example_tracker)
  = Continue (set_ws_connected true example_tracker) [].
Proof.
  split.
  - apply (proj1 (staleness_watchdog link_up (mkESPTime 2000 true)
                     (set_ws_connected true example_tracker))).
    + reflexivity.
    + reflexivity.
    + exists (example_trip "1_100" 1000). split; [left|reflexivity].
  - apply (proj1 (proj2 (staleness_watchdog link_up (mkESPTime 1050 true)
                            (set_ws_connected true example_tracker)))).
    intros trip Hin. simpl in Hin.
    apply elem_of_cons in Hin as [->|Hin]; [simpl; lia|].
    apply elem_of_cons in Hin as [->|Hin]; [simpl; lia|].
    by apply elem_of_nil in Hin.
Defined.

(** * [std::string]: facts *)

Lemma app_cons c s1 s2 : String c s1 +:+ s2 = String c (s1 +:+ s2).
Proof. reflexivity. Qed.

Lemma app_empty_l s : "" +:+ s = s.
Proof. reflexivity. Qed.

Lemma length_app s1 s2 :
  String.length (s1 +:+ s2) = (String.length s1 + String.length s2)%nat.
Proof.
  induction s1 as [|c s1 IH]; [done|].
  rewrite app_cons. simpl. by rewrite IH.
Qed.

Lemma prefix_split needle hay :
  String.prefix needle hay = true →
  hay = needle +:+ StdString.drop (String.length needle) hay.
Proof.
  revert hay. induction needle as [|c needle IH]; intros hay Hp.
  - by destruct hay.
  - destruct hay as [|d hay]; [done|]. simpl in Hp.
    destruct (ascii_dec c d) as [->|]; [|done].
    rewrite app_cons. simpl. f_equal. by apply IH.
Qed.

Lemma prefix_app needle post : String.prefix needle (needle +:+ post) = true.
Proof.
  induction needle as [|c needle IH]; [by destruct post|].
  rewrite app_cons. simpl. by destruct (ascii_dec c c).
Qed.

Lemma find_unfold hay needle :
  StdString.find hay needle =
    if String.prefix needle hay then Some 0%nat
    else match hay with
         | "" => None
         | String _ rest => S <$> StdString.find rest needle
         end.
Proof. by destruct hay. Qed.

Lemma find_Some hay needle : ∀ pos,
  StdString.find hay needle = Some pos →
  first_occurrence needle hay (StdString.take pos hay)
    (StdString.drop (pos + String.length needle) hay) ∧
  String.length (StdString.take pos hay) = pos ∧
  (pos ≤ String.length hay)%nat.
Proof.
  induction hay as [|c hay IH]; intros pos; rewrite find_unfold.
  - destruct (String.prefix needle "") eqn:Hp; [|done].
    intros [= <-]. split; [|done]. split; [|simpl; lia].
    by apply prefix_split in Hp.
  - destruct (String.prefix needle (String c hay)) eqn:Hp.
    + intros [= <-]. split; [|simpl; lia]. split; [|simpl; lia].
      by apply prefix_split in Hp.
    + destruct (StdString.find hay needle) as [pos'|] eqn:Hf; [|done].
      intros [= <-]. destruct (IH pos' eq_refl) as ([Hsplit Hmin] & Hlen & Hle).
      split; [|simpl; lia]. split.
      * simpl. rewrite app_cons. by f_equal.
      * intros [|d pre'] post' Heq.
        { rewrite app_empty_l in Heq. rewrite Heq, prefix_app in Hp. done. }
        rewrite app_cons in Heq. injection Heq as -> Heq.
        specialize (Hmin _ _ Heq). simpl. lia.
Qed.

Lemma find_None hay needle :
  StdString.find hay needle = None → ¬ occurs needle hay.
Proof.
  induction hay as [|c hay IH]; rewrite find_unfold.
  - destruct (String.prefix needle "") eqn:Hp; [done|].
    intros _ ([|d pre] & post & Heq); [|done].
    rewrite app_empty_l in Heq. by rewrite Heq, prefix_app in Hp.
  - destruct (String.prefix needle (String c hay)) eqn:Hp; [done|].
    destruct (StdString.find hay needle) eqn:Hf; [done|].
    intros _ ([|d pre] & post & Heq).
    + rewrite app_empty_l in Heq. by rewrite Heq, prefix_app in Hp.
    + rewrite app_cons in Heq. injection Heq as -> Heq.
      apply IH; [done|]. by exists pre, post.
Qed.

(** * Schedule decoder: facts *)

Lemma apply_abbreviations_rewrites abbrs : ∀ headsign,
  ∃ final applied,
    apply_abbreviations abbrs headsign = Some (final, applied) ∧
    rewrites abbrs headsign final applied ∧
    applied `sublist_of` abbrs.
Proof.
  induction abbrs as [|[from to] rest IH]; intros headsign; simpl.
  - exists headsign, []. repeat split; constructor.
  - destruct (StdString.find headsign from) as [pos|] eqn:Hf.
    + destruct (find_Some _ _ _ Hf) as (Hfirst & Hlen & Hle).
      unfold StdString.replace. rewrite decide_True by done. simpl.
      destruct (IH (StdString.take pos headsign +:+ to +:+
                    StdString.drop (pos + String.length from) headsign))
        as (final & applied & -> & Hrw & Hsub).
      simpl. exists final, ((from, to) :: applied).
      split; [done|]. split; [|by constructor].
      pose proof Hfirst as [Heq _].
      rewrite Heq at 1. apply rewrites_hit; [|done].
      by rewrite <- Heq.
    + destruct (IH headsign) as (final & applied & -> & Hrw & Hsub).
      exists final, applied. split; [done|].
      split; [|by constructor].
      apply rewrites_skip; [|done]. by apply find_None.
Qed.

(** ** [std::stoul] on a colour of the feed *)

Lemma hex_digit_facts c d :
  StdString.hex_digit c = Some d →
  Ascii.is_space c = false ∧ c ≠ "-"%char ∧ c ≠ "+"%char ∧
  c ≠ "x"%char ∧ c ≠ "X"%char ∧ (0 ≤ d < 16)%Z.
Proof.
  destruct c as [[] [] [] [] [] [] [] []]; intros Hd;
    vm_compute in Hd; try discriminate Hd; injection Hd as <-;
    repeat split; (done || lia).
Qed.

Lemma all_hex_cons c rest :
  all_hex (String c rest) = true →
  (∃ d, StdString.hex_digit c = Some d) ∧ all_hex rest = true.
Proof.
  simpl. intros [Hc Hrest]%andb_true_iff.
  split; [|done]. by apply bool_decide_eq_true_1 in Hc as [d Hd]; exists d.
Qed.

Lemma skip_space_hex s : all_hex s = true → StdString.skip_space s = s.
Proof.
  destruct s as [|c rest]; [done|].
  intros [[d Hd] _]%all_hex_cons. simpl.
  by destruct (hex_digit_facts c d Hd) as (-> & _).
Qed.

Lemma strip_sign_hex s :
  all_hex s = true → StdString.strip_sign s = (false, s).
Proof.
  destruct s as [|c rest]; [done|].
  intros [[d Hd] _]%all_hex_cons.
  destruct c as [[] [] [] [] [] [] [] []];
    vm_compute in Hd; try discriminate Hd; reflexivity.
Qed.

Lemma strip_0x_hex s : all_hex s = true → StdString.strip_0x s = s.
Proof.
  destruct s as [|c [|x [|d rest]]]; try done.
  - by destruct c as [[] [] [] [] [] [] [] []].
  - by destruct c as [[] [] [] [] [] [] [] []].
  - intros [_ [[dx Hx] _]%all_hex_cons]%all_hex_cons.
    destruct (hex_digit_facts x dx Hx) as (_ & _ & _ & Hx1 & Hx2 & _).
    destruct c as [[] [] [] [] [] [] [] []]; try reflexivity.
    unfold StdString.strip_0x.
    by rewrite (bool_decide_eq_false_2 _ Hx1), (bool_decide_eq_false_2 _ Hx2).
Qed.

Lemma hex_run_value s : ∀ acc,
  all_hex s = true →
  foldl (λ acc d, acc * 16 + d)%Z acc (StdString.hex_run s) = base16_from acc s.
Proof.
  induction s as [|c rest IH]; intros acc; [done|].
  intros [[d Hd] Hrest]%all_hex_cons. simpl. rewrite Hd. simpl.
  by apply IH.
Qed.

Lemma base16_from_bound s : ∀ acc,
  all_hex s = true → (0 ≤ acc)%Z →
  (0 ≤ base16_from acc s < (acc + 1) * 16 ^ Z.of_nat (String.length s))%Z.
Proof.
  induction s as [|c rest IH]; intros acc Hall Hacc.
  - simpl. lia.
  - apply all_hex_cons in Hall as [[d Hd] Hrest].
    cbn [base16_from String.length]. rewrite Hd. simpl default.
    destruct (hex_digit_facts c d Hd) as (_ & _ & _ & _ & _ & Hrange).
    specialize (IH (acc * 16 + d)%Z Hrest ltac:(lia)).
    rewrite Nat2Z.inj_succ, Z.pow_succ_r by lia.
    assert (0 < 16 ^ Z.of_nat (String.length rest))%Z
      by (apply Z.pow_pos_nonneg; lia).
    nia.
Qed.

Lemma stoul16_hex_color hex :
  hex_color hex →
  StdString.stoul16 hex = StdString.StoulValue (base16 hex).
Proof.
  intros (Hne & Hall & Hlen).
  unfold StdString.stoul16.
  rewrite (skip_space_hex _ Hall), (strip_sign_hex _ Hall),
    (strip_0x_hex _ Hall).
  pose proof (hex_run_value hex 0 Hall) as Hval.
  pose proof (base16_from_bound hex 0 Hall ltac:(lia)) as Hbound.
  destruct hex as [|c rest]; [done|].
  apply all_hex_cons in Hall as [[d Hd] Hrest].
  cbn [StdString.hex_run] in *. rewrite Hd in *.
  unfold StdString.digits_value. rewrite Hval.
  fold (base16 (String c rest)) in *.
  assert (16 ^ Z.of_nat (String.length (String c rest)) ≤ 16 ^ 8)%Z
    by (apply Z.pow_le_mono_r; lia).
  assert (Hfit : (StdString.ULONG_MAX <? base16 (String c rest))%Z = false).
  { apply Z.ltb_ge. unfold StdString.ULONG_MAX, MachineInt.two32.
    change (16 ^ 8)%Z with 4294967296%Z in *. lia. }
  by rewrite Hfit.
Qed.

(** ** Decoding a valid payload *)

Section DecoderFacts.
Context {V : Type} `{JsonApi V}.

Lemma decode_trip_valid (t : TransitTracker) (entry : V) :
  valid_trip_entry entry →
  ∃ trip, decode_trip t entry = Some trip ∧ styled_as t entry trip.
Proof.
  intros ([headsign Hh] & [stop Hs] & [route Hr] & [name Hn] & Hcolor).
  unfold decode_trip.
  rewrite Hh, Hs, Hr, Hn. simpl.
  destruct (apply_abbreviations_rewrites (abbreviations_ t) headsign)
    as (final & applied & -> & _). simpl.
  unfold styled_as.
  destruct (route_styles_ t !! route) as [style|] eqn:Hstyle; simpl.
  - eexists. split; [reflexivity|]. simpl. by rewrite ?Hstyle.
  - destruct Hcolor as [Hnull | (Hnull & hex & Hhex & Hvalid)].
    + rewrite Hnull. simpl.
      eexists. split; [reflexivity|]. simpl. by rewrite ?Hstyle, ?Hnull.
    + rewrite Hnull, Hhex. simpl.
      rewrite (stoul16_hex_color hex Hvalid). simpl.
      eexists. split; [reflexivity|]. simpl. rewrite ?Hstyle, ?Hnull.
      split; [done|]. split; [done|]. by exists hex.
Qed.

Lemma push_trips_valid (t : TransitTracker) (entries : list V) : ∀ vec,
  Forall valid_trip_entry entries →
  ∃ decoded, push_trips t entries vec = Some (vec ++ decoded) ∧
             Forall2 (styled_as t) entries decoded.
Proof.
  induction entries as [|entry rest IH]; intros vec Hall; simpl.
  - exists []. by rewrite app_nil_r.
  - apply Forall_cons in Hall as [Hentry Hrest].
    destruct (decode_trip_valid t entry Hentry) as (trip & -> & Hstyled).
    simpl. destruct (IH (vec ++ [trip]) Hrest) as (decoded & -> & Hdec).
    exists (trip :: decoded). split; [by rewrite <- app_assoc|].
    by constructor.
Qed.

(** C2.  For a valid "schedule" payload the handler replaces the trips by
    one decoded trip per entry, in order, and the colour of each is the
    colour of the style configured for its route, the name being the name of
    that style; or else, when no style is configured for the route, the
    colour that the entry gives in [routeColor], read in base 16; or else,
    when the entry gives none, the default route colour. *)
Theorem route_color_precedence (millis : Z) (root : V) (t : TransitTracker) :
  event_of root = "schedule" →
  Forall valid_trip_entry (schedule_entries root) →
  ∃ decoded,
    on_ws_message_ true millis (Document root) t
      = Continue (set_trips decoded t) [] ∧
    Forall2 (styled_as t) (schedule_entries root) decoded.
Proof.
  intros Hevent Hvalid. unfold on_ws_message_. rewrite Hevent. simpl.
  destruct (push_trips_valid t (schedule_entries root) [] Hvalid)
    as (decoded & -> & Hdec).
  by exists decoded.
Qed.

(** C3, as amended.  The handler takes the entries of the abbreviation
    table once each, in the order of the table; an entry is matched against
    the headsign as the earlier entries have left it, and the first
    occurrence of its key there, if there is one, is replaced.  The headsign
    of a decoded trip is the outcome of that single pass over the headsign
    of the feed. *)
Theorem abbreviations_single_pass (t : TransitTracker) (entry : V)
    (trip : Trip.t) :
  decode_trip t entry = Some trip →
  ∃ feed_headsign applied,
    jas_cstr (jmember entry "headsign") = Some feed_headsign ∧
    apply_abbreviations (abbreviations_ t) feed_headsign
      = Some (Trip.headsign trip, applied) ∧
    rewrites (abbreviations_ t) feed_headsign (Trip.headsign trip) applied ∧
    applied `sublist_of` abbreviations_ t.
Proof.
  unfold decode_trip. intros Hdec.
  destruct (jas_cstr (jmember entry "headsign")) as [feed_headsign|];
    [|done].
  simpl in Hdec.
  destruct (apply_abbreviations_rewrites (abbreviations_ t) feed_headsign)
    as (final & applied & Heq & Hrw & Hsub).
  rewrite Heq in Hdec. simpl in Hdec.
  exists feed_headsign, applied.
  destruct (jas_cstr (jmember entry "stopId")); [|done]. simpl in Hdec.
  destruct (jas_cstr (jmember entry "routeId")); [|done]. simpl in Hdec.
  destruct (jas_cstr (jmember entry "routeName")); [|done]. simpl in Hdec.
  match type of Hdec with
  | (?m ≫= _) = _ => destruct m as [styled|]; [|done]
  end.
  simpl in Hdec. injection Hdec as <-. simpl.
  done.
Qed.

(** C4.  A message that does not decode (a malformed one, or one too large
    for the document) or whose event is neither "heartbeat" nor "schedule"
    only sets the error status: the handler returns, the status holds an
    error message, and the trips and everything else are as before. *)
Theorem failed_message_keeps_cache (psram_ok : bool) (millis : Z)
    (message : Deserialized V) (t : TransitTracker) :
  undecodable message →
  ∃ msg,
    on_ws_message_ psram_ok millis message t
      = Continue (status_set_error msg t) [] ∧
    status_error (status_set_error msg t) = Some msg ∧
    trips (status_set_error msg t) = trips t ∧
    (psram_ok = true → msg = "Failed to parse schedule data").
Proof.
  intros Hbad. unfold on_ws_message_.
  destruct psram_ok; simpl; [|by eexists].
  destruct message as [|root]; simpl in *; [by eexists|].
  destruct Hbad as [Hhb Hsched].
  destruct (String.eqb_spec (event_of root) "heartbeat"); [done|].
  destruct (String.eqb_spec (event_of root) "schedule"); [done|].
  simpl. by eexists.
Qed.

End DecoderFacts.

(** ** The decoder on the concrete feed *)

Example example_schedule_decoded :
  on_ws_message_ true 0 (Document example_schedule) styled_tracker
  = Continue (set_trips decoded_example styled_tracker) [].
Proof. vm_compute. reflexivity. Qed.

Lemma route_color_precedence_witness :
  ∃ decoded,
    on_ws_message_ true 0 (Document example_schedule) styled_tracker
      = Continue (set_trips decoded styled_tracker) [] ∧
    Forall2 (styled_as styled_tracker) (schedule_entries example_schedule)
      decoded.
Proof.
  apply (route_color_precedence 0 example_schedule styled_tracker).
  - reflexivity.
  - simpl. repeat apply Forall_cons_2; [| | |apply Forall_nil_2];
      (split; [by eexists|]); (split; [by eexists|]);
      (split; [by eexists|]); (split; [by eexists|]).
    + right. split; [reflexivity|]. eexists. split; [reflexivity|].
      repeat split; [discriminate|simpl; lia].
    + right. split; [reflexivity|]. eexists. split; [reflexivity|].
      repeat split; [discriminate|simpl; lia].
    + left. reflexivity.
Defined.

(** C3, as stated, fails: the table of [styled_tracker] holds "Center" to
    "Ctr" and "Ctr" to "C"; "Ctr" does not occur in the headsign of the
    feed, yet its entry is applied to the text that the first entry put
    there. *)
Lemma abbreviation_rematches_substituted_text :
  abbreviations_ styled_tracker = [("Center", "Ctr"); ("Ctr", "C")] ∧
  apply_abbreviations (abbreviations_ styled_tracker) "Transit Center"
    = Some ("Transit C", [("Center", "Ctr"); ("Ctr", "C")]) ∧
  ¬ occurs "Ctr" "Transit Center".
Proof.
  split; [reflexivity|]. split; [reflexivity|].
  by apply find_None.
Qed.

Lemma abbreviations_single_pass_witness :
  ∃ feed_headsign applied,
    jas_cstr (jmember (feed_entry "Transit Center" "8" (JStr "ff0000") 1060)
                "headsign") = Some feed_headsign ∧
    apply_abbreviations (abbreviations_ styled_tracker) feed_headsign
      = Some ("Transit C", applied) ∧
    rewrites (abbreviations_ styled_tracker) feed_headsign "Transit C"
      applied ∧
    applied `sublist_of` abbreviations_ styled_tracker.
Proof.
  apply (abbreviations_single_pass styled_tracker
           (feed_entry "Transit Center" "8" (JStr "ff0000") 1060)
           {| Trip.stop_id := "1_100"; Trip.route_id := "8";
              Trip.route_name := "Eight";
              Trip.route_color := Color_of_code 255;
              Trip.headsign := "Transit C";
              Trip.arrival_time := 1060; Trip.departure_time := 1060;
              Trip.is_realtime := true |}).
  reflexivity.
Defined.

Lemma failed_message_keeps_cache_witness :
  ∃ msg,
    on_ws_message_ true 0 (Document (JObj [("event", JStr "status")]))
      example_tracker
      = Continue (status_set_error msg example_tracker) [] ∧
    status_error (status_set_error msg example_tracker) = Some msg ∧
    trips (status_set_error msg example_tracker) = trips example_tracker ∧
    (true = true → msg = "Failed to parse schedule data").
Proof.
  apply (failed_message_keeps_cache true 0
           (Document (JObj [("event", JStr "status")])) example_tracker).
  split; discriminate.
Defined.

(** * Tables loaded from text: facts *)

Lemma string_compare_refl (s : string) : String.compare s s = Eq.
Proof.
  induction s as [|c s IH]; [done|]. simpl.
  unfold Ascii.compare. by rewrite N.compare_refl.
Qed.

Lemma find_assign {V} (k k' : string) (v' : V) (m : StdMap.t V) :
  StdMap.find k (StdMap.assign k' v' m)
  = if String.eqb k k' then Some v' else StdMap.find k m.
Proof.
  induction m as [|[k0 v0] rest IH]; [done|].
  cbn [StdMap.assign].
  destruct (String.compare k' k0) eqn:Hcmp; cbn [StdMap.find].
  - apply String.compare_eq_iff in Hcmp as ->. by destruct (String.eqb k k0).
  - done.
  - rewrite IH.
    destruct (String.eqb_spec k k0) as [->|]; [|done].
    destruct (String.eqb_spec k0 k') as [->|]; [|done].
    by rewrite string_compare_refl in Hcmp.
Qed.

Section TablesFacts.
Variable split : string → ascii → list string.

Lemma abbreviation_lines_filter lines : ∀ t,
  abbreviation_lines split lines t
  = abbreviation_lines split (filter (λ line, fields split line = 2%nat) lines) t.
Proof.
  induction lines as [|line rest IH]; intros t; [done|].
  rewrite filter_cons. unfold fields. cbn [abbreviation_lines].
  destruct (split line ";"%char) as [|a [|b [|c parts]]] eqn:Hparts;
    [rewrite decide_False by done
    |rewrite decide_False by done
    |rewrite decide_True by done
    |rewrite decide_False by done];
    cbn [abbreviation_lines]; rewrite ?Hparts; apply IH.
Qed.

Lemma abbreviation_lines_origin lines : ∀ t k v,
  StdMap.find k (abbreviations_ (abbreviation_lines split lines t)) = Some v →
  StdMap.find k (abbreviations_ t) = Some v ∨
  ∃ line, line ∈ lines ∧ split line ";"%char = [k; v].
Proof.
  induction lines as [|line rest IH]; intros t k v; [by left|].
  cbn [abbreviation_lines].
  assert (Hskip :
    StdMap.find k (abbreviations_ (abbreviation_lines split rest t)) = Some v →
    StdMap.find k (abbreviations_ t) = Some v ∨
    ∃ line', line' ∈ line :: rest ∧ split line' ";"%char = [k; v]).
  { intros [Hold|(line' & Hin & Hsplit)]%IH; [by left|right].
    exists line'. split; [by right|done]. }
  destruct (split line ";"%char) as [|a [|b [|c parts]]] eqn:Hparts; try done.
  intros [Hnew|(line' & Hin & Hsplit)]%IH.
  - unfold add_abbreviation in Hnew. simpl in Hnew.
    rewrite find_assign in Hnew.
    destruct (String.eqb_spec k a) as [->|]; [|by left].
    injection Hnew as <-. right. exists line. split; [left|done].
  - right. exists line'. split; [by right|done].
Qed.

Lemma abbreviation_lines_keeps lines : ∀ t k,
  is_Some (StdMap.find k (abbreviations_ t)) →
  is_Some (StdMap.find k (abbreviations_ (abbreviation_lines split lines t))).
Proof.
  induction lines as [|line rest IH]; intros t k Hk; [done|].
  cbn [abbreviation_lines].
  destruct (split line ";"%char) as [|a [|b [|c parts]]]; try by apply IH.
  apply IH. unfold add_abbreviation. simpl. rewrite find_assign.
  by destruct (String.eqb k a).
Qed.

Lemma abbreviation_lines_loaded lines : ∀ t line k v,
  line ∈ lines → split line ";"%char = [k; v] →
  is_Some (StdMap.find k (abbreviations_ (abbreviation_lines split lines t))).
Proof.
  induction lines as [|line0 rest IH]; intros t line k v Hin Hsplit.
  { by apply elem_of_nil in Hin. }
  cbn [abbreviation_lines].
  apply elem_of_cons in Hin as [<-|Hin].
  - rewrite Hsplit. apply abbreviation_lines_keeps.
    unfold add_abbreviation. simpl. rewrite find_assign.
    by rewrite String.eqb_refl.
  - destruct (split line0 ";"%char) as [|a [|b [|c parts]]];
      by apply (IH _ line k v).
Qed.

Lemma route_style_lines_filter lines : ∀ t,
  route_style_lines split lines t
  = route_style_lines split (filter (λ line, fields split line = 3%nat) lines) t.
Proof.
  induction lines as [|line rest IH]; intros t; [done|].
  rewrite filter_cons. unfold fields. cbn [route_style_lines].
  destruct (split line ";"%char) as [|a [|b [|c [|e parts]]]] eqn:Hparts;
    [rewrite decide_False by done
    |rewrite decide_False by done
    |rewrite decide_False by done
    |rewrite decide_True by done
    |rewrite decide_False by done];
    cbn [route_style_lines]; rewrite ?Hparts; try apply IH.
  destruct (StdString.stoul16 c); [apply IH|done..].
Qed.

Lemma route_style_lines_origin lines : ∀ t t' k style,
  route_style_lines split lines t = Some t' →
  route_styles_ t' !! k = Some style →
  route_styles_ t !! k = Some style ∨
  ∃ line hex code,
    line ∈ lines ∧ split line ";"%char = [k; RouteStyle.name style; hex] ∧
    StdString.stoul16 hex = StdString.StoulValue code ∧
    RouteStyle.color style = Color_of_code code.
Proof.
  induction lines as [|line rest IH]; intros t t' k style.
  { intros [= <-]. by left. }
  cbn [route_style_lines].
  assert (Hskip :
    route_style_lines split rest t = Some t' →
    route_styles_ t' !! k = Some style →
    route_styles_ t !! k = Some style ∨
    ∃ line' hex code,
      line' ∈ line :: rest ∧
      split line' ";"%char = [k; RouteStyle.name style; hex] ∧
      StdString.stoul16 hex = StdString.StoulValue code ∧
      RouteStyle.color style = Color_of_code code).
  { intros Hrun Hk.
    destruct (IH _ _ _ _ Hrun Hk) as [?|(line' & hex & code & Hin & ?)];
      [by left|right].
    exists line', hex, code. split; [by right|done]. }
  destruct (split line ";"%char) as [|a [|b [|c [|e parts]]]] eqn:Hparts;
    try done.
  destruct (StdString.stoul16 c) as [code| |] eqn:Hcode; try done.
  intros Hrun Hk.
  destruct (IH _ _ _ _ Hrun Hk) as [Hnew|(line' & hex & code' & Hin & ?)].
  - unfold add_route_style in Hnew. simpl in Hnew.
    destruct (decide (a = k)) as [->|Hne].
    + rewrite lookup_insert_eq in Hnew. injection Hnew as <-.
      right. exists line, c, code. split; [left|done].
    + rewrite lookup_insert_ne in Hnew by done. by left.
  - right. exists line', hex, code'. split; [by right|done].
Qed.

Lemma route_style_lines_keeps lines : ∀ t t' k,
  route_style_lines split lines t = Some t' →
  is_Some (route_styles_ t !! k) → is_Some (route_styles_ t' !! k).
Proof.
  induction lines as [|line rest IH]; intros t t' k.
  { by intros [= <-]. }
  cbn [route_style_lines].
  destruct (split line ";"%char) as [|a [|b [|c [|e parts]]]];
    try by apply IH.
  destruct (StdString.stoul16 c) as [code| |]; try done.
  intros Hrun Hk. apply (IH _ _ _ Hrun).
  unfold add_route_style. simpl.
  destruct (decide (a = k)) as [->|Hne].
  - by rewrite lookup_insert_eq.
  - by rewrite lookup_insert_ne.
Qed.

Lemma route_style_lines_loaded lines : ∀ t t' line k name hex,
  route_style_lines split lines t = Some t' →
  line ∈ lines → split line ";"%char = [k; name; hex] →
  is_Some (route_styles_ t' !! k).
Proof.
  induction lines as [|line0 rest IH]; intros t t' line k name hex Hrun Hin Hsplit.
  { by apply elem_of_nil in Hin. }
  cbn [route_style_lines] in Hrun.
  apply elem_of_cons in Hin as [<-|Hin].
  - rewrite Hsplit in Hrun.
    destruct (StdString.stoul16 hex) as [code| |]; try done.
    apply (route_style_lines_keeps _ _ _ _ Hrun).
    unfold add_route_style. simpl. by rewrite lookup_insert_eq.
  - destruct (split line0 ";"%char) as [|a [|b [|c [|e parts]]]];
      try by apply (IH _ _ line k name hex Hrun).
    destruct (StdString.stoul16 c) as [code| |]; try done.
    by apply (IH _ _ line k name hex Hrun).
Qed.

Lemma route_style_lines_none lines : ∀ t,
  route_style_lines split lines t = None ↔
  ∃ line route_id name hex,
    line ∈ lines ∧ split line ";"%char = [route_id; name; hex] ∧
    ∀ code, StdString.stoul16 hex ≠ StdString.StoulValue code.
Proof.
  induction lines as [|line rest IH]; intros t.
  { split; [done|]. intros (? & ? & ? & ? & Hin & _).
    by apply elem_of_nil in Hin. }
  assert (Hskip : ∀ t',
            (∀ route_id name hex,
               split line ";"%char = [route_id; name; hex] →
               ∃ code, StdString.stoul16 hex = StdString.StoulValue code) →
            route_style_lines split rest t' = None ↔
            ∃ line' route_id name hex,
              line' ∈ line :: rest ∧
              split line' ";"%char = [route_id; name; hex] ∧
              ∀ code, StdString.stoul16 hex ≠ StdString.StoulValue code).
  { intros t' Hfine. rewrite IH. split.
    - intros (line' & route_id & name & hex & Hin & Hsplit & Hbad).
      exists line', route_id, name, hex. split; [by right|done].
    - intros (line' & route_id & name & hex & Hin & Hsplit & Hbad).
      apply elem_of_cons in Hin as [->|Hin].
      + exfalso. destruct (Hfine route_id name hex Hsplit) as [code Hcode].
        by apply (Hbad code).
      + by exists line', route_id, name, hex. }
  cbn [route_style_lines].
  destruct (split line ";"%char) as [|a [|b [|c [|d parts]]]] eqn:Hparts;
    try (apply Hskip; intros; discriminate).
  destruct (StdString.stoul16 c) as [code| |] eqn:Hhex.
  - apply Hskip. intros route_id name hex [= _ _ <-]. by exists code.
  - split; [|done]. intros _. exists line, a, b, c.
    split; [left|]. split; [done|]. intros code. by rewrite Hhex.
  - split; [|done]. intros _. exists line, a, b, c.
    split; [left|]. split; [done|]. intros code. by rewrite Hhex.
Qed.

(** C10.  Loading the abbreviations from a text equals loading, into an
    empty table, only those of its lines that split into exactly two fields:
    the table held before plays no part and the other lines are passed
    over.  Every entry of the loaded table comes from a line of two fields
    and every such line has its key in the table.  The same holds for the
    route styles with three fields, where the third is read by [std::stoul]
    in base 16: the load returns a table exactly when the third field of
    every line of three fields is read, whatever the other lines are, and
    then every entry of the table comes from a line of three fields and
    every such line has its key in the table. *)
Theorem tables_from_text (text : string) (t : TransitTracker) :
  let lines := split text newline in
  (set_abbreviations_from_text split text t
   = abbreviation_lines split (filter (λ line, fields split line = 2%nat) lines)
       (set_abbreviations_ StdMap.empty t) ∧
   (∀ k v,
      StdMap.find k (abbreviations_ (set_abbreviations_from_text split text t))
        = Some v →
      ∃ line, line ∈ lines ∧ split line ";"%char = [k; v]) ∧
   (∀ line k v, line ∈ lines → split line ";"%char = [k; v] →
      is_Some (StdMap.find k
                 (abbreviations_ (set_abbreviations_from_text split text t)))))
  ∧
  (set_route_styles_from_text split text t
   = route_style_lines split (filter (λ line, fields split line = 3%nat) lines)
       (set_route_styles_ ∅ t) ∧
   (is_Some (set_route_styles_from_text split text t) ↔
    ∀ line route_id name hex, line ∈ lines →
      split line ";"%char = [route_id; name; hex] →
      ∃ code, StdString.stoul16 hex = StdString.StoulValue code) ∧
   ∀ t', set_route_styles_from_text split text t = Some t' →
     (∀ k style, route_styles_ t' !! k = Some style →
        ∃ line hex code,
          line ∈ lines ∧
          split line ";"%char = [k; RouteStyle.name style; hex] ∧
          StdString.stoul16 hex = StdString.StoulValue code ∧
          RouteStyle.color style = Color_of_code code) ∧
     (∀ line k name hex, line ∈ lines →
        split line ";"%char = [k; name; hex] →
        is_Some (route_styles_ t' !! k))).
Proof.
  intros lines. split; [split; [|split]|split; [|split]].
  - apply abbreviation_lines_filter.
  - intros k v Hfind.
    by destruct (abbreviation_lines_origin _ _ _ _ Hfind) as [?|?].
  - intros line k v Hin Hsplit.
    by apply (abbreviation_lines_loaded _ _ line k v).
  - apply route_style_lines_filter.
  - unfold set_route_styles_from_text. fold lines.
    pose proof (route_style_lines_none lines (set_route_styles_ ∅ t))
      as Hnone.
    destruct (route_style_lines split lines (set_route_styles_ ∅ t))
      as [t'|] eqn:Hrun.
    + split; [|by eexists]. intros _ line route_id name hex Hin Hsplit.
      destruct (StdString.stoul16 hex) as [code| |] eqn:Hhex;
        [by exists code| |];
        exfalso; assert (Some t' = None) as Hno; try done;
        apply Hnone; exists line, route_id, name, hex;
        (split; [done|]); (split; [done|]); intros code; by rewrite Hhex.
    + split; [by intros [? ?]|]. intros Hall. exfalso.
      destruct (proj1 Hnone eq_refl)
        as (line & route_id & name & hex & Hin & Hsplit & Hbad).
      destruct (Hall line route_id name hex Hin Hsplit) as [code Hcode].
      by apply (Hbad code).
  - intros t' Hrun. split.
    + intros k style Hk.
      destruct (route_style_lines_origin _ _ _ _ _ Hrun Hk) as [Hold|?];
        [|done].
      simpl in Hold. by rewrite lookup_empty in Hold.
    + intros line k name hex Hin Hsplit.
      by apply (route_style_lines_loaded _ _ _ line k name hex Hrun).
Qed.

End TablesFacts.

Example abbreviations_text_loaded :
  abbreviations_ (set_abbreviations_from_text split_on abbreviations_text
                    example_tracker)
  = [("Center", "Ctr"); ("Ctr", "C")].
Proof. vm_compute. reflexivity. Qed.

Example route_styles_text_loaded :
  route_styles_ <$> set_route_styles_from_text split_on route_styles_text
                      example_tracker
  = Some (<["40" := RouteStyle.mk "Forty" (Color_of_code 16627482)]>
            {["8" := RouteStyle.mk "Eight" (Color_of_code 255)]}).
Proof. vm_compute. reflexivity. Qed.

Lemma tables_from_text_witness :
  is_Some (StdMap.find "Ctr"
             (abbreviations_
                (set_abbreviations_from_text split_on abbreviations_text
                   example_tracker))) ∧
  ∃ t', set_route_styles_from_text split_on route_styles_text example_tracker
        = Some t' ∧
        is_Some (route_styles_ t' !! "40").
Proof.
  pose proof (tables_from_text split_on abbreviations_text example_tracker)
    as [(_ & _ & Habbr) _].
  pose proof (tables_from_text split_on route_styles_text example_tracker)
    as [_ (_ & Hreturns & Hstyles)].
  split.
  - refine (Habbr "Ctr;C" "Ctr" "C" _ _).
    + vm_compute. right. right. left.
    + reflexivity.
  - destruct (proj2 Hreturns) as [t' Ht'].
    + intros line route_id name hex Hin Hsplit. vm_compute in Hin.
      apply elem_of_cons in Hin as [->|Hin];
        [injection Hsplit as <- <- <-; by eexists|].
      apply elem_of_cons in Hin as [->|Hin]; [discriminate Hsplit|].
      apply list_elem_of_singleton in Hin as ->.
      injection Hsplit as <- <- <-. by eexists.
    + exists t'. split; [done|].
      refine (proj2 (Hstyles t' Ht') "40;Forty;fdb71a" "40" "Forty" "fdb71a"
                _ _).
      * vm_compute. right. right. left.
      * reflexivity.
Defined.

(** * Pagination engine: facts *)

Lemma tick_idle now t :
  page_elapsed now t = false →
  tick now t = (t, []) ∧ tick_events now t = [].
Proof.
  intros Hno. unfold tick_events, tick. by rewrite Hno.
Qed.

Lemma tick_start now t :
  page_elapsed now t = true → advances t = true →
  (tick_events now t = [VisitStart 2; Shown StopNamePage 5000] ∧
   name_shown (tick now t).1) ∨
  (tick_events now t = [VisitStart 1; Shown SchedulePage 8000] ∧
   advances (tick now t).1 = true).
Proof.
  intros Hel Hadv. unfold tick_events, tick. rewrite Hel, Hadv.
  apply andb_true_iff in Hadv as [Hstops Hlast].
  apply negb_true_iff, bool_decide_eq_false in Hstops.
  cbn [page set_page total_subpages_for_current_stop_ current_subpage_index_].
  rewrite Hlast. unfold next_stop.
  cbn [stop_ids_ set_page]. rewrite bool_decide_eq_false_2 by done.
  cbn [page set_page last_displayed_stop_name_ stop_names_].
  destruct (bool_decide (_ = last_displayed_stop_name_ (page t))).
  - right. simpl. split; [done|].
    unfold advances. simpl. by rewrite bool_decide_eq_false_2.
  - left. simpl. done.
Qed.

Lemma tick_second now t :
  page_elapsed now t = true → name_shown t →
  tick_events now t = [Shown SchedulePage 8000] ∧
  advances (tick now t).1 = true.
Proof.
  intros Hel (Hstops & Htotal & Hsub). unfold tick_events, tick, advances.
  rewrite Hel, Htotal, Hsub.
  rewrite bool_decide_eq_false_2 by done. simpl.
  by rewrite bool_decide_eq_false_2.
Qed.

Lemma tick_other now t :
  page_elapsed now t = true → advances t = false →
  ∃ p d, tick_events now t = [Shown p d].
Proof.
  intros Hel Hadv. unfold tick_events, tick. rewrite Hel, Hadv.
  simpl. eexists _, _. reflexivity.
Qed.

Lemma page_log_visits nows : ∀ t,
  (name_shown t → visit_log [(SchedulePage, 8000%Z)] (page_log nows t)) ∧
  (advances t = true → visit_log [] (page_log nows t)).
Proof.
  induction nows as [|now rest IH]; intros t.
  { split; intros _; constructor. }
  cbn [page_log].
  destruct (page_elapsed now t) eqn:Hel.
  - split.
    + intros Hname.
      destruct (tick_second now t Hel Hname) as [-> Hdone].
      apply visit_log_shown. by apply IH.
    + intros Hadv.
      destruct (tick_start now t Hel Hadv) as [[-> Hname]|[-> Hdone]].
      * apply (visit_log_start 2 _ _ [(SchedulePage, 8000%Z)]);
          [by right|done|by apply IH].
      * apply (visit_log_start 1 _ _ []); [by left|done|by apply IH].
  - destruct (tick_idle now t Hel) as [-> ->]. apply IH.
Qed.

Lemma visit_log_visits rem log :
  visit_log rem log →
  visits_ok (visits log) ∧
  shown_run log `prefix_of` rem ∧
  (visits log ≠ [] → shown_run log = rem).
Proof.
  induction 1 as [rem|p d rem log Hlog (IHok & IHpre & IHfull)
                 |n p d rem log Hn Hexp Hlog (IHok & IHpre & IHfull)].
  - split; [by intros i n pages Hi|]. split; [apply prefix_nil|done].
  - split; [done|]. split; [by apply prefix_cons|].
    simpl. intros Hne. by rewrite IHfull.
  - split; [|split; [apply prefix_nil|done]].
    intros [|i] n' pages Hi; simpl in Hi.
    + injection Hi as <- <-. rewrite Hexp.
      split; [done|]. split; [done|]. split; [by apply prefix_cons|].
      simpl. intros Hlen. rewrite IHfull; [done|].
      destruct (visits log); [simpl in Hlen; lia|done].
    + destruct (IHok i n' pages Hi) as (? & ? & ? & Hcomplete).
      split; [done|]. split; [done|]. split; [done|].
      simpl. intros Hlen. apply Hcomplete. lia.
Qed.

Lemma page_log_visits_ok nows : ∀ t, visits_ok (visits (page_log nows t)).
Proof.
  induction nows as [|now rest IH]; intros t.
  { by intros i n pages Hi. }
  destruct (page_elapsed now t) eqn:Hel.
  - destruct (advances t) eqn:Hadv.
    + by apply (visit_log_visits []), page_log_visits.
    + cbn [page_log].
      destruct (tick_other now t Hel Hadv) as (p & d & ->). apply IH.
  - cbn [page_log]. destruct (tick_idle now t Hel) as [-> ->]. apply IH.
Qed.

Lemma tick_total now t :
  (total_subpages_for_current_stop_ (page t) = 1 ∨
   total_subpages_for_current_stop_ (page t) = 2)%Z →
  (total_subpages_for_current_stop_ (page (tick now t).1) = 1 ∨
   total_subpages_for_current_stop_ (page (tick now t).1) = 2)%Z.
Proof.
  intros Htotal. unfold tick.
  destruct (page_elapsed now t); [|done].
  cbn [fst page set_page total_subpages_for_current_stop_
       current_subpage_index_].
  destruct (_ <=? _)%Z; [|done].
  unfold next_stop. cbn [stop_ids_ set_page].
  destruct (bool_decide (stop_ids_ t = [])); [done|].
  cbn [page set_page set_stop_names_ total_subpages_for_current_stop_].
  destruct (bool_decide (_ = _)); auto.
Qed.

Lemma run_ticks_total nows : ∀ t,
  (total_subpages_for_current_stop_ (page t) = 1 ∨
   total_subpages_for_current_stop_ (page t) = 2)%Z →
  (total_subpages_for_current_stop_ (page (run_ticks nows t)) = 1 ∨
   total_subpages_for_current_stop_ (page (run_ticks nows t)) = 2)%Z.
Proof.
  induction nows as [|now rest IH]; intros t Htotal; [done|].
  apply IH. by apply tick_total.
Qed.

(** C9.  In the log of any run of ticks, every visit to a stop has one or
    two sub-pages; a visit with two shows the name page for 5000 ms and then
    the schedule page for 8000 ms, a visit with one shows the schedule page
    for 8000 ms, and nothing else is shown during the visit (the last visit
    of the log may still be under way).  In every state that ticks reach
    from the initial pagination state, the page drawn is the name page only
    if the stop has two sub-pages and the sub-page index is 0. *)
Theorem pagination_visits (nows : list Z) (t : TransitTracker) :
  visits_ok (visits (page_log nows t)) ∧
  (page t = initial_pagination →
   draw_current_page (run_ticks nows t) = StopNamePage →
   total_subpages_for_current_stop_ (page (run_ticks nows t)) = 2%Z ∧
   current_subpage_index_ (page (run_ticks nows t)) = 0%Z).
Proof.
  split; [apply page_log_visits_ok|].
  intros Hinit Hname.
  pose proof (run_ticks_total nows t) as Htotal.
  rewrite Hinit in Htotal. specialize (Htotal (or_introl eq_refl)).
  unfold draw_current_page in Hname.
  destruct Htotal as [Hone|Htwo].
  - by rewrite Hone in Hname.
  - rewrite Htwo in Hname. simpl in Hname. split; [done|].
    destruct (_ =? 0)%Z eqn:Hzero; [by apply Z.eqb_eq|done].
Qed.

Example page_log_two_stops :
  page_log [0; 1000; 5000; 13000; 21000; 29000; 34000; 42000; 43000]%Z
    two_stops
  = [VisitStart 2; Shown StopNamePage 5000; Shown SchedulePage 8000;
     VisitStart 1; Shown SchedulePage 8000;
     VisitStart 2; Shown StopNamePage 5000; Shown SchedulePage 8000;
     VisitStart 2; Shown StopNamePage 5000].
Proof. vm_compute. reflexivity. Qed.

Lemma pagination_visits_witness :
  total_subpages_for_current_stop_
    (page (run_ticks [0; 1000; 5000; 13000; 21000]%Z two_stops)) = 2%Z ∧
  current_subpage_index_
    (page (run_ticks [0; 1000; 5000; 13000; 21000]%Z two_stops)) = 0%Z.
Proof.
  apply (pagination_visits [0; 1000; 5000; 13000; 21000]%Z two_stops).
  - reflexivity.
  - vm_compute. reflexivity.
Defined.

(** * The two contexts: facts *)

Lemma latest_snoc (current : list Trip.t) (log : list Observation)
    (o : Observation) :
  latest current (log ++ [o]) = after (latest current log) o.
Proof. unfold latest. by rewrite foldl_app. Qed.

Lemma log_ok_snoc (P : list Trip.t → Observation → Prop)
    (log : list Observation) (o : Observation) : ∀ current,
  log_ok P current (log ++ [o])
  ↔ log_ok P current log ∧ P (latest current log) o.
Proof.
  induction log as [|o' log IH]; intros current; simpl.
  - tauto.
  - rewrite IH. unfold latest. simpl. tauto.
Qed.

Section InterleavingFacts.
Context {V : Type} `{JsonApi V}.

(** While the handler does not hold the mutex, the vector is the last
    complete snapshot of the log. *)
Lemma consistent_holder D t (s : System (V:=V)) :
  transport_ok D t s → mutex s ≠ Some Transport →
  cache s = latest (trips t) (observed s).
Proof.
  unfold transport_ok.
  destruct (transport s); intros Hok Hm; try tauto.
  all: by destruct Hok as [Hheld _].
Qed.

(** A state whose mutex the transport holds or nobody holds keeps the
    foreground's part of the invariant whatever the cache becomes. *)
Lemma foreground_ok_unheld t (s s' : System (V:=V)) :
  foreground s' = foreground s →
  mutex s ≠ Some Foreground → mutex s' ≠ Some Foreground →
  foreground_ok t s → foreground_ok t s'.
Proof.
  unfold foreground_ok. intros -> Hm Hm'.
  destruct (foreground s); try done; by intros [? _].
Qed.

Ltac project_system :=
  cbn [cache mutex transport foreground observed halted] in *.

Lemma transport_step_consistent D t (s s' : System (V:=V)) :
  consistent D t s → halted s = false →
  transport_step t s = Some s' → consistent D t s'.
Proof.
  intros (Htr & Hfg & Hlog & Hrep) Hrun Hstep.
  unfold transport_step in Hstep. unfold consistent.
  unfold transport_ok in Htr.
  destruct (transport s) as [|entries|entries|[|trip rest]] eqn:Hpc.
  - done.
  - destruct (mutex s) as [owner|] eqn:Hm; [done|]. injection Hstep as <-.
    split; [|split; [|done]].
    + unfold transport_ok. project_system. by destruct Htr as (_ & _ & ?).
    + apply (foreground_ok_unheld t s); project_system;
        [done|by rewrite Hm|done|done].
  - injection Hstep as <-. destruct Htr as [Hm Hd].
    split; [|split; [|done]].
    + unfold transport_ok. project_system. split; [done|]. by exists entries.
    + apply (foreground_ok_unheld t s); project_system;
        [done|by rewrite Hm|by rewrite Hm|done].
  - injection Hstep as <-. destruct Htr as (Hm & entries & Hd & Hpush).
    simpl in Hpush.
    split; [|split; [|split]].
    + unfold transport_ok. project_system. split; [done|].
      by rewrite latest_snoc.
    + apply (foreground_ok_unheld t s); project_system;
        [done|by rewrite Hm|done|done].
    + project_system. apply log_ok_snoc. done.
    + project_system. intros snapshot [Hin|Hin]%elem_of_app; [by apply Hrep|].
      apply list_elem_of_singleton in Hin. injection Hin as ->.
      by exists entries.
  - destruct Htr as (Hm & entries & Hd & Hpush).
    destruct (decode_trip t trip) as [decoded|] eqn:Hdec;
      injection Hstep as <-.
    + split; [|split; [|done]].
      * unfold transport_ok. project_system. split; [done|].
        exists entries. split; [done|]. rewrite Hpush.
        cbn [push_trips]. by rewrite Hdec.
      * apply (foreground_ok_unheld t s); project_system;
          [done|by rewrite Hm|by rewrite Hm|done].
    + split; [|split; [|done]].
      * unfold transport_ok. project_system. split; [done|].
        by exists entries.
      * apply (foreground_ok_unheld t s); project_system;
          [done|by rewrite Hm|by rewrite Hm|done].
Qed.

Lemma drop_lookup_cons {A} (l : list A) (i : nat) (x : A) :
  l !! i = Some x → drop i l = x :: drop (S i) l.
Proof.
  revert i. induction l as [|y l IH]; intros [|i] Hi; simplify_eq/=; auto.
Qed.

Lemma drop_lookup_nil {A} (l : list A) (i : nat) :
  l !! i = None → drop i l = [].
Proof.
  revert i. induction l as [|y l IH]; intros [|i] Hi; simplify_eq/=; auto.
Qed.

(** A step of the foreground context leaves the transport's part of the
    invariant alone: it does not touch the vector, it completes no replace,
    and it neither takes the mutex from the handler nor gives it to it. *)
Lemma transport_ok_foreground D t (s s' : System (V:=V)) :
  transport s' = transport s → cache s' = cache s →
  latest (trips t) (observed s') = latest (trips t) (observed s) →
  (mutex s' = Some Transport ↔ mutex s = Some Transport) →
  transport_ok D t s → transport_ok D t s'.
Proof.
  unfold transport_ok. intros -> -> -> Hm.
  destruct (transport s); rewrite Hm; done.
Qed.

Lemma acquire_consistent D t (s s' : System (V:=V)) (pc : ForegroundPc) :
  consistent D t s →
  (mutex s = None →
   foreground_ok t
     {| cache := cache s; mutex := Some Foreground;
        transport := transport s; foreground := pc;
        observed := observed s; halted := false |}) →
  acquire pc s = Some s' → consistent D t s'.
Proof.
  intros (Htr & Hfg & Hlog & Hrep) Hpc. unfold acquire.
  destruct (mutex s) as [owner|] eqn:Hm; [done|]. intros [= <-].
  split; [|split; [by apply Hpc|done]].
  apply (transport_ok_foreground D t s); project_system; try done.
  rewrite Hm. split; done.
Qed.

Lemma leave_consistent D t (s : System (V:=V)) (o0 : Observation) :
  consistent D t s → mutex s = Some Foreground →
  (∀ snapshot, o0 ≠ Replaced snapshot) →
  reads_snapshot t (cache s) o0 →
  consistent D t (leave o0 s).
Proof.
  intros (Htr & Hfg & Hlog & Hrep) Hm Hread Ho0.
  assert (Hc : cache s = latest (trips t) (observed s)).
  { apply (consistent_holder D t s Htr). by rewrite Hm. }
  assert (Hafter : ∀ current, after current o0 = current).
  { intros current. destruct o0; try done. by destruct (Hread snapshot). }
  split; [|split; [|split]].
  - apply (transport_ok_foreground D t s); unfold leave; project_system;
      try done.
    + by rewrite latest_snoc, Hafter.
    + rewrite Hm. split; done.
  - unfold foreground_ok, leave. project_system. done.
  - unfold leave. project_system. apply log_ok_snoc. by rewrite <- Hc.
  - unfold leave. project_system.
    intros snapshot [Hin|Hin]%elem_of_app; [by apply Hrep|].
    apply list_elem_of_singleton in Hin. by destruct (Hread snapshot).
Qed.

Lemma goto_consistent D t (s : System (V:=V)) (pc : ForegroundPc) :
  consistent D t s →
  foreground_ok t (goto pc s) →
  consistent D t (goto pc s).
Proof.
  intros (Htr & Hfg & Hlog & Hrep) Hpc.
  split; [|split; [done|done]].
  by apply (transport_ok_foreground D t s).
Qed.

Lemma guard_consistent D t (s : System (V:=V)) (now : ESPTime)
    (passed : bool) :
  consistent D t s → mutex s ≠ Some Foreground →
  consistent D t (guard now passed s).
Proof.
  intros (Htr & Hfg & Hlog & Hrep) Hm.
  split; [|split; [|split]].
  - apply (transport_ok_foreground D t s); unfold guard; project_system;
      try done.
    by rewrite latest_snoc.
  - unfold foreground_ok, guard. project_system. by destruct passed.
  - unfold guard. project_system. apply log_ok_snoc. done.
  - unfold guard. project_system.
    intros snapshot [Hin|Hin]%elem_of_app; [by apply Hrep|].
    by apply list_elem_of_singleton in Hin.
Qed.

Lemma foreground_step_consistent D t (s s' : System (V:=V)) :
  consistent D t s → halted s = false →
  foreground_step t s = Some s' → consistent D t s'.
Proof.
  intros Hs Hrun Hstep. pose proof Hs as (Htr & Hfg & Hlog & Hrep).
  unfold foreground_step in Hstep. unfold foreground_ok in Hfg.
  destruct (foreground s) as [|stop_id|stop_id i matching|now|now|now i]
    eqn:Hpc.
  - done.
  - apply (acquire_consistent D t s s' (FDrawLoop stop_id 0 []) Hs); [|done].
    intros _. unfold foreground_ok. project_system. by rewrite drop_0.
  - destruct Hfg as [Hm Hloop].
    destruct (cache s !! i) as [trip|] eqn:Hi.
    + rewrite (drop_lookup_cons _ _ _ Hi) in Hloop.
      cbn [matching_loop] in Hloop.
      destruct (limit_reached t (collect stop_id trip matching)) eqn:Hlim;
        injection Hstep as <-.
      * by apply leave_consistent.
      * apply goto_consistent; [done|].
        unfold foreground_ok, goto. project_system. done.
    + rewrite (drop_lookup_nil _ _ Hi) in Hloop. cbn [matching_loop] in Hloop.
      injection Hstep as <-. by apply leave_consistent.
  - injection Hstep as <-. by apply guard_consistent.
  - apply (acquire_consistent D t s s' (FWatchScan now 0) Hs); [|done].
    intros _. unfold foreground_ok. project_system. by rewrite drop_0.
  - destruct Hfg as [Hm Hloop].
    destruct (is_valid now) eqn:Hvalid.
    + destruct (cache s !! i) as [trip|] eqn:Hi.
      * rewrite (drop_lookup_cons _ _ _ Hi) in Hloop.
        cbn [scan_stale] in Hloop.
        destruct (60 <? timestamp now - Trip.departure_time trip)%Z;
          injection Hstep as <-.
        -- apply leave_consistent; [done|done|done|].
           unfold reads_snapshot, has_stale_trips. by rewrite Hvalid.
        -- apply goto_consistent; [done|].
           unfold foreground_ok, goto. project_system. done.
      * rewrite (drop_lookup_nil _ _ Hi) in Hloop. cbn [scan_stale] in Hloop.
        injection Hstep as <-.
        apply leave_consistent; [done|done|done|].
        unfold reads_snapshot, has_stale_trips. by rewrite Hvalid.
    + injection Hstep as <-.
      apply leave_consistent; [done|done|done|].
      unfold reads_snapshot, has_stale_trips. by rewrite Hvalid.
Qed.

Lemma step_consistent D t (m : Move) (s s' : System (V:=V)) :
  consistent D t s →
  (∀ entries, m = Deliver entries → D entries) →
  step t m s = Some s' → consistent D t s'.
Proof.
  intros Hs Hdeliver. unfold step.
  destruct (halted s) eqn:Hhalt; [done|].
  destruct m as [entries| |stop_id|now|].
  - destruct Hs as (Htr & Hfg & Hlog & Hrep). unfold transport_ok in Htr.
    destruct (transport s) eqn:Hpc; try done. intros [= <-].
    destruct Htr as [Hm Hc].
    split; [|split; [|done]].
    + unfold transport_ok. project_system.
      split; [done|]. split; [done|]. by apply Hdeliver.
    + unfold foreground_ok in *. project_system. done.
  - by apply transport_step_consistent.
  - destruct (foreground s) eqn:Hpc; try done. intros [= <-].
    apply goto_consistent; [done|].
    destruct Hs as (_ & Hfg & _). unfold foreground_ok in *.
    unfold goto. project_system. by rewrite Hpc in Hfg.
  - destruct (foreground s) eqn:Hpc; try done. intros [= <-].
    apply goto_consistent; [done|].
    destruct Hs as (_ & Hfg & _). unfold foreground_ok in *.
    unfold goto. project_system. by rewrite Hpc in Hfg.
  - by apply foreground_step_consistent.
Qed.

Lemma run_consistent D t (moves : list Move) : ∀ (s s' : System (V:=V)),
  consistent D t s →
  (∀ entries, Deliver entries ∈ moves → D entries) →
  run t moves s = Some s' → consistent D t s'.
Proof.
  induction moves as [|m rest IH]; intros s s' Hs Hdeliver; simpl.
  - by intros [= <-].
  - destruct (step t m s) as [s1|] eqn:Hstep; [|done].
    apply IH.
    + apply (step_consistent D t m s s1 Hs); [|done].
      intros entries ->. apply Hdeliver. left.
    + intros entries Hin. apply Hdeliver. by right.
Qed.

(** The reads under the mutex.  In every interleaving of the message handler
    with the foreground context that the mutex allows, what a filtered read
    of [draw_schedule] or a staleness scan of the watchdog has read is what
    it computes on the last complete snapshot before it: the trips held at
    the start, or the vector left by the last replace that was completed
    before the read gave the mutex back; and the vector left by a completed
    replace is the whole decoded list of a "schedule" message delivered in
    the run.  So a read that overlaps an update sees the trips of before the
    update or those of after it, and never the vector between the [clear()]
    and the last [push_back]. *)
Theorem locked_reads_atomic (t : TransitTracker) (moves : list Move)
    (s : System (V:=V)) :
  run t moves (start t) = Some s →
  log_ok (reads_snapshot t) (trips t) (observed s) ∧
  ∀ snapshot, Replaced snapshot ∈ observed s →
    delivered_snapshot t (λ entries, Deliver entries ∈ moves) snapshot.
Proof.
  intros Hrun.
  destruct (run_consistent (λ entries, Deliver entries ∈ moves) t moves
              (start t) s) as (_ & _ & Hlog & Hrep); [|done|done|done].
  split; [split; done|]. split; [done|]. split; [done|].
  intros snapshot Hin. by apply elem_of_nil in Hin.
Qed.

End InterleavingFacts.

(** ** The handler alone, and concrete interleavings *)

Section TransportAlone.
Context {V : Type} `{JsonApi V}.

Lemma transport_loop_alone t (rest : list V) : ∀ vec final fg obs,
  push_trips t rest vec = Some final →
  run t (replicate (S (length rest)) TransportStep)
    {| cache := vec; mutex := Some Transport; transport := TLoop rest;
       foreground := fg; observed := obs; halted := false |}
  = Some {| cache := final; mutex := None; transport := TIdle;
            foreground := fg; observed := obs ++ [Replaced final];
            halted := false |}.
Proof.
  induction rest as [|trip rest IH]; intros vec final fg obs Hpush.
  - injection Hpush as <-. reflexivity.
  - cbn [push_trips] in Hpush.
    destruct (decode_trip t trip) as [decoded|] eqn:Hdec; [|done].
    simpl in Hpush.
    cbn [length replicate run]. unfold step at 1. cbn [halted].
    unfold transport_step. cbn [transport cache mutex foreground observed].
    rewrite Hdec. by apply IH.
Qed.

(** With no foreground move in between, the steps of the transport context
    on a "schedule" message leave in the cache what [on_ws_message_]
    computes. *)
Lemma transport_alone (millis : Z) (root : V) (t : TransitTracker) final :
  event_of root = "schedule" →
  on_ws_message_ true millis (Document root) t
    = Continue (set_trips final t) [] →
  cache <$> run t (Deliver (schedule_entries root)
                     :: replicate (3 + length (schedule_entries root))
                          TransportStep) (start t)
  = Some (trips (set_trips final t)).
Proof.
  intros Hevent. unfold on_ws_message_. rewrite Hevent. simpl negb.
  cbn match.
  destruct (push_trips t (schedule_entries root) []) as [vec|] eqn:Hpush;
    [|done].
  intros [= ->].
  set (entries := schedule_entries root) in *.
  set (s1 := {| cache := trips t; mutex := None; transport := TLock entries;
                foreground := FIdle; observed := []; halted := false |}).
  set (s2 := {| cache := trips t; mutex := Some Transport;
                transport := TClear entries;
                foreground := FIdle; observed := []; halted := false |}).
  set (s3 := {| cache := []; mutex := Some Transport;
                transport := TLoop entries;
                foreground := FIdle; observed := []; halted := false |}).
  change (3 + length entries)%nat with (S (S (S (length entries)))).
  change (replicate (S (S (S (length entries)))) TransportStep)
    with (TransportStep
            :: TransportStep
            :: replicate (S (length entries)) (TransportStep (V:=V))).
  change (run t (Deliver entries :: ?l) (start t))
    with (run t l s1).
  change (run t (TransportStep :: TransportStep :: ?l) s1)
    with (run t l s3).
  unfold s3. by rewrite (transport_loop_alone t entries [] final).
Qed.

End TransportAlone.

Example example_moves_observed :
  observed <$> run styled_tracker example_moves (start styled_tracker)
  = Some [Drawn "1_100" [example_trip "1_100" 1000];
          Guarded example_now true;
          Replaced decoded_example;
          Scanned example_now true;
          Drawn "1_100" decoded_example].
Proof. vm_compute. reflexivity. Qed.

Example locked_reads_atomic_example :
  log_ok (reads_snapshot styled_tracker) (trips styled_tracker)
    [Drawn "1_100" [example_trip "1_100" 1000];
     Guarded example_now true;
     Replaced decoded_example;
     Scanned example_now true;
     Drawn "1_100" decoded_example].
Proof.
  refine (proj1 (locked_reads_atomic styled_tracker example_moves
                   {| cache := decoded_example; mutex := None;
                      transport := TIdle; foreground := FIdle;
                      observed := _; halted := false |} _)).
  vm_compute. reflexivity.
Qed.


(** * [from_now_]: facts *)

Lemma pretty_N_go_no_N x : ∀ s, no_N_head s → no_N_head (pretty_N_go x s).
Proof.
  induction (N.lt_wf_0 x) as [x _ IH]; intros s Hs.
  destruct (decide (x = 0)%N) as [->|Hx]; [by rewrite pretty_N_go_0|].
  rewrite pretty_N_go_step by lia.
  apply IH; [apply N.div_lt; lia|].
  simpl. unfold pretty_N_char. by repeat case_match.
Qed.

Lemma sprintf_d_no_N n : no_N_head (sprintf_d n).
Proof.
  unfold sprintf_d, pretty, pretty_Z.
  destruct n as [|p|p]; [done| |done].
  unfold pretty, pretty_positive, pretty, pretty_N.
  destruct (decide _); [done|]. by apply pretty_N_go_no_N.
Qed.

Lemma no_N_head_app a b : no_N_head a → no_N_head b → no_N_head (a +:+ b).
Proof. by destruct a. Qed.

Lemma no_N_head_not_now s : no_N_head s → s ≠ "Now".
Proof. by intros Hs ->. Qed.

Lemma from_now_diff clock unix_timestamp :
  in_reach clock unix_timestamp →
  MachineInt.to_signed
    (unix_timestamp - MachineInt.to_unsigned (timestamp clock))
  = (unix_timestamp - timestamp clock)%Z.
Proof.
  intros [Hnow Hdiff].
  rewrite to_unsigned_small by done. by apply to_signed_small.
Qed.

(** X1.  With a clock, [from_now_] answers "Now" exactly when fewer than 30
    seconds are left to the time asked about, or that time has passed;
    without a clock it answers the empty text. *)
Theorem from_now_now (clock : ESPTime) (u : UnitDisplay) (unix_timestamp : Z) :
  in_reach clock unix_timestamp →
  (from_now_ (Some clock) u unix_timestamp = "Now"
   ↔ (unix_timestamp - timestamp clock < 30)%Z) ∧
  from_now_ None u unix_timestamp = "".
Proof.
  intros Hreach. split; [|done].
  unfold from_now_. rewrite (from_now_diff _ _ Hreach).
  set (diff := (unix_timestamp - timestamp clock)%Z).
  destruct (diff <? 30)%Z eqn:H30.
  { apply Z.ltb_lt in H30. done. }
  apply Z.ltb_ge in H30. split; [|lia]. intros Hnow. exfalso.
  revert Hnow. apply no_N_head_not_now.
  destruct (diff <? 60)%Z; [by destruct u|].
  destruct (_ <? 60)%Z.
  - destruct u; try apply no_N_head_app; try done; apply sprintf_d_no_N.
  - destruct u; apply no_N_head_app; try done; apply sprintf_d_no_N.
Qed.

Lemma from_now_now_witness :
  (from_now_ (Some (mkESPTime 1000 true)) UNIT_DISPLAY_LONG 1029 = "Now"
   ↔ (1029 - timestamp (mkESPTime 1000 true) < 30)%Z) ∧
  from_now_ None UNIT_DISPLAY_LONG 1029 = "".
Proof.
  apply (from_now_now (mkESPTime 1000 true) UNIT_DISPLAY_LONG 1029).
  unfold in_reach, MachineInt.two32, MachineInt.two31. simpl. lia.
Defined.

Lemma app_empty_r s : s +:+ "" = s.
Proof. induction s as [|c s IH]; [done|]. rewrite app_cons. by f_equal. Qed.

Lemma app_cancel_r a : ∀ b s, a +:+ s = b +:+ s → a = b.
Proof.
  induction a as [|c a IH]; intros [|d b] s Heq.
  - done.
  - apply (f_equal String.length) in Heq.
    rewrite app_empty_l, app_cons in Heq. simpl in Heq.
    rewrite length_app in Heq. lia.
  - apply (f_equal String.length) in Heq.
    rewrite app_empty_l, app_cons in Heq. simpl in Heq.
    rewrite length_app in Heq. lia.
  - rewrite !app_cons in Heq. injection Heq as -> Heq.
    f_equal. by apply (IH b s).
Qed.

Lemma from_now_minutes_text clock u unix_timestamp :
  in_reach clock unix_timestamp →
  (60 ≤ unix_timestamp - timestamp clock < 3600)%Z →
  from_now_ (Some clock) u unix_timestamp
  = sprintf_d ((unix_timestamp - timestamp clock) `div` 60) +:+ unit_suffix u.
Proof.
  intros Hreach Hd. unfold from_now_. rewrite (from_now_diff _ _ Hreach).
  set (diff := (unix_timestamp - timestamp clock)%Z) in *.
  rewrite (proj2 (Z.ltb_ge diff 30)) by lia.
  rewrite (proj2 (Z.ltb_ge diff 60)) by lia.
  rewrite Z.quot_div_nonneg by lia.
  assert (diff `div` 60 < 60)%Z as Hm
    by (apply Z.div_lt_upper_bound; lia).
  rewrite (proj2 (Z.ltb_lt _ 60) Hm).
  destruct u; simpl; by rewrite ?app_empty_r.
Qed.

(** X2.  From one minute up to an hour ahead, [from_now_] writes the whole
    minutes left, in decimal, followed by the unit of the style; two times
    get the same text exactly when the same number of whole minutes is left
    to them. *)
Theorem from_now_minutes (clock : ESPTime) (u : UnitDisplay) (ts1 ts2 : Z) :
  in_reach clock ts1 → in_reach clock ts2 →
  (60 ≤ ts1 - timestamp clock < 3600)%Z →
  (60 ≤ ts2 - timestamp clock < 3600)%Z →
  from_now_ (Some clock) u ts1
    = sprintf_d ((ts1 - timestamp clock) `div` 60) +:+ unit_suffix u ∧
  (from_now_ (Some clock) u ts1 = from_now_ (Some clock) u ts2
   ↔ ((ts1 - timestamp clock) `div` 60 = (ts2 - timestamp clock) `div` 60)%Z).
Proof.
  intros Hr1 Hr2 Hd1 Hd2.
  rewrite (from_now_minutes_text clock u ts1 Hr1 Hd1).
  rewrite (from_now_minutes_text clock u ts2 Hr2 Hd2).
  split; [done|]. split.
  - intros Heq%app_cancel_r. by apply (inj pretty) in Heq.
  - by intros ->.
Qed.

Lemma from_now_minutes_witness :
  from_now_ (Some (mkESPTime 1000 true)) UNIT_DISPLAY_SHORT 1125
    = sprintf_d ((1125 - timestamp (mkESPTime 1000 true)) `div` 60)
      +:+ unit_suffix UNIT_DISPLAY_SHORT ∧
  (from_now_ (Some (mkESPTime 1000 true)) UNIT_DISPLAY_SHORT 1125
   = from_now_ (Some (mkESPTime 1000 true)) UNIT_DISPLAY_SHORT 1179
   ↔ ((1125 - timestamp (mkESPTime 1000 true)) `div` 60
      = (1179 - timestamp (mkESPTime 1000 true)) `div` 60)%Z).
Proof.
  apply (from_now_minutes (mkESPTime 1000 true) UNIT_DISPLAY_SHORT 1125 1179);
    unfold in_reach, MachineInt.two32, MachineInt.two31; simpl; lia.
Defined.

Lemma sprintf_02d_length (m : Z) :
  (0 ≤ m < 60)%Z → String.length (sprintf_02d m) = 2%nat.
Proof.
  intros Hm. rewrite <- (Z2Nat.id m) by lia.
  assert (Z.to_nat m < 60)%nat as Hk by lia.
  revert Hk. generalize (Z.to_nat m). clear Hm. intros k Hk.
  do 60 (destruct k as [|k]; [vm_compute; reflexivity|]). lia.
Qed.

(** X3.  From an hour ahead on, [from_now_] writes the whole hours and the
    minutes beyond them, which are below 60 and together with the hours make
    up the whole minutes left: as [HhMm] in the long and the short style,
    and as [H:MM] with the minutes on two digits in the style without
    units. *)
Theorem from_now_hours (clock : ESPTime) (u : UnitDisplay)
    (unix_timestamp : Z) :
  in_reach clock unix_timestamp →
  (3600 ≤ unix_timestamp - timestamp clock)%Z →
  let diff := (unix_timestamp - timestamp clock)%Z in
  let hours := (diff `div` 3600)%Z in
  let minutes := ((diff `div` 60) `mod` 60)%Z in
  (60 * hours + minutes = diff `div` 60)%Z ∧
  String.length (sprintf_02d minutes) = 2%nat ∧
  from_now_ (Some clock) u unix_timestamp
  = match u with
    | UNIT_DISPLAY_NONE => sprintf_d hours +:+ ":" +:+ sprintf_02d minutes
    | _ => sprintf_d hours +:+ "h" +:+ sprintf_d minutes +:+ "m"
    end.
Proof.
  intros Hreach Hd diff hours minutes.
  assert (Hminutes : (0 ≤ minutes < 60)%Z) by (apply Z.mod_pos_bound; lia).
  assert (Hhours : (hours = (diff `div` 60) `div` 60)%Z).
  { unfold hours. rewrite Z.div_div by lia. done. }
  split.
  { rewrite Hhours. unfold minutes.
    pose proof (Z.div_mod (diff `div` 60) 60). lia. }
  split; [by apply sprintf_02d_length|].
  unfold from_now_. rewrite (from_now_diff _ _ Hreach). fold diff.
  rewrite (proj2 (Z.ltb_ge diff 30)) by (unfold diff; lia).
  rewrite (proj2 (Z.ltb_ge diff 60)) by (unfold diff; lia).
  assert (60 ≤ diff `div` 60)%Z
    by (apply Z.div_le_lower_bound; unfold diff; lia).
  rewrite (Z.quot_div_nonneg diff 60) by (unfold diff; lia).
  rewrite (proj2 (Z.ltb_ge (diff `div` 60) 60)) by done.
  rewrite Z.quot_div_nonneg, Z.rem_mod_nonneg by lia.
  rewrite <- Hhours. by destruct u.
Qed.

Lemma from_now_hours_witness :
  let diff := (4725 - timestamp (mkESPTime 1000 true))%Z in
  let hours := (diff `div` 3600)%Z in
  let minutes := ((diff `div` 60) `mod` 60)%Z in
  (60 * hours + minutes = diff `div` 60)%Z ∧
  String.length (sprintf_02d minutes) = 2%nat ∧
  from_now_ (Some (mkESPTime 1000 true)) UNIT_DISPLAY_NONE 4725
  = sprintf_d hours +:+ ":" +:+ sprintf_02d minutes.
Proof.
  apply (from_now_hours (mkESPTime 1000 true) UNIT_DISPLAY_NONE 4725);
    unfold in_reach, MachineInt.two32, MachineInt.two31; simpl; lia.
Defined.

Example from_now_examples :
  from_now_ (Some (mkESPTime 1000 true)) UNIT_DISPLAY_LONG 1010 = "Now" ∧
  from_now_ (Some (mkESPTime 1000 true)) UNIT_DISPLAY_LONG 1045 = "0min" ∧
  from_now_ (Some (mkESPTime 1000 true)) UNIT_DISPLAY_SHORT 1125 = "2m" ∧
  from_now_ (Some (mkESPTime 1000 true)) UNIT_DISPLAY_NONE 4725 = "1:02".
Proof. vm_compute. done. Qed.

(** * [draw_realtime_icon_]: facts *)

Lemma icon_frame_low (millis : Z) :
  (0 ≤ millis < MachineInt.two31)%Z →
  icon_frame millis
  = (if (millis `mod` 4000 <? 3000)%Z then 0
     else 1 + (millis `mod` 4000 - 3000) `div` 200)%Z.
Proof.
  intros Hrange. unfold icon_frame.
  change (3000 + (6 - 1) * 200)%Z with 4000%Z.
  rewrite to_signed_small by (unfold MachineInt.two31 in *; lia).
  rewrite Z.rem_mod_nonneg by lia.
  destruct (millis `mod` 4000 <? 3000)%Z eqn:Hidle; [done|].
  apply Z.ltb_ge in Hidle. rewrite Z.quot_div_nonneg by lia. done.
Qed.

Lemma icon_frame_high (millis : Z) :
  (MachineInt.two31 ≤ millis < MachineInt.two32)%Z → icon_frame millis = 0%Z.
Proof.
  intros Hrange. unfold icon_frame.
  change (3000 + (6 - 1) * 200)%Z with 4000%Z.
  assert (MachineInt.to_signed millis = (millis - MachineInt.two32)%Z) as ->.
  { unfold MachineInt.to_signed.
    rewrite <- (Z.mod_add _ (-1) MachineInt.two32)
      by (unfold MachineInt.two32; lia).
    rewrite Z.mod_small;
      unfold MachineInt.two31, MachineInt.two32 in *; lia. }
  pose proof (Z.rem_nonpos (millis - MachineInt.two32) 4000) as Hrem.
  assert ((Z.rem (millis - MachineInt.two32) 4000 <? 3000)%Z = true) as ->;
    [|done].
  apply Z.ltb_lt. unfold MachineInt.two32 in *. lia.
Qed.

(** X4.  The frame of the icon is always one of the six frames.  While
    [millis()] is below 2^31 the frame is 0 for the first 3000 ms of every
    4000 ms and then counts 1 to 5 in steps of 200 ms; from 2^31 on, where
    the [long] that holds the time is negative, the frame is always 0. *)
Theorem icon_frame_cycle (millis : Z) :
  (0 ≤ millis < MachineInt.two32)%Z →
  (0 ≤ icon_frame millis ≤ 5)%Z ∧
  ((millis < MachineInt.two31)%Z →
   icon_frame millis
   = (if (millis `mod` 4000 <? 3000)%Z then 0
      else 1 + (millis `mod` 4000 - 3000) `div` 200)%Z) ∧
  ((MachineInt.two31 ≤ millis)%Z → icon_frame millis = 0%Z).
Proof.
  intros Hrange. split; [|split].
  - destruct (decide (millis < MachineInt.two31)%Z) as [Hlt|Hge].
    + rewrite icon_frame_low by lia.
      pose proof (Z.mod_pos_bound millis 4000 ltac:(lia)) as Hmod.
      destruct (millis `mod` 4000 <? 3000)%Z eqn:Hidle; [lia|].
      apply Z.ltb_ge in Hidle.
      assert (0 ≤ (millis `mod` 4000 - 3000) `div` 200 < 5)%Z; [|lia].
      split; [apply Z.div_pos; lia|apply Z.div_lt_upper_bound; lia].
    + rewrite icon_frame_high by lia. lia.
  - intros Hlt. apply icon_frame_low. lia.
  - intros Hge. apply icon_frame_high. lia.
Qed.

Lemma icon_frame_cycle_witness :
  (0 ≤ icon_frame 3000000000 ≤ 5)%Z ∧
  ((3000000000 < MachineInt.two31)%Z →
   icon_frame 3000000000
   = (if (3000000000 `mod` 4000 <? 3000)%Z then 0
      else 1 + (3000000000 `mod` 4000 - 3000) `div` 200)%Z) ∧
  ((MachineInt.two31 ≤ 3000000000)%Z → icon_frame 3000000000 = 0%Z).
Proof.
  apply (icon_frame_cycle 3000000000).
  unfold MachineInt.two32. lia.
Defined.

(** X5.  Whatever the time and the place, the icon is drawn as sixteen
    pixels, each inside the square of six by six pixels that ends at the
    corner given and each in the lit or the unlit colour; in frame 0 none is
    lit and in every other frame some are. *)
Theorem realtime_icon_pixels (millis x y : Z) :
  length (draw_realtime_icon_ millis x y) = 16%nat ∧
  Forall (icon_pixel x y) (draw_realtime_icon_ millis x y) ∧
  (icon_frame millis = 0%Z →
   lit_pixels (draw_realtime_icon_ millis x y) = []) ∧
  ((1 ≤ icon_frame millis ≤ 5)%Z →
   lit_pixels (draw_realtime_icon_ millis x y) ≠ []).
Proof.
  unfold draw_realtime_icon_.
  generalize (icon_frame millis). intros frame.
  cbn [icon_rows icon_row realtime_icon Z.eqb app Z.add Pos.add].
  simpl.
  split; [done|]. split.
  - repeat (apply Forall_cons_2; [|]); try apply Forall_nil_2.
    all: eexists _, _, _; split; [reflexivity|].
    all: split; [lia|]; split; [lia|].
    all: destruct (is_segment_lit frame _); auto.
  - split.
    + intros ->. by vm_compute.
    + intros Hframe.
      assert (frame = 1 ∨ frame = 2 ∨ frame = 3 ∨ frame = 4 ∨ frame = 5)%Z
        as [->|[->|[->|[->| ->]]]] by lia; by vm_compute.
Qed.

(** * Timers on [millis()]: facts *)

Lemma to_signed_congruent (x y : Z) :
  MachineInt.to_unsigned (x - MachineInt.to_signed y)
  = MachineInt.to_unsigned (x - y).
Proof.
  unfold MachineInt.to_unsigned, MachineInt.to_signed.
  rewrite (Z.mod_eq (y + MachineInt.two31) MachineInt.two32)
    by (unfold MachineInt.two32; lia).
  set (k := ((y + MachineInt.two31) `div` MachineInt.two32)%Z).
  replace (x - (y + MachineInt.two31 - MachineInt.two32 * k
                - MachineInt.two31))%Z
    with (x - y + k * MachineInt.two32)%Z by lia.
  apply Z.mod_add. unfold MachineInt.two32. lia.
Qed.

Lemma elapsed_unsigned (start elapsed : Z) :
  (0 ≤ elapsed < MachineInt.two32)%Z →
  MachineInt.to_unsigned (MachineInt.to_unsigned (start + elapsed) - start)
  = elapsed.
Proof.
  intros Hrange. unfold MachineInt.to_unsigned.
  rewrite Zminus_mod_idemp_l.
  replace (start + elapsed - start)%Z with elapsed by lia.
  by apply Z.mod_small.
Qed.

(** X6.  [tick] measures the time since the last page switch on the 32-bit
    counter of [millis()], so a wrap of the counter does not disturb it: a
    tick that comes [elapsed] ms after the switch leaves everything as it is
    while [elapsed] is below the page's duration, and from then on draws one
    page and notes the time of the switch. *)
Theorem tick_across_wrap (elapsed : Z) (t : TransitTracker) :
  (0 ≤ elapsed < MachineInt.two32)%Z →
  let now :=
    MachineInt.to_unsigned (last_page_switch_ (page t) + elapsed) in
  ((elapsed < current_page_duration_ (page t))%Z → tick now t = (t, [])) ∧
  ((current_page_duration_ (page t) ≤ elapsed)%Z →
   (∃ p, (tick now t).2 = [Draw p]) ∧
   last_page_switch_ (page (tick now t).1) = now).
Proof.
  intros Hrange now.
  assert (Helapsed : page_elapsed now t
            = (current_page_duration_ (page t) <=? elapsed)%Z).
  { unfold page_elapsed, now. by rewrite elapsed_unsigned. }
  split; intros Hd; unfold tick; rewrite Helapsed.
  - by rewrite (proj2 (Z.leb_gt _ _) Hd).
  - rewrite (proj2 (Z.leb_le _ _) Hd). simpl. split; [by eexists|done].
Qed.

Lemma tick_across_wrap_witness :
  let t := set_page
             {| current_stop_index_ := 0; current_subpage_index_ := 0;
                total_subpages_for_current_stop_ := 1;
                last_displayed_stop_name_ := "";
                last_page_switch_ := 4294967000;
                current_page_duration_ := 8000 |} two_stops in
  let now :=
    MachineInt.to_unsigned (last_page_switch_ (page t) + 7999) in
  ((7999 < current_page_duration_ (page t))%Z → tick now t = (t, [])) ∧
  ((current_page_duration_ (page t) ≤ 7999)%Z →
   (∃ p, (tick now t).2 = [Draw p]) ∧
   last_page_switch_ (page (tick now t).1) = now).
Proof.
  intros t.
  apply (tick_across_wrap 7999 t). unfold MachineInt.two32. lia.
Defined.

Section HeartbeatFacts.
Context {V : Type} `{JsonApi V}.

(** X7.  After a "heartbeat" message handled at [millis() = millis0], which
    changes neither the trips nor the status, a pass of [loop] that comes
    [elapsed] ms later reconnects exactly when more than 60000 ms have
    elapsed, also across a wrap of the counter; but a heartbeat handled at
    [millis() = 0] is stored as "none yet" and no pass of [loop] times it
    out. *)
Theorem heartbeat_timeout (root : V) (millis0 elapsed : Z) (link : Link)
    (t : TransitTracker) :
  event_of root = "heartbeat" →
  (0 ≤ millis0 < MachineInt.two32)%Z →
  (0 ≤ elapsed < MachineInt.two32)%Z →
  ∃ t1,
    on_ws_message_ true millis0 (Document root) t = Continue t1 [] ∧
    trips t1 = trips t ∧ status_error t1 = status_error t ∧
    loop link (MachineInt.to_unsigned (millis0 + elapsed)) t1
    = if (millis0 =? 0)%Z then Continue t1 []
      else if (60000 <? elapsed)%Z then reconnect link t1
      else Continue t1 [].
Proof.
  intros Hevent Hm Hel. unfold on_ws_message_. rewrite Hevent. simpl.
  eexists. split; [reflexivity|]. split; [done|]. split; [done|].
  unfold loop. cbn [conn set_conn last_heartbeat_].
  rewrite to_signed_congruent, elapsed_unsigned by done.
  destruct (millis0 =? 0)%Z eqn:Hzero.
  - apply Z.eqb_eq in Hzero as ->. done.
  - apply Z.eqb_neq in Hzero.
    assert ((MachineInt.to_signed millis0 =? 0)%Z = false) as ->; [|done].
    apply Z.eqb_neq. intros Hs.
    assert (MachineInt.to_unsigned (0 - MachineInt.to_signed millis0)
            = MachineInt.to_unsigned (0 - millis0))
      as Hcong by apply to_signed_congruent.
    rewrite Hs in Hcong. unfold MachineInt.to_unsigned in Hcong.
    simpl in Hcong. symmetry in Hcong.
    apply Z.mod_divide in Hcong; [|unfold MachineInt.two32; lia].
    destruct Hcong as [k Hk]. unfold MachineInt.two32 in *. lia.
Qed.

End HeartbeatFacts.

Lemma heartbeat_timeout_witness :
  ∃ t1,
    on_ws_message_ true 4294960000
      (Document (JObj [("event", JStr "heartbeat")])) example_tracker
      = Continue t1 [] ∧
    trips t1 = trips example_tracker ∧
    status_error t1 = status_error example_tracker ∧
    loop link_up (MachineInt.to_unsigned (4294960000 + 60001)) t1
    = if (4294960000 =? 0)%Z then Continue t1 []
      else if (60000 <? 60001)%Z then reconnect link_up t1
      else Continue t1 [].
Proof.
  apply (heartbeat_timeout (JObj [("event", JStr "heartbeat")])
           4294960000 60001 link_up example_tracker).
  - reflexivity.
  - unfold MachineInt.two32. lia.
  - unfold MachineInt.two32. lia.
Defined.

(** X8.  A [reconnect()] on a component that has a base URL and is not
    fully closed always gets past the guards of [connect_ws_], because it
    closes the connection first; unless it restarts the device it leaves
    [last_heartbeat_] at 0, so that no pass of [loop] reconnects again until
    the next heartbeat arrives. *)
Theorem reconnect_clears_heartbeat (link : Link) (t t' : TransitTracker)
    (fx : list Effect) :
  base_url_ t ≠ "" → fully_closed_ (conn t) = false →
  reconnect link t = Continue t' fx →
  last_heartbeat_ (conn t') = 0%Z ∧
  (∃ fx', fx = WsClose :: fx') ∧
  ∀ link' millis, loop link' millis t' = Continue t' [].
Proof.
  intros Hurl Hclosed Hrec.
  assert (Hhb : last_heartbeat_ (conn t') = 0%Z ∧ ∃ fx', fx = WsClose :: fx').
  { revert Hrec. unfold reconnect, close, connect_ws_.
    cbn [base_url_ set_ws_connected conn fully_closed_ ws_connected].
    rewrite bool_decide_eq_false_2 by done. rewrite Hclosed.
    destruct (network_is_connected link), (ws_connect_result link);
      cbn [negb];
      repeat match goal with
             | |- context [if ?b then _ else _] => destruct b
             end;
      intros [= <- <-]; split; try done; by eexists. }
  destruct Hhb as [Hhb Hfx]. split; [done|]. split; [done|].
  intros link' millis. unfold loop. by rewrite Hhb.
Qed.

Lemma reconnect_clears_heartbeat_witness :
  last_heartbeat_ (conn (after_failure example_tracker)) = 0%Z ∧
  (∃ fx', [WsClose; SetTimeout "reconnect" 5000] = WsClose :: fx') ∧
  ∀ link' millis,
    loop link' millis (after_failure example_tracker)
    = Continue (after_failure example_tracker) [].
Proof.
  apply (reconnect_clears_heartbeat link_down example_tracker).
  - discriminate.
  - reflexivity.
  - reflexivity.
Defined.

(** * The entry points in sequence: facts *)

Lemma next_stop_frame t :
  trips (next_stop t) = trips t ∧
  ws_connected (next_stop t) = ws_connected t ∧
  status_error (next_stop t) = status_error t ∧
  conn (next_stop t) = conn t ∧
  base_url_ (next_stop t) = base_url_ t ∧
  display_limit_ (next_stop t) = display_limit_ t ∧
  stop_ids_ (next_stop t) = stop_ids_ t.
Proof. unfold next_stop. by destruct (bool_decide (stop_ids_ t = [])). Qed.

Lemma tick_frame now t :
  trips (tick now t).1 = trips t ∧
  ws_connected (tick now t).1 = ws_connected t ∧
  status_error (tick now t).1 = status_error t ∧
  conn (tick now t).1 = conn t ∧
  base_url_ (tick now t).1 = base_url_ t ∧
  display_limit_ (tick now t).1 = display_limit_ t ∧
  stop_ids_ (tick now t).1 = stop_ids_ t.
Proof.
  unfold tick. destruct (page_elapsed now t); [|done].
  cbn [fst page set_page total_subpages_for_current_stop_
       current_subpage_index_].
  destruct (_ <=? _)%Z; [|done].
  cbn [trips ws_connected status_error conn base_url_ display_limit_
       stop_ids_ set_page].
  apply (next_stop_frame (set_page _ t)).
Qed.

Lemma tick_draws now t : Forall (λ fx, ∃ p, fx = Draw p) (tick now t).2.
Proof.
  unfold tick. destruct (page_elapsed now t); simpl; [|done].
  apply Forall_cons_2; [by eexists|done].
Qed.

Section RunFacts.
Context {V : Type} `{JsonApi V}.

Variable holds : TransitTracker → Prop.
Variable allowed : Effect → Prop.
Variable ending : Termination → Prop.

Hypothesis perform_kept :
  ∀ (c : Call (V:=V)) t,
    holds t → kept holds allowed ending (perform c t).

Lemma run_calls_kept (calls : list (Call (V:=V))) :
  ∀ t, holds t → kept holds allowed ending (run_calls calls t).
Proof.
  induction calls as [|c rest IH]; intros t Ht; simpl; [done|].
  pose proof (perform_kept c t Ht) as Hc.
  destruct (perform c t) as [t1 fx|why fx]; [|done].
  destruct Hc as [Ht1 Hfx]. specialize (IH t1 Ht1).
  destruct (run_calls rest t1) as [t2 fx2|why fx2];
    destruct IH as [? Hfx2]; (split; [done|by apply Forall_app]).
Qed.

End RunFacts.

(** * The filtered read: facts *)

Lemma matching_loop_take (t : TransitTracker) (stop_id : string)
    (trips : list Trip.t) :
  (1 ≤ MachineInt.to_unsigned (display_limit_ t))%Z →
  ∀ matching,
    (Z.of_nat (length matching)
       < MachineInt.to_unsigned (display_limit_ t))%Z →
    matching_loop t stop_id trips matching
    = take (Z.to_nat (MachineInt.to_unsigned (display_limit_ t)))
        (matching ++ at_stop stop_id trips).
Proof.
  intros Hlimit. set (limit := MachineInt.to_unsigned (display_limit_ t)) in *.
  induction trips as [|trip rest IH]; intros matching Hlen; simpl.
  - unfold at_stop. rewrite filter_nil, app_nil_r.
    rewrite take_ge; [done|lia].
  - unfold collect, at_stop. rewrite filter_cons. fold (at_stop stop_id rest).
    destruct (decide (Trip.stop_id trip = stop_id)) as [Heq|Hne].
    + rewrite bool_decide_eq_true_2 by done.
      unfold limit_reached. fold limit. rewrite List.length_app. simpl.
      destruct (limit <=? _)%Z eqn:Hreached.
      * apply Z.leb_le in Hreached.
        replace (matching ++ trip :: at_stop stop_id rest)
          with ((matching ++ [trip]) ++ at_stop stop_id rest)
          by (by rewrite <- (assoc_L (++))).
        rewrite take_app_length'; [done|]. rewrite List.length_app. simpl. lia.
      * apply Z.leb_gt in Hreached.
        rewrite IH by (rewrite List.length_app; simpl; lia).
        by rewrite <- (assoc_L (++)).
    + rewrite bool_decide_eq_false_2 by done.
      unfold limit_reached. fold limit.
      rewrite (proj2 (Z.leb_gt _ _)) by lia.
      by apply IH.
Qed.

(** X14.  The trips that [draw_schedule] lays out for a stop are the first
    [display_limit_] trips of that stop, in the order of the cache, when the
    limit read as a [size_t] is at least 1; a negative limit is read as a
    number of 2^31 or more.  With a limit of 0 the loop is left after the
    first trip of the cache, which is laid out if it is of that stop, so
    that one row can still appear. *)
Theorem matching_trips_limit (t : TransitTracker) (stop_id : string)
    (trips : list Trip.t) :
  let limit := MachineInt.to_unsigned (display_limit_ t) in
  ((- MachineInt.two31 ≤ display_limit_ t < 0)%Z →
   (MachineInt.two31 ≤ limit)%Z) ∧
  ((1 ≤ limit)%Z →
   matching_trips t stop_id trips
   = take (Z.to_nat limit) (at_stop stop_id trips)) ∧
  (limit = 0%Z →
   matching_trips t stop_id trips = first_if_matching stop_id trips).
Proof.
  intros limit. split; [|split].
  - intros Hneg. unfold limit, MachineInt.to_unsigned.
    rewrite <- (Z.mod_add _ 1) by (unfold MachineInt.two32; lia).
    rewrite Z.mod_small;
      unfold MachineInt.two31, MachineInt.two32 in *; lia.
  - intros Hlimit. unfold matching_trips.
    rewrite matching_loop_take; [done|done|simpl; fold limit; lia].
  - intros Hzero. unfold matching_trips, first_if_matching.
    destruct trips as [|trip rest]; simpl; [done|].
    unfold limit_reached. fold limit. rewrite Hzero. simpl.
    unfold collect. by destruct (bool_decide _).
Qed.

(** * The registry of stops: facts *)

Lemma registry_ok_same (t t' : TransitTracker) :
  current_stop_index_ (page t') = current_stop_index_ (page t) →
  stop_ids_ t' = stop_ids_ t → stop_names_ t' = stop_names_ t →
  registry_ok t → registry_ok t'.
Proof. unfold registry_ok. by intros -> -> ->. Qed.

Lemma registry_index (t : TransitTracker) :
  registry_ok t → stop_ids_ t ≠ [] →
  (0 ≤ current_stop_index_ (page t) < Z.of_nat (length (stop_ids_ t)))%Z.
Proof.
  intros (Hpos & Hin & _) Hstops.
  destruct (stop_ids_ t) as [|stop_id rest]; [done|]. simpl in *. lia.
Qed.

Lemma next_stop_step (t : TransitTracker) :
  registry_ok t → stop_ids_ t ≠ [] →
  (Z.of_nat (length (stop_ids_ t)) < MachineInt.two31)%Z →
  let index :=
    ((current_stop_index_ (page t) + 1)
       `mod` Z.of_nat (length (stop_ids_ t)))%Z in
  ∃ name,
    name_at t index = Some name ∧
    stop_ids_ (next_stop t) = stop_ids_ t ∧
    stop_names_ (next_stop t) = stop_names_ t ∧
    current_stop_index_ (page (next_stop t)) = index ∧
    current_subpage_index_ (page (next_stop t)) = 0%Z ∧
    last_displayed_stop_name_ (page (next_stop t)) = name ∧
    total_subpages_for_current_stop_ (page (next_stop t))
    = (if bool_decide (name = last_displayed_stop_name_ (page t))
       then 1 else 2)%Z.
Proof.
  intros Hok Hstops Hlen index.
  pose proof (registry_index t Hok Hstops) as Hidx.
  destruct Hok as (_ & _ & Hnames).
  assert (Hindex : (0 ≤ index < Z.of_nat (length (stop_ids_ t)))%Z).
  { apply Z.mod_pos_bound. lia. }
  destruct (lookup_lt_is_Some_2 (stop_ids_ t) (Z.to_nat index))
    as [stop_id Hid]; [lia|].
  destruct (Hnames stop_id) as [name Hname];
    [by eapply list_elem_of_lookup_2|].
  exists name. unfold name_at. rewrite Hid. simpl. split; [done|].
  unfold next_stop. rewrite bool_decide_eq_false_2 by done.
  rewrite to_unsigned_small by (unfold MachineInt.two31, MachineInt.two32 in *; lia).
  fold index.
  rewrite to_signed_small by (unfold MachineInt.two31 in *; lia).
  rewrite Hid. simpl. rewrite Hname. simpl.
  repeat split; try done.
  destruct (bool_decide (name = _)) eqn:Hsame; [|done].
  by apply bool_decide_eq_true in Hsame.
Qed.

Lemma next_stop_registry (t : TransitTracker) :
  registry_ok t →
  (Z.of_nat (length (stop_ids_ t)) < MachineInt.two31)%Z →
  registry_ok (next_stop t).
Proof.
  intros Hok Hlen.
  destruct (decide (stop_ids_ t = [])) as [Hnone|Hstops].
  { unfold next_stop. by rewrite bool_decide_eq_true_2. }
  destruct (next_stop_step t Hok Hstops Hlen)
    as (name & _ & Hids & Hnames & Hidx & _).
  unfold registry_ok. rewrite Hids, Hnames, Hidx.
  assert (0 ≤ (current_stop_index_ (page t) + 1)
                `mod` Z.of_nat (length (stop_ids_ t))
          < Z.of_nat (length (stop_ids_ t)))%Z.
  { apply Z.mod_pos_bound.
    destruct (stop_ids_ t); [done|]. simpl. lia. }
  split; [lia|]. split; [right; lia|]. by destruct Hok as (_ & _ & ?).
Qed.

Lemma set_page_registry (p : PaginationState) (t : TransitTracker) :
  registry_ok t →
  current_stop_index_ p = current_stop_index_ (page t) →
  registry_ok (set_page p t).
Proof. intros Hok Hidx. by eapply registry_ok_same; [| | |exact Hok]. Qed.

Lemma tick_registry (now : Z) (t : TransitTracker) :
  registry_ok t →
  (Z.of_nat (length (stop_ids_ t)) < MachineInt.two31)%Z →
  registry_ok (tick now t).1.
Proof.
  intros Hok Hlen. unfold tick.
  destruct (page_elapsed now t); [|done].
  cbv zeta. cbn [fst]. apply set_page_registry; [|done].
  destruct (_ <=? _)%Z.
  - apply next_stop_registry; [|done]. by apply set_page_registry.
  - by apply set_page_registry.
Qed.

Lemma add_stop_name_registry (stop_id stop_name : string)
    (t : TransitTracker) :
  registry_ok t → registry_ok (add_stop_name stop_id stop_name t).
Proof.
  intros (Hpos & Hin & Hnames). unfold registry_ok. simpl.
  split; [done|]. split.
  - rewrite List.length_app. simpl. lia.
  - intros id Hid. apply elem_of_app in Hid as [Hid|Hid].
    + destruct (decide (stop_id = id)) as [->|Hne].
      * rewrite lookup_insert_eq. by eexists.
      * rewrite lookup_insert_ne by done. by apply Hnames.
    + apply list_elem_of_singleton in Hid as ->.
      rewrite lookup_insert_eq. by eexists.
Qed.

Lemma registry_current (t : TransitTracker) :
  registry_ok t → stop_ids_ t ≠ [] →
  ∃ stop_id name,
    current_stop_id t = Some stop_id ∧
    stop_names_ t !! stop_id = Some name ∧
    name_at t (current_stop_index_ (page t)) = Some name.
Proof.
  intros Hok Hstops. pose proof (registry_index t Hok Hstops) as Hidx.
  destruct Hok as (_ & _ & Hnames).
  destruct (lookup_lt_is_Some_2 (stop_ids_ t)
              (Z.to_nat (current_stop_index_ (page t))))
    as [stop_id Hid]; [lia|].
  destruct (Hnames stop_id) as [name Hname];
    [by eapply list_elem_of_lookup_2|].
  exists stop_id, name. unfold current_stop_id, name_at.
  rewrite (proj2 (Z.ltb_ge _ _)) by lia.
  rewrite Hid. by simpl.
Qed.

(** X16.  On a registry as [add_stop_name] builds it, with at least one
    stop, [next_stop()] goes round the stops in the order in which they were
    registered: after [k] calls the current stop is the one at index
    [(i + k) mod n], where [i] was the index before and [n] is the number of
    stops; so after [n] calls it is the same stop again. *)
Theorem next_stop_round_robin (k : nat) (t : TransitTracker) :
  registry_ok t → stop_ids_ t ≠ [] →
  (Z.of_nat (length (stop_ids_ t)) < MachineInt.two31)%Z →
  let n := Z.of_nat (length (stop_ids_ t)) in
  current_stop_index_ (page (next_stops k t))
  = ((current_stop_index_ (page t) + Z.of_nat k) `mod` n)%Z ∧
  current_stop_id (next_stops k t)
  = stop_ids_ t
      !! Z.to_nat ((current_stop_index_ (page t) + Z.of_nat k) `mod` n) ∧
  current_stop_index_ (page (next_stops (length (stop_ids_ t)) t))
  = current_stop_index_ (page t).
Proof.
  intros Hok Hstops Hlen n.
  pose proof (registry_index t Hok Hstops) as Hidx. fold n in Hidx.
  assert (Hiter : ∀ j,
            registry_ok (next_stops j t) ∧
            stop_ids_ (next_stops j t) = stop_ids_ t ∧
            current_stop_index_ (page (next_stops j t))
            = ((current_stop_index_ (page t) + Z.of_nat j) `mod` n)%Z).
  { induction j as [|j (IHok & IHids & IHidx)].
    - simpl. split; [done|]. split; [done|].
      rewrite Z.add_0_r. symmetry. by apply Z.mod_small.
    - unfold next_stops in *. simpl.
      destruct (next_stop_step (Nat.iter j next_stop t))
        as (name & _ & Hids & _ & Hnext & _);
        [done|by rewrite IHids|by rewrite IHids|].
      split; [apply next_stop_registry; [done|by rewrite IHids]|].
      split; [by rewrite Hids|].
      rewrite Hnext, IHidx, IHids. fold n.
      rewrite Zplus_mod_idemp_l. f_equal. lia. }
  destruct (Hiter k) as (Hkok & Hkids & Hkidx).
  split; [done|]. split.
  - unfold current_stop_id. rewrite Hkidx, Hkids.
    assert (0 ≤ (current_stop_index_ (page t) + Z.of_nat k) `mod` n < n)%Z
      by (apply Z.mod_pos_bound; lia).
    by rewrite (proj2 (Z.ltb_ge _ _)) by lia.
  - destruct (Hiter (length (stop_ids_ t))) as (_ & _ & ->). fold n.
    rewrite <- (Z.mul_1_l n) at 1. rewrite Z.mod_add by lia.
    by apply Z.mod_small.
Qed.

Lemma next_stop_round_robin_witness :
  let n := Z.of_nat (length (stop_ids_ two_stops)) in
  current_stop_index_ (page (next_stops 5 two_stops))
  = ((current_stop_index_ (page two_stops) + Z.of_nat 5) `mod` n)%Z ∧
  current_stop_id (next_stops 5 two_stops)
  = stop_ids_ two_stops
      !! Z.to_nat
           ((current_stop_index_ (page two_stops) + Z.of_nat 5) `mod` n) ∧
  current_stop_index_
    (page (next_stops (length (stop_ids_ two_stops)) two_stops))
  = current_stop_index_ (page two_stops).
Proof.
  apply (next_stop_round_robin 5 two_stops).
  - split; [simpl; lia|]. split; [by left|].
    intros stop_id Hin. vm_compute in Hin.
    repeat (apply elem_of_cons in Hin as [->|Hin]; [by eexists|]).
    by apply elem_of_nil in Hin.
  - discriminate.
  - unfold MachineInt.two31. simpl. lia.
Defined.

(** X17.  On such a registry [next_stop()] always notes the name of the stop
    it moves to as the last one displayed, and gives the stop a name page
    (two sub-pages) exactly when that name differs from the one noted
    before; so from the second move on, a stop gets a name page exactly when
    its name differs from the name of the stop before it in the round, and
    with stops that all have one name no name page is shown again. *)
Theorem name_page_on_change (k : nat) (t : TransitTracker) :
  registry_ok t → stop_ids_ t ≠ [] →
  (Z.of_nat (length (stop_ids_ t)) < MachineInt.two31)%Z →
  let before := next_stops (S k) t in
  let after := next_stop before in
  ∃ name name',
    name_at t (current_stop_index_ (page before)) = Some name ∧
    name_at t (current_stop_index_ (page after)) = Some name' ∧
    last_displayed_stop_name_ (page before) = name ∧
    last_displayed_stop_name_ (page after) = name' ∧
    (total_subpages_for_current_stop_ (page after) = 2%Z ↔ name' ≠ name) ∧
    (total_subpages_for_current_stop_ (page after) = 1%Z ↔ name' = name).
Proof.
  intros Hok Hstops Hlen before after.
  assert (Hiter : ∀ j,
            registry_ok (next_stops j t) ∧
            stop_ids_ (next_stops j t) = stop_ids_ t ∧
            stop_names_ (next_stops j t) = stop_names_ t).
  { induction j as [|j (IHok & IHids & IHnames)]; [done|].
    unfold next_stops in *. simpl.
    destruct (next_stop_step (Nat.iter j next_stop t))
      as (name & _ & Hids & Hnames & _);
      [done|by rewrite IHids|by rewrite IHids|].
    split; [apply next_stop_registry; [done|by rewrite IHids]|].
    by rewrite Hids, Hnames. }
  destruct (Hiter k) as (Hkok & Hkids & Hknames).
  destruct (Hiter (S k)) as (Hbok & Hbids & Hbnames). fold before in Hbok, Hbids, Hbnames.
  destruct (next_stop_step (next_stops k t))
    as (name & Hname & _ & _ & Hidx & _ & Hlast & _);
    [done|by rewrite Hkids|by rewrite Hkids|].
  destruct (next_stop_step before)
    as (name' & Hname' & _ & _ & Hidx' & _ & Hlast' & Htotal');
    [done|by rewrite Hbids|by rewrite Hbids|].
  change (next_stop (next_stops k t)) with before in Hidx, Hlast.
  fold after in Hidx', Hlast', Htotal'.
  exists name, name'.
  assert (Hat : ∀ t0 i, stop_ids_ t0 = stop_ids_ t →
            stop_names_ t0 = stop_names_ t → name_at t0 i = name_at t i).
  { intros t0 i Hi Hn. unfold name_at. by rewrite Hi, Hn. }
  split; [by rewrite Hidx, <- (Hat (next_stops k t))|].
  split; [by rewrite Hidx', <- (Hat before)|].
  split; [done|]. split; [done|].
  rewrite Htotal', Hlast.
  destruct (decide (name' = name)) as [Heq|Hne].
  - rewrite bool_decide_eq_true_2 by done. split; split; done.
  - rewrite bool_decide_eq_false_2 by done. split; split; done.
Qed.

Lemma name_page_on_change_witness :
  let before := next_stops (S 1) two_stops in
  let after := next_stop before in
  ∃ name name',
    name_at two_stops (current_stop_index_ (page before)) = Some name ∧
    name_at two_stops (current_stop_index_ (page after)) = Some name' ∧
    last_displayed_stop_name_ (page before) = name ∧
    last_displayed_stop_name_ (page after) = name' ∧
    (total_subpages_for_current_stop_ (page after) = 2%Z ↔ name' ≠ name) ∧
    (total_subpages_for_current_stop_ (page after) = 1%Z ↔ name' = name).
Proof.
  apply (name_page_on_change 1 two_stops).
  - split; [simpl; lia|]. split; [by left|].
    intros stop_id Hin. vm_compute in Hin.
    repeat (apply elem_of_cons in Hin as [->|Hin]; [by eexists|]).
    by apply elem_of_nil in Hin.
  - discriminate.
  - unfold MachineInt.two31. simpl. lia.
Defined.

(** * The order of the abbreviations: facts *)

Lemma string_compare_trans (a : string) : ∀ b c,
  String.compare a b = Lt → String.compare b c = Lt →
  String.compare a c = Lt.
Proof.
  induction a as [|x a IH]; intros [|y b] [|z c]; simpl; try done.
  destruct (Ascii.compare x y) eqn:Hxy; try done;
    destruct (Ascii.compare y z) eqn:Hyz; try done.
  - apply Ascii.compare_eq_iff in Hxy as ->.
    apply Ascii.compare_eq_iff in Hyz as ->.
    unfold Ascii.compare. rewrite N.compare_refl. apply IH.
  - apply Ascii.compare_eq_iff in Hxy as ->. by rewrite Hyz.
  - apply Ascii.compare_eq_iff in Hyz as <-. by rewrite Hxy.
  - unfold Ascii.compare in *.
    rewrite N.compare_lt_iff in Hxy, Hyz.
    assert (N.compare (Ascii.N_of_ascii x) (Ascii.N_of_ascii z) = Lt)
      as ->; [|done].
    apply N.compare_lt_iff. lia.
Qed.

Lemma assign_above {V} (k0 k : string) (v : V) (m : StdMap.t V) :
  String.compare k0 k = Lt → above k0 m → above k0 (StdMap.assign k v m).
Proof.
  intros Hlt Habove. destruct m as [|[k' v'] rest]; [done|].
  cbn [StdMap.assign]. by destruct (String.compare k k').
Qed.

Lemma assign_ascend {V} (k : string) (v : V) (m : StdMap.t V) :
  keys_ascend m → keys_ascend (StdMap.assign k v m).
Proof.
  induction m as [|[k' v'] rest IH]; [done|].
  intros [Habove Hrest]. cbn [StdMap.assign].
  destruct (String.compare k k') eqn:Hcmp.
  - apply String.compare_eq_iff in Hcmp as ->. done.
  - done.
  - split; [|by apply IH]. apply assign_above; [|done].
    rewrite String.compare_antisym, Hcmp. done.
Qed.

Lemma keys_ascend_in_order {V} (m : StdMap.t V) :
  keys_ascend m → keys_in_order m.
Proof.
  induction m as [|[k v] rest IH]; intros Hasc i j a b Hij Hi Hj.
  { done. }
  destruct Hasc as [Habove Hrest].
  assert (Hall : ∀ (n : nat) c, rest !! n = Some c →
            String.compare k c.1 = Lt).
  { clear i j a b Hij Hi Hj. revert k Habove.
    clear IH. induction rest as [|[k1 v1] rest IHrest];
      intros k Habove n c Hn; [done|].
    destruct Hrest as [Habove1 Hrest1].
    destruct n as [|n]; [by injection Hn as <-|].
    simpl in Hn. apply (string_compare_trans k k1); [done|].
    by apply (IHrest Hrest1 k1 Habove1 n c). }
  destruct j as [|j]; [lia|]. simpl in Hj.
  destruct i as [|i].
  - injection Hi as <-. by apply (Hall j b).
  - simpl in Hi. apply (IH Hrest i j a b); [lia|done|done].
Qed.

Section TableOrder.
Variable split : string → ascii → list string.

Lemma abbreviation_lines_ascend lines : ∀ t,
  keys_ascend (abbreviations_ t) →
  keys_ascend (abbreviations_ (abbreviation_lines split lines t)).
Proof.
  induction lines as [|line rest IH]; intros t Hasc; [done|].
  cbn [abbreviation_lines].
  destruct (split line ";"%char) as [|a [|b [|c parts]]]; try by apply IH.
  apply IH. unfold add_abbreviation. simpl. by apply assign_ascend.
Qed.

Lemma abbreviation_lines_app lines1 lines2 : ∀ t,
  abbreviation_lines split (lines1 ++ lines2) t
  = abbreviation_lines split lines2 (abbreviation_lines split lines1 t).
Proof.
  induction lines1 as [|line rest IH]; intros t; [done|].
  simpl. by destruct (split line ";"%char) as [|a [|b [|c parts]]].
Qed.

Lemma abbreviation_lines_untouched lines : ∀ t k v,
  StdMap.find k (abbreviations_ t) = Some v →
  (∀ line v', line ∈ lines → split line ";"%char ≠ [k; v']) →
  StdMap.find k (abbreviations_ (abbreviation_lines split lines t)) = Some v.
Proof.
  induction lines as [|line rest IH]; intros t k v Hfind Hnone; [done|].
  assert (Hrest : ∀ line' v', line' ∈ rest →
            split line' ";"%char ≠ [k; v']).
  { intros line' v' Hin. apply Hnone. by right. }
  cbn [abbreviation_lines].
  destruct (split line ";"%char) as [|a [|b [|c parts]]] eqn:Hparts;
    try by apply IH.
  apply IH; [|done]. unfold add_abbreviation. simpl. rewrite find_assign.
  destruct (String.eqb_spec k a) as [->|]; [|done].
  exfalso. apply (Hnone line b); [left|done].
Qed.

(** X18.  The table that [set_abbreviations_from_text] loads holds its
    entries in the strict order of their keys, whatever the order of the
    lines of the text, and this is the order in which the message handler
    applies them to a headsign; when several lines give the same key, the
    table holds the value of the last of them. *)
Theorem abbreviations_table_order (text : string) (t : TransitTracker) :
  let table := abbreviations_ (set_abbreviations_from_text split text t) in
  keys_in_order table ∧
  ∀ pre line post k v,
    split text newline = pre ++ line :: post →
    split line ";"%char = [k; v] →
    (∀ line' v', line' ∈ post → split line' ";"%char ≠ [k; v']) →
    StdMap.find k table = Some v.
Proof.
  intros table. split.
  - apply keys_ascend_in_order. unfold table, set_abbreviations_from_text.
    by apply abbreviation_lines_ascend.
  - intros pre line post k v Hlines Hline Hlast.
    unfold table, set_abbreviations_from_text. rewrite Hlines.
    rewrite abbreviation_lines_app. cbn [abbreviation_lines].
    rewrite Hline. apply abbreviation_lines_untouched; [|done].
    unfold add_abbreviation. simpl. rewrite find_assign.
    by rewrite String.eqb_refl.
Qed.

End TableOrder.

Example abbreviations_order_example :
  abbreviations_
    (set_abbreviations_from_text split_on
       ("Street;St" +:+ String newline
          ("Avenue;Ave" +:+ String newline "Street;Str"))
       example_tracker)
  = [("Avenue", "Ave"); ("Street", "Str")].
Proof. reflexivity. Qed.

(** * The rows of the schedule page: facts *)

Lemma matching_trips_sound (t : TransitTracker) (stop_id : string)
    (trips : list Trip.t) :
  (length (matching_trips t stop_id trips) ≤ most_rows t)%nat ∧
  ∀ trip, trip ∈ matching_trips t stop_id trips →
    trip ∈ trips ∧ Trip.stop_id trip = stop_id.
Proof.
  unfold most_rows.
  assert (0 ≤ MachineInt.to_unsigned (display_limit_ t))%Z as Hpos.
  { unfold MachineInt.to_unsigned. apply Z.mod_pos_bound.
    unfold MachineInt.two32. lia. }
  destruct (decide (MachineInt.to_unsigned (display_limit_ t) = 0%Z))
    as [Hzero|Hsome].
  - unfold matching_trips. rewrite Hzero. simpl.
    destruct trips as [|trip rest]; simpl.
    + split; [lia|]. intros trip Hin. by apply elem_of_nil in Hin.
    + unfold limit_reached. rewrite Hzero. simpl. unfold collect.
      destruct (bool_decide (Trip.stop_id trip = stop_id)) eqn:Hid; simpl.
      * apply bool_decide_eq_true in Hid. split; [lia|].
        intros trip' Hin. apply list_elem_of_singleton in Hin as ->.
        split; [left|done].
      * split; [lia|]. intros trip' Hin. by apply elem_of_nil in Hin.
  - unfold matching_trips.
    rewrite matching_loop_take by (simpl; lia). simpl. split.
    + rewrite length_take. lia.
    + intros trip Hin. apply elem_of_take in Hin as (i & Hin & _).
      apply list_elem_of_lookup_2 in Hin. unfold at_stop in Hin.
      by apply list_elem_of_filter in Hin as [? ?].
Qed.

Lemma icon_only_pixels (millis x y : Z) :
  Forall is_pixel (draw_realtime_icon_ millis x y).
Proof.
  unfold draw_realtime_icon_. generalize (icon_frame millis). intros frame.
  cbn [icon_rows icon_row realtime_icon Z.eqb app Z.add Pos.add]. simpl.
  repeat (apply Forall_cons_2; [done|]). apply Forall_nil_2.
Qed.

Lemma clipping_ok_app (calls calls' : list DisplayCall) : ∀ inside,
  clipping_ok inside calls = true →
  clipping_ok inside (calls ++ calls') = clipping_ok false calls'.
Proof.
  induction calls as [|call rest IH]; intros inside; simpl.
  - by destruct inside.
  - destruct call, inside; simpl; try done; by apply IH.
Qed.

Lemma clipping_ok_pixels (calls : list DisplayCall) :
  Forall is_pixel calls → clipping_ok false calls = true.
Proof.
  induction 1 as [|call rest Hcall _ IH]; [done|].
  destruct call; try done.
Qed.

Lemma headsign_calls_app (calls calls' : list DisplayCall) :
  headsign_calls (calls ++ calls')
  = headsign_calls calls ++ headsign_calls calls'.
Proof. apply filter_app. Qed.

Lemma headsign_calls_pixels (calls : list DisplayCall) :
  Forall is_pixel calls → headsign_calls calls = [].
Proof.
  induction 1 as [|call rest Hcall _ IH]; [done|].
  destruct call; try done.
Qed.

Section RowFacts.
Variable measure : string → Extent.
Variable panel : Panel.

Lemma draw_row_clipping s now millis width y trip :
  clipping_ok false (draw_row measure panel s now millis width y trip) = true.
Proof.
  unfold draw_row. cbn [app clipping_ok negb andb].
  rewrite clipping_ok_app; [done|].
  destruct (Trip.is_realtime trip); [|done].
  apply clipping_ok_pixels, icon_only_pixels.
Qed.

Lemma draw_row_headsign s now millis width y trip :
  headsign_calls (draw_row measure panel s now millis width y trip)
  = [PrintPlain (width + 3)%Z y (Trip.headsign trip)].
Proof.
  unfold draw_row. rewrite !headsign_calls_app.
  rewrite (headsign_calls_pixels (if Trip.is_realtime trip then _ else _)).
  - reflexivity.
  - destruct (Trip.is_realtime trip);
      [apply icon_only_pixels|apply Forall_nil_2].
Qed.

Lemma route_max_width_from (matching : list Trip.t) : ∀ start,
  (start ≤ foldl (λ acc trip,
                    Z.max acc (ext_width (measure (Trip.route_name trip))))
             start matching)%Z ∧
  (∀ trip, trip ∈ matching →
     (ext_width (measure (Trip.route_name trip))
      ≤ foldl (λ acc trip,
                 Z.max acc (ext_width (measure (Trip.route_name trip))))
          start matching)%Z) ∧
  (foldl (λ acc trip,
            Z.max acc (ext_width (measure (Trip.route_name trip))))
     start matching = start ∨
   ∃ trip, trip ∈ matching ∧
     foldl (λ acc trip,
              Z.max acc (ext_width (measure (Trip.route_name trip))))
       start matching
     = ext_width (measure (Trip.route_name trip))).
Proof.
  induction matching as [|trip rest IH]; intros start; simpl.
  - split; [lia|]. split; [|by left].
    intros trip Hin. by apply elem_of_nil in Hin.
  - destruct (IH (Z.max start
                    (ext_width (measure (Trip.route_name trip)))))
      as (Hstart & Hall & Hattained).
    split; [lia|]. split.
    + intros trip' Hin.
      apply elem_of_cons in Hin as [->|Hin]; [lia|by apply Hall].
    + destruct Hattained as [Hsame|(trip' & Hin & Hmax)].
      * rewrite Hsame.
        destruct (Z.max_spec start
                    (ext_width (measure (Trip.route_name trip))))
          as [[_ ->]|[_ ->]]; [|by left].
        right. exists trip. split; [left|done].
      * right. exists trip'. split; [by right|done].
Qed.

Lemma draw_rows_facts s now millis width (matching : list Trip.t) : ∀ y,
  clipping_ok false (draw_rows measure panel s now millis width y matching)
  = true ∧
  length (headsign_calls
            (draw_rows measure panel s now millis width y matching))
  = length matching ∧
  (∀ x y' text,
     PrintPlain x y' text
       ∈ draw_rows measure panel s now millis width y matching →
     x = (width + 3)%Z ∧
     ∃ trip, trip ∈ matching ∧ text = Trip.headsign trip) ∧
  (∀ x y' color align text,
     Print x y' color align text
       ∈ draw_rows measure panel s now millis width y matching →
     align = TOP_LEFT →
     x = 0%Z ∧ ∃ trip, trip ∈ matching ∧ text = Trip.route_name trip) ∧
  (∀ trip, trip ∈ matching →
     ∃ y', Print 0 y' (Trip.route_color trip) TOP_LEFT (Trip.route_name trip)
             ∈ draw_rows measure panel s now millis width y matching).
Proof.
  induction matching as [|trip rest IH]; intros y.
  { simpl. split; [done|]. split; [done|].
    split; [|split]; intros; by apply elem_of_nil in H. }
  cbn [draw_rows].
  destruct (IH (y + ext_height (measure (Trip.route_name trip)))%Z)
    as (Hclip & Hcount & Hhead & Hroute & Hnames).
  split; [|split; [|split; [|split]]].
  - rewrite clipping_ok_app by apply draw_row_clipping. done.
  - rewrite headsign_calls_app, List.length_app, draw_row_headsign.
    simpl. by rewrite Hcount.
  - intros x y' text Hin. apply elem_of_app in Hin as [Hin|Hin].
    + assert (Hfilter : PrintPlain x y' text
                ∈ headsign_calls
                    (draw_row measure panel s now millis width y trip)).
      { unfold headsign_calls. by apply list_elem_of_filter. }
      rewrite draw_row_headsign in Hfilter.
      apply list_elem_of_singleton in Hfilter. injection Hfilter as -> _ ->.
      split; [done|]. exists trip. split; [left|done].
    + destruct (Hhead x y' text Hin) as (-> & trip' & Hin' & ->).
      split; [done|]. exists trip'. split; [by right|done].
  - intros x y' color align text Hin ->.
    apply elem_of_app in Hin as [Hin|Hin].
    + unfold draw_row in Hin. cbn [app] in Hin.
      apply elem_of_cons in Hin as [Heq|Hin].
      { injection Heq as -> _ _ ->. split; [done|].
        exists trip. split; [left|done]. }
      apply elem_of_cons in Hin as [Heq|Hin]; [done|].
      apply elem_of_app in Hin as [Hin|Hin].
      * exfalso. destruct (Trip.is_realtime trip);
          [|by apply elem_of_nil in Hin].
        pose proof (icon_only_pixels millis
          (get_width panel
           - ext_width (measure
               (from_now_ (Some now) (unit_display_ s)
                  (if display_departure_times_ s
                   then Trip.departure_time trip
                   else Trip.arrival_time trip))) - 2)%Z
          (y + ext_height (measure
               (from_now_ (Some now) (unit_display_ s)
                  (if display_departure_times_ s
                   then Trip.departure_time trip
                   else Trip.arrival_time trip))) - 6)%Z) as Hpix.
        rewrite Forall_forall in Hpix. by apply Hpix in Hin.
      * repeat (apply elem_of_cons in Hin as [Heq|Hin]; [done|]).
        by apply elem_of_nil in Hin.
    + destruct (Hroute x y' color TOP_LEFT text Hin eq_refl)
        as (-> & trip' & Hin' & ->).
      split; [done|]. exists trip'. split; [by right|done].
  - intros trip' Hin. apply elem_of_cons in Hin as [->|Hin].
    + exists y. apply elem_of_app. left. unfold draw_row. left.
    + destruct (Hnames trip' Hin) as [y' Hy']. exists y'.
      apply elem_of_app. by right.
Qed.

(** X21.  Whatever [draw_schedule] draws: its clipping calls are in order
    (each headsign is printed inside a region of its own, everything else
    outside, and no region stays open); it prints at most [display_limit_]
    headsigns (one if the limit is 0), each the headsign of a cached trip of
    the current stop; and all headsigns start in one column, which is three
    pixels to the right of the widest route name printed in the left column
    (of 0 if no route name is wider than that): no route name reaches
    further, and one of them is that wide unless the column is 3. *)
Theorem schedule_rows (s : Settings) (e : Surroundings)
    (t : TransitTracker) (calls : list DisplayCall) :
  draw_schedule measure panel s e t = Some calls →
  clipping_ok false calls = true ∧
  (length (headsign_calls calls) ≤ most_rows t)%nat ∧
  (∀ x y text, PrintPlain x y text ∈ calls →
     (∃ stop_id trip,
        current_stop_id t = Some stop_id ∧ trip ∈ trips t ∧
        Trip.stop_id trip = stop_id ∧ text = Trip.headsign trip) ∧
     (∀ x' y' color name, Print x' y' color TOP_LEFT name ∈ calls →
        x' = 0%Z ∧ (ext_width (measure name) + 3 ≤ x)%Z) ∧
     (3 ≤ x)%Z ∧
     (x = 3%Z ∨
      ∃ y' color name, Print 0 y' color TOP_LEFT name ∈ calls ∧
                       x = (ext_width (measure name) + 3)%Z)) ∧
  (∀ x1 y1 text1 x2 y2 text2,
     PrintPlain x1 y1 text1 ∈ calls → PrintPlain x2 y2 text2 ∈ calls →
     x1 = x2).
Proof.
  unfold draw_schedule.
  assert (Hplain : ∀ text color,
            Some (draw_text_centered_ panel text color) = Some calls →
            ∀ x y text', PrintPlain x y text' ∈ calls → False).
  { intros text color [= <-] x y text' Hin.
    apply list_elem_of_singleton in Hin. done. }
  assert (Hcentred : ∀ text color,
            Some (draw_text_centered_ panel text color) = Some calls →
            clipping_ok false calls = true ∧
            (length (headsign_calls calls) ≤ most_rows t)%nat ∧
            (∀ x y text, PrintPlain x y text ∈ calls →
               (∃ stop_id trip,
                  current_stop_id t = Some stop_id ∧ trip ∈ trips t ∧
                  Trip.stop_id trip = stop_id ∧
                  text = Trip.headsign trip) ∧
               (∀ x' y' color name,
                  Print x' y' color TOP_LEFT name ∈ calls →
                  x' = 0%Z ∧ (ext_width (measure name) + 3 ≤ x)%Z) ∧
               (3 ≤ x)%Z ∧
               (x = 3%Z ∨
                ∃ y' color name, Print 0 y' color TOP_LEFT name ∈ calls ∧
                                 x = (ext_width (measure name) + 3)%Z)) ∧
            (∀ x1 y1 text1 x2 y2 text2,
               PrintPlain x1 y1 text1 ∈ calls →
               PrintPlain x2 y2 text2 ∈ calls → x1 = x2)).
  { intros text color Hcalls.
    pose proof (Hplain text color Hcalls) as Hnone.
    injection Hcalls as <-. split; [done|]. split; [simpl; lia|].
    split.
    - intros x y text' Hin. by destruct (Hnone x y text').
    - intros x1 y1 text1 x2 y2 text2 Hin. by destruct (Hnone x1 y1 text1). }
  destruct (negb (has_display e)).
  { intros [= <-]. split; [done|]. split; [simpl; lia|]. split.
    - intros x y text Hin. by apply elem_of_nil in Hin.
    - intros x1 y1 text1 x2 y2 text2 Hin. by apply elem_of_nil in Hin. }
  repeat match goal with
         | |- (if ?b then Some (draw_text_centered_ _ _ _) else _) = _ → _ =>
             destruct b; [by apply Hcentred|]
         end.
  destruct (current_stop_id t) as [stop_id|] eqn:Hcur; [|done].
  cbn [mbind option_bind].
  destruct (bool_decide (matching_trips t stop_id (trips t) = []));
    [by apply Hcentred|].
  intros [= <-].
  destruct (matching_trips_sound t stop_id (trips t)) as [Hcount Hsound].
  destruct (draw_rows_facts s (clock e) (uptime e)
              (route_max_width measure (matching_trips t stop_id (trips t)))
              (matching_trips t stop_id (trips t)) 2)
    as (Hclip & Hlen & Hhead & Hroute & Hnames).
  destruct (route_max_width_from
              (matching_trips t stop_id (trips t)) 0)
    as (Hleast & Hwide & Hattained).
  fold (route_max_width measure (matching_trips t stop_id (trips t)))
    in Hleast, Hwide, Hattained.
  split; [done|]. split; [by rewrite Hlen|]. split.
  - intros x y text Hin.
    destruct (Hhead x y text Hin) as (-> & trip & Htrip & ->).
    split; [|split; [|split]].
    + destruct (Hsound trip Htrip) as [? ?]. by exists stop_id, trip.
    + intros x' y' color name Hname.
      destruct (Hroute x' y' color TOP_LEFT name Hname eq_refl)
        as (-> & trip' & Htrip' & ->).
      split; [done|]. specialize (Hwide trip' Htrip'). lia.
    + lia.
    + destruct Hattained as [Hzero|(trip' & Htrip' & Hmax)].
      * left. by rewrite Hzero.
      * right. destruct (Hnames trip' Htrip') as [y' Hy'].
        exists y', (Trip.route_color trip'), (Trip.route_name trip').
        split; [done|]. by rewrite Hmax.
  - intros x1 y1 text1 x2 y2 text2 Hin1 Hin2.
    destruct (Hhead x1 y1 text1 Hin1) as (-> & _).
    by destruct (Hhead x2 y2 text2 Hin2) as (-> & _).
Qed.

End RowFacts.

(** * Loading the route styles: the failure *)

Section RouteStyleFailure.
Variable split : string → ascii → list string.

(** X19.  [set_route_styles_from_text] is left by an exception exactly when
    some line of the text splits into three fields of which the third is
    not a number that [std::stoul] reads in base 16; lines with another
    number of fields never make it fail. *)
Theorem route_styles_load_fails (text : string) (t : TransitTracker) :
  set_route_styles_from_text split text t = None ↔
  ∃ line route_id name hex,
    line ∈ split text newline ∧
    split line ";"%char = [route_id; name; hex] ∧
    ∀ code, StdString.stoul16 hex ≠ StdString.StoulValue code.
Proof. unfold set_route_styles_from_text. apply route_style_lines_none. Qed.

End RouteStyleFailure.

Example route_styles_bad_colour :
  set_route_styles_from_text split_on
    ("8;Eight;0000ff" +:+ String newline "40;Forty;zz") example_tracker
  = None.
Proof. reflexivity. Qed.

(** * The closed connection: facts *)

(** X20.  When a call of [connect_ws_] has scheduled the "reconnect"
    timeout, a [ConnectionClosed] event that arrives afterwards starts no
    connect of its own, so the attempts of the back-off stay one chain; when
    the call has opened the connection, the event defers one call of
    [connect_ws_]; and after [on_shutdown] the event starts nothing. *)
Theorem closed_event_during_backoff (psram_ok : bool) (s : Settings)
    (link : Link) (t t' : TransitTracker) (fx : list Effect) :
  backoff_ok t →
  connect_ws_ link t = Continue t' fx →
  ((∃ ms, SetTimeout "reconnect" ms ∈ fx) →
   on_ws_event_ psram_ok s ConnectionClosed t' = []) ∧
  (ws_connected t = false → ws_connected t' = true →
   on_ws_event_ psram_ok s ConnectionClosed t' = [DeferConnect]) ∧
  on_ws_event_ psram_ok s ConnectionClosed (on_shutdown t').2.1 = [].
Proof.
  intros [Hrange _] Hc. split; [|split]; [| |done].
  - intros [ms Hin]. revert Hc Hin. unfold connect_ws_.
    destruct (bool_decide (base_url_ t = ""));
      [intros [= <- <-] Hin; by apply elem_of_nil in Hin|].
    destruct (fully_closed_ (conn t));
      [intros [= <- <-] Hin; by apply elem_of_nil in Hin|].
    destruct (ws_connected t);
      [intros [= <- <-] Hin; by apply elem_of_nil in Hin|].
    rewrite to_signed_small by (unfold MachineInt.two31; lia).
    destruct (network_is_connected link), (ws_connect_result link);
      cbn [negb];
      repeat match goal with
             | |- context [if ?b then _ else _] => destruct b
             end;
      try done; intros [= <- <-] Hin; unfold on_ws_event_; simpl;
      try (rewrite (proj2 (Z.eqb_neq _ 0)) by lia; done).
    apply list_elem_of_singleton in Hin. done.
  - intros Hoff Hon. revert Hc Hon. unfold connect_ws_.
    destruct (bool_decide (base_url_ t = ""));
      [intros [= <- <-]; congruence|].
    destruct (fully_closed_ (conn t)); [intros [= <- <-]; congruence|].
    rewrite Hoff.
    destruct (network_is_connected link), (ws_connect_result link);
      cbn [negb];
      repeat match goal with
             | |- context [if ?b then _ else _] => destruct b
             end;
      try done; intros [= <- <-]; simpl; intros Hon; try congruence;
      unfold on_ws_event_; simpl; done.
Qed.

Lemma closed_event_during_backoff_witness :
  ((∃ ms, SetTimeout "reconnect" ms ∈ [SetTimeout "reconnect" 5000]) →
   on_ws_event_ true (mkSettings "" "" "" true 3 UNIT_DISPLAY_LONG)
     ConnectionClosed (after_failure example_tracker) = []) ∧
  (ws_connected example_tracker = false →
   ws_connected (after_failure example_tracker) = true →
   on_ws_event_ true (mkSettings "" "" "" true 3 UNIT_DISPLAY_LONG)
     ConnectionClosed (after_failure example_tracker) = [DeferConnect]) ∧
  on_ws_event_ true (mkSettings "" "" "" true 3 UNIT_DISPLAY_LONG)
    ConnectionClosed (on_shutdown (after_failure example_tracker)).2.1 = [].
Proof.
  apply (closed_event_during_backoff true
           (mkSettings "" "" "" true 3 UNIT_DISPLAY_LONG) link_down
           example_tracker).
  - split; [simpl; lia|]. simpl. lia.
  - reflexivity.
Defined.

Section Sequences.
Context {V : Type} `{JsonApi V}.

Lemma message_frame psram_ok millis (message : Deserialized V) t t' fx :
  on_ws_message_ psram_ok millis message t = Continue t' fx →
  fx = [] ∧
  ws_connected t' = ws_connected t ∧
  connection_attempts_ (conn t') = connection_attempts_ (conn t) ∧
  has_ever_connected_ (conn t') = has_ever_connected_ (conn t) ∧
  fully_closed_ (conn t') = fully_closed_ (conn t) ∧
  base_url_ t' = base_url_ t ∧ stop_ids_ t' = stop_ids_ t ∧
  page t' = page t ∧ stop_names_ t' = stop_names_ t ∧
  (is_Some (status_error t) → is_Some (status_error t')).
Proof.
  unfold on_ws_message_.
  destruct psram_ok; simpl; [|intros [= <- <-]; by repeat split].
  destruct message as [|root]; [intros [= <- <-]; by repeat split|].
  destruct (String.eqb _ "heartbeat"); [intros [= <- <-]; by repeat split|].
  destruct (String.eqb _ "schedule"); simpl;
    [|intros [= <- <-]; by repeat split].
  destruct (push_trips _ _ _); [|done].
  intros [= <- <-]; by repeat split.
Qed.

(** X9.  [on_shutdown] is final: it cancels the interval of the watchdog and
    closes the connection for good, and whatever entry points are called
    afterwards, in any number and order, the component never opens a
    connection, never schedules a retry and never restarts the device; only
    closing the socket and drawing pages remain, and a run can end early
    only by an exception in the message handler. *)
Theorem shutdown_is_final (t : TransitTracker) (calls : list (Call (V:=V))) :
  (on_shutdown t).1 = "check_stale_trips" ∧
  (on_shutdown t).2.2 = [WsClose] ∧
  kept (λ t', fully_closed_ (conn t') = true) is_quiet (λ why, why = Aborted)
    (run_calls calls (on_shutdown t).2.1).
Proof.
  split; [done|]. split; [done|].
  apply run_calls_kept; [|done].
  clear t calls. intros c t Hclosed.
  assert (Hconnect : ∀ link t0, fully_closed_ (conn t0) = true →
            connect_ws_ link t0 = Continue t0 []).
  { intros link t0 H0. unfold connect_ws_. rewrite H0.
    by destruct (bool_decide _). }
  assert (Hreconnect : ∀ link, reconnect link t
            = Continue (set_ws_connected false t) [WsClose]).
  { intros link. unfold reconnect, close. by rewrite Hconnect. }
  destruct c as [link|link|fully| |link now|link millis|psram_ok millis message
                |now|stop_id stop_name]; simpl.
  - rewrite Hconnect by done. done.
  - rewrite Hreconnect. split; [done|]. by apply Forall_cons_2.
  - destruct fully; (split; [done|by apply Forall_cons_2]).
  - split; [done|by apply Forall_cons_2].
  - unfold check_stale_trips.
    repeat match goal with
           | |- context [if ?b then _ else _] => destruct b
           end; rewrite ?Hreconnect;
      (split; [done|]); try done; by apply Forall_cons_2.
  - unfold loop.
    destruct (_ && _); rewrite ?Hreconnect;
      (split; [done|]); try done; by apply Forall_cons_2.
  - destruct (on_ws_message_ _ _ _ _) as [t' fx|why fx] eqn:Hmsg.
    + apply message_frame in Hmsg as (-> & _ & _ & _ & Hfc & _).
      split; [congruence|done].
    + revert Hmsg. unfold on_ws_message_.
      repeat match goal with
             | |- context [if ?b then _ else _] => destruct b
             | |- context [match ?m with _ => _ end] => destruct m
             end; try done; by intros [= <- <-].
  - pose proof (tick_frame now t) as (_ & _ & _ & Hconn & _).
    pose proof (tick_draws now t) as Hdraw.
    destruct (tick now t) as [t' fx]. simpl in *. split; [congruence|].
    eapply Forall_impl; [exact Hdraw|]. by intros fx0 [p ->].
  - done.
Qed.

Lemma connect_ws_backoff link t :
  backoff_ok t →
  kept backoff_ok retry_timeout (λ why, why = Rebooting) (connect_ws_ link t).
Proof.
  intros [Hrange Herr]. unfold connect_ws_.
  destruct (bool_decide (base_url_ t = "")); [done|].
  destruct (fully_closed_ (conn t)); [done|].
  destruct (ws_connected t); [done|].
  assert (Hs : MachineInt.to_signed (connection_attempts_ (conn t) + 1)
               = (connection_attempts_ (conn t) + 1)%Z).
  { apply to_signed_small. unfold MachineInt.two31. lia. }
  assert (Hfail : ∀ fx t1,
            connection_attempts_ (conn t1) = connection_attempts_ (conn t) →
            Forall retry_timeout fx →
            kept backoff_ok retry_timeout (λ why, why = Rebooting)
              (let attempts' :=
                 MachineInt.to_signed (connection_attempts_ (conn t) + 1) in
               let t2 :=
                 set_conn {| connection_attempts_ := attempts';
                             last_heartbeat_ := 0;
                             has_ever_connected_ :=
                               has_ever_connected_ (conn t);
                             fully_closed_ := false |} t1 in
               let t3 :=
                 if (3 <=? attempts')%Z
                 then status_set_error
                        "Failed to connect to WebSocket server" t2
                 else t2 in
               if (15 <=? attempts')%Z then
                 Terminated Rebooting (fx ++ [AppReboot])
               else
                 Continue t3
                   (fx ++ [SetTimeout "reconnect"
                             (MachineInt.int_min 15000
                                (MachineInt.to_signed (attempts' * 5000)))]))).
  { intros fx t1 Ht1 Hfx. cbv zeta. rewrite Hs.
    destruct (15 <=? _)%Z eqn:H15.
    - split; [done|]. apply Forall_app. split; [done|by apply Forall_cons_2].
    - apply Z.leb_gt in H15.
      rewrite to_signed_small by (unfold MachineInt.two31; lia).
      rewrite int_min_eq. split.
      + destruct (3 <=? _)%Z eqn:H3.
        * split; [simpl; lia|]. intros _. by eexists.
        * apply Z.leb_gt in H3. split; simpl; lia.
      + apply Forall_app. split; [done|]. apply Forall_cons_2; [|done].
        split; [done|]. lia. }
  destruct (network_is_connected link), (ws_connect_result link);
    cbn [negb].
  - split; [|by apply Forall_cons_2]. split; simpl; lia.
  - apply Hfail; [done|by apply Forall_cons_2].
  - apply Hfail; done.
  - apply Hfail; done.
Qed.

Lemma reconnect_backoff link t :
  backoff_ok t →
  kept backoff_ok retry_timeout (λ why, why = Rebooting) (reconnect link t).
Proof.
  intros Hok. unfold reconnect, close.
  pose proof (connect_ws_backoff link (set_ws_connected false t) Hok) as Hc.
  destruct (connect_ws_ link _); destruct Hc as [? Hfx];
    (split; [done|by apply Forall_cons_2]).
Qed.

(** X10.  Whatever entry points are called, in any number and order, on a
    component whose counter of failed attempts is between 0 and 14 and whose
    error status is set if the counter is 3 or more: the counter stays
    between 0 and 14 and the error status stays set while it is 3 or more;
    and every timeout that is scheduled, also in a run that ends early, is
    the "reconnect" timeout with a delay of 5000, 10000 or 15000 ms. *)
Theorem backoff_state_kept (calls : list (Call (V:=V))) (t : TransitTracker) :
  backoff_ok t →
  kept backoff_ok retry_timeout (λ _, True) (run_calls calls t).
Proof.
  apply run_calls_kept. clear t calls. intros c t Hok.
  assert (Hweaken : ∀ o,
            kept backoff_ok retry_timeout (λ why, why = Rebooting) o →
            kept backoff_ok retry_timeout (λ _, True) o).
  { intros [t' fx|why fx] [? ?]; split; auto. }
  destruct c as [link|link|fully| |link now|link millis|psram_ok millis message
                |now|stop_id stop_name]; simpl.
  - by apply Hweaken, connect_ws_backoff.
  - by apply Hweaken, reconnect_backoff.
  - destruct fully; (split; [done|by apply Forall_cons_2]).
  - split; [done|by apply Forall_cons_2].
  - unfold check_stale_trips.
    repeat match goal with
           | |- context [if ?b then _ else _] => destruct b
           end; try done; by apply Hweaken, reconnect_backoff.
  - unfold loop.
    destruct (_ && _); [by apply Hweaken, reconnect_backoff|done].
  - destruct (on_ws_message_ _ _ _ _) as [t' fx|why fx] eqn:Hmsg.
    + apply message_frame in Hmsg
        as (-> & _ & Hatt & _ & _ & _ & _ & _ & _ & Herr).
      split; [|done]. destruct Hok as [Hrange Hset].
      split; [by rewrite Hatt|]. rewrite Hatt. auto.
    + revert Hmsg. unfold on_ws_message_.
      repeat match goal with
             | |- context [if ?b then _ else _] => destruct b
             | |- context [match ?m with _ => _ end] => destruct m
             end; try done; intros [= <- <-]; split; auto.
  - pose proof (tick_frame now t) as (_ & _ & Herr & Hconn & _).
    pose proof (tick_draws now t) as Hdraw.
    destruct (tick now t) as [t' fx]. simpl in *. split.
    + unfold backoff_ok. by rewrite Hconn, Herr.
    + eapply Forall_impl; [exact Hdraw|]. by intros fx0 [p ->].
  - done.
Qed.

Lemma connect_ws_frame link t t' fx :
  connect_ws_ link t = Continue t' fx →
  trips t' = trips t ∧ base_url_ t' = base_url_ t ∧
  stop_ids_ t' = stop_ids_ t ∧ page t' = page t ∧
  stop_names_ t' = stop_names_ t ∧
  (is_Some (status_error t) →
   is_Some (status_error t') ∨
   (ws_connected t' = true ∧ connection_attempts_ (conn t') = 0%Z ∧
    has_ever_connected_ (conn t') = true ∧ WsConnect (base_url_ t) ∈ fx)).
Proof.
  unfold connect_ws_.
  destruct (bool_decide (base_url_ t = ""));
    [intros [= <- <-]; repeat split; auto|].
  destruct (fully_closed_ (conn t));
    [intros [= <- <-]; repeat split; auto|].
  destruct (ws_connected t);
    [intros [= <- <-]; repeat split; auto|].
  destruct (network_is_connected link), (ws_connect_result link);
    cbn [negb];
    repeat match goal with
           | |- context [if ?b then _ else _] => destruct b
           end;
    intros [= <- <-]; repeat split; try done; intros Herr;
    try (left; done); try (left; by eexists).
  right. repeat split. left.
Qed.

Lemma reconnect_frame link t t' fx :
  reconnect link t = Continue t' fx →
  trips t' = trips t ∧ base_url_ t' = base_url_ t ∧
  stop_ids_ t' = stop_ids_ t ∧ page t' = page t ∧
  stop_names_ t' = stop_names_ t ∧
  (is_Some (status_error t) →
   is_Some (status_error t') ∨
   (ws_connected t' = true ∧ connection_attempts_ (conn t') = 0%Z ∧
    has_ever_connected_ (conn t') = true ∧ WsConnect (base_url_ t) ∈ fx)).
Proof.
  unfold reconnect, close.
  destruct (connect_ws_ link _) as [t2 fx2|] eqn:Hc; [|done].
  intros [= <- <-].
  apply connect_ws_frame in Hc as (? & ? & ? & ? & ? & Herr).
  repeat split; try done. intros Hset.
  destruct (Herr Hset) as [?|(? & ? & ? & ?)]; [by left|right].
  repeat split; try done. by right.
Qed.

Variable measure : string → Extent.
Variable panel : Panel.

(** X11.  Once the error status is set, the only call that clears it is one
    in which [connect_ws_] opens the connection: after any other call of an
    entry point the status is still set, also after a schedule message that
    was decoded and stored, and [draw_schedule] (with a display, the network
    up, a valid time and a base URL) draws the single centred text
    "Error loading schedule" instead of the trips. *)
Theorem error_page_until_connected (s : Settings) (e : Surroundings)
    (c : Call (V:=V)) (t t' : TransitTracker) (fx : list Effect) :
  is_Some (status_error t) →
  perform c t = Continue t' fx →
  (is_Some (status_error t') ∧
   (has_display e = true → network_up e = true →
    is_valid (clock e) = true → base_url_ t' ≠ "" →
    draw_schedule measure panel s e t'
    = Some [Print (Z.quot (get_width panel) 2) (Z.quot (get_height panel) 2)
              (Color_of_code 16665692) CENTER "Error loading schedule"]))
  ∨ (ws_connected t' = true ∧ connection_attempts_ (conn t') = 0%Z ∧
     has_ever_connected_ (conn t') = true ∧ WsConnect (base_url_ t) ∈ fx).
Proof.
  intros Herr Hc.
  assert (Hstill : is_Some (status_error t') ∨
            (ws_connected t' = true ∧ connection_attempts_ (conn t') = 0%Z ∧
             has_ever_connected_ (conn t') = true ∧
             WsConnect (base_url_ t) ∈ fx)).
  { destruct c as [link|link|fully| |link now|link millis
                  |psram_ok millis message|now|stop_id stop_name];
      simpl in Hc.
    - apply connect_ws_frame in Hc as (_ & _ & _ & _ & _ & Hc). auto.
    - apply reconnect_frame in Hc as (_ & _ & _ & _ & _ & Hc). auto.
    - left. destruct fully; by injection Hc as <- <-.
    - left. by injection Hc as <- <-.
    - unfold check_stale_trips in Hc.
      destruct (_ && _); [|left; by injection Hc as <- <-].
      destruct (if is_valid now then _ else _);
        [|left; by injection Hc as <- <-].
      apply reconnect_frame in Hc as (_ & _ & _ & _ & _ & Hc). auto.
    - unfold loop in Hc.
      destruct (_ && _); [|left; by injection Hc as <- <-].
      apply reconnect_frame in Hc as (_ & _ & _ & _ & _ & Hc). auto.
    - left. apply message_frame in Hc. by apply Hc.
    - left. pose proof (tick_frame now t) as (_ & _ & Hst & _).
      destruct (tick now t) as [t1 fx1]. injection Hc as <- <-.
      simpl in Hst. by rewrite Hst.
    - left. by injection Hc as <- <-. }
  destruct Hstill as [Hset|Hopen]; [left|by right].
  split; [done|]. intros Hd Hn Hv Hurl. unfold draw_schedule.
  rewrite Hd, Hn, Hv. simpl.
  rewrite bool_decide_eq_false_2 by done.
  by rewrite bool_decide_eq_true_2.
Qed.

Lemma scan_stale_later now now' trips :
  (timestamp now ≤ timestamp now')%Z →
  scan_stale now trips = true → scan_stale now' trips = true.
Proof.
  intros Hle. rewrite !scan_stale_true.
  intros (trip & Hin & Hold). exists trip. split; [done|lia].
Qed.

(** X12.  A reconnect that the watchdog starts leaves the cached trips as
    they are, so when it has opened a new connection the stale trips are
    still there: every later call of the watchdog with a valid time that is
    not earlier reconnects again, until a schedule message replaces the
    trips. *)
Theorem watchdog_refires (link link' : Link) (now now' : ESPTime)
    (t t' : TransitTracker) (fx : list Effect) :
  check_stale_trips link now t = Continue t' fx → fx ≠ [] →
  trips t' = trips t ∧
  (ws_connected t' = true → is_valid now' = true →
   (timestamp now ≤ timestamp now')%Z →
   check_stale_trips link' now' t' = reconnect link' t').
Proof.
  unfold check_stale_trips at 1. intros Hc Hfx.
  destruct (ws_connected t && _) eqn:Hguard; [|by injection Hc as <- <-].
  destruct (is_valid now) eqn:Hvalid; [|by injection Hc as <- <-].
  destruct (scan_stale now (trips t)) eqn:Hstale;
    [|by injection Hc as <- <-].
  apply reconnect_frame in Hc as (Htrips & _).
  split; [done|]. intros Hws Hvalid' Hle.
  unfold check_stale_trips. rewrite Hws, Htrips, Hvalid'.
  apply andb_true_iff in Hguard as [_ ->]. simpl.
  by rewrite (scan_stale_later now now' _ Hle Hstale).
Qed.

Lemma decode_trip_tables (t1 t2 : TransitTracker) (entry : V) :
  abbreviations_ t1 = abbreviations_ t2 →
  route_styles_ t1 = route_styles_ t2 →
  default_route_color_ t1 = default_route_color_ t2 →
  decode_trip t1 entry = decode_trip t2 entry.
Proof. unfold decode_trip. by intros -> -> ->. Qed.

Lemma push_trips_tables (t1 t2 : TransitTracker) (entries : list V) :
  abbreviations_ t1 = abbreviations_ t2 →
  route_styles_ t1 = route_styles_ t2 →
  default_route_color_ t1 = default_route_color_ t2 →
  ∀ vec, push_trips t1 entries vec = push_trips t2 entries vec.
Proof.
  intros Ha Hr Hd.
  induction entries as [|entry rest IH]; intros vec; simpl; [done|].
  rewrite (decode_trip_tables t1 t2 entry Ha Hr Hd).
  destruct (decode_trip t2 entry); simpl; [apply IH|done].
Qed.

Lemma push_trips_each (t : TransitTracker) (entries : list V) :
  ∀ vec out, push_trips t entries vec = Some out →
  ∃ decoded, out = vec ++ decoded ∧
    Forall2 (λ entry trip, decode_trip t entry = Some trip) entries decoded.
Proof.
  induction entries as [|entry rest IH]; intros vec out; simpl.
  - intros [= <-]. exists []. by rewrite app_nil_r.
  - destruct (decode_trip t entry) as [trip|] eqn:Hd; simpl; [|done].
    intros Hrest. apply IH in Hrest as (decoded & -> & Hall).
    exists (trip :: decoded). rewrite <- app_assoc. split; [done|].
    by apply Forall2_cons.
Qed.

(** X13.  A schedule message that the handler stores replaces the cache as
    a whole: the new cache has one trip for each entry of the message, in
    the order of the message, each decoded with the tables of the component,
    and it is the same whatever the cache held before and whenever the
    message arrives; so the same message handled again changes nothing. *)
Theorem schedule_replaces_cache (root : V) (millis : Z)
    (t t' : TransitTracker) (fx : list Effect) :
  event_of root = "schedule" →
  on_ws_message_ true millis (Document root) t = Continue t' fx →
  Forall2 (λ entry trip, decode_trip t entry = Some trip)
    (schedule_entries root) (trips t') ∧
  (∀ vec millis',
     on_ws_message_ true millis' (Document root) (set_trips vec t)
     = Continue t' []) ∧
  ∀ millis', on_ws_message_ true millis' (Document root) t' = Continue t' [].
Proof.
  intros Hevent. unfold on_ws_message_. rewrite Hevent. simpl.
  destruct (push_trips t (schedule_entries root) []) as [out|] eqn:Hpush;
    [|done].
  intros [= <- <-].
  destruct (push_trips_each t _ _ _ Hpush) as (decoded & -> & Hall).
  split; [done|]. split.
  - intros vec millis'.
    rewrite (push_trips_tables (set_trips vec t) t) by done.
    by rewrite Hpush.
  - intros millis'.
    rewrite (push_trips_tables (set_trips _ t) t) by done.
    by rewrite Hpush.
Qed.

Lemma perform_registry (c : Call (V:=V)) (t t' : TransitTracker)
    (fx : list Effect) :
  registry_ok t →
  (Z.of_nat (length (stop_ids_ t)) < MachineInt.two31)%Z →
  perform c t = Continue t' fx →
  registry_ok t' ∧ (length (stop_ids_ t') ≤ S (length (stop_ids_ t)))%nat.
Proof.
  intros Hok Hlen Hc.
  assert (Hsame : page t' = page t → stop_ids_ t' = stop_ids_ t →
            stop_names_ t' = stop_names_ t →
            registry_ok t' ∧
            (length (stop_ids_ t') ≤ S (length (stop_ids_ t)))%nat).
  { intros Hp Hi Hn. split; [|rewrite Hi; lia].
    eapply registry_ok_same; [| | |exact Hok]; by try rewrite Hp. }
  destruct c as [link|link|fully| |link now|link millis
                |psram_ok millis message|now|stop_id stop_name];
    simpl in Hc.
  - apply connect_ws_frame in Hc as (_ & _ & ? & ? & ? & _). by apply Hsame.
  - apply reconnect_frame in Hc as (_ & _ & ? & ? & ? & _). by apply Hsame.
  - destruct fully; injection Hc as <- <-; by apply Hsame.
  - injection Hc as <- <-. by apply Hsame.
  - unfold check_stale_trips in Hc.
    destruct (_ && _); [|injection Hc as <- <-; by apply Hsame].
    destruct (if is_valid now then _ else _);
      [|injection Hc as <- <-; by apply Hsame].
    apply reconnect_frame in Hc as (_ & _ & ? & ? & ? & _). by apply Hsame.
  - unfold loop in Hc.
    destruct (_ && _); [|injection Hc as <- <-; by apply Hsame].
    apply reconnect_frame in Hc as (_ & _ & ? & ? & ? & _). by apply Hsame.
  - apply message_frame in Hc as (_ & _ & _ & _ & _ & _ & ? & ? & ? & _).
    by apply Hsame.
  - pose proof (tick_registry now t Hok Hlen) as Htick.
    pose proof (tick_frame now t) as (_ & _ & _ & _ & _ & _ & Hids).
    destruct (tick now t) as [t1 fx1]. injection Hc as <- <-.
    simpl in *. split; [done|]. rewrite Hids. lia.
  - injection Hc as <- <-. split; [by apply add_stop_name_registry|].
    simpl. rewrite List.length_app. simpl. lia.
Qed.

(** X15.  A registry of stops as [add_stop_name] builds it stays one under
    the calls of the entry points (as long as the stops are fewer than
    2^31): the index of the current stop stays inside the vector and every
    stop keeps a name.  So the drawing routines never index outside
    [stop_ids_], and the name page shows the registered name of the current
    stop, never the text for an unknown stop in its place. *)
Theorem registry_kept (s : Settings) (e : Surroundings)
    (calls : list (Call (V:=V))) (t t' : TransitTracker) (fx : list Effect) :
  registry_ok t →
  (Z.of_nat (length (stop_ids_ t) + length calls) < MachineInt.two31)%Z →
  run_calls calls t = Continue t' fx →
  registry_ok t' ∧
  is_Some (draw_schedule measure panel s e t') ∧
  (stop_ids_ t' ≠ [] →
   ∃ name,
     name_at t' (current_stop_index_ (page t')) = Some name ∧
     draw_stop_name panel s t'
     = Some [Print (Z.quot (get_width panel) 2)
               (Z.quot (get_height panel) 2 - 6)%Z
               (Color_of_code 44783) CENTER name;
             Print (Z.quot (get_width panel) 2)
               (Z.quot (get_height panel) 2 + 6)%Z
               (Color_of_code 16777215) CENTER
               (if display_departure_times_ s
                then "Upcoming Bus Departures"
                else "Upcoming Bus Arrivals")]).
Proof.
  intros Hok Hlen Hrun.
  assert (Hkept : registry_ok t').
  { revert t fx Hok Hlen Hrun.
    induction calls as [|c rest IH]; intros t fx Hok Hlen; simpl.
    - by intros [= <- <-].
    - destruct (perform c t) as [t1 fx1|] eqn:Hc; [|done].
      destruct (run_calls rest t1) as [t2 fx2|] eqn:Hrest; [|done].
      intros [= <- <-].
      simpl in Hlen.
      destruct (perform_registry c t t1 fx1 Hok) as [Hok1 Hlen1];
        [lia|done|].
      apply (IH t1 fx2); [done|lia|done]. }
  split; [done|]. split.
  - unfold draw_schedule.
    repeat match goal with
           | |- is_Some (if ?b then _ else _) => destruct b eqn:?
           end; try by eexists.
    match goal with
    | Hne : bool_decide (stop_ids_ t' = []) = false |- _ =>
        apply bool_decide_eq_false in Hne;
        destruct (registry_current t' Hkept Hne) as (stop_id & ? & -> & _)
    end.
    cbn [mbind option_bind].
    destruct (bool_decide (matching_trips _ _ _ = [])); by eexists.
  - intros Hstops.
    destruct (registry_current t' Hkept Hstops)
      as (stop_id & name & Hcur & Hname & Hat).
    exists name. split; [done|]. unfold draw_stop_name.
    rewrite bool_decide_eq_false_2 by done.
    rewrite Hcur. simpl. by rewrite Hname.
Qed.

End Sequences.

Lemma backoff_state_kept_witness :
  kept backoff_ok retry_timeout (λ _, True)
    (run_calls
       [CallConnect link_down; CallTick 9000;
        CallMessage true 10 (Document example_schedule);
        CallWatchdog link_refused (mkESPTime 1700001000 true)]
       example_tracker).
Proof.
  apply (backoff_state_kept (V:=json)).
  split; [simpl; lia|]. simpl. lia.
Defined.

Lemma error_page_until_connected_witness :
  let t := status_set_error "Failed to parse schedule data" example_tracker in
  let t' :=
    match on_ws_message_ true 10 (Document example_schedule) t with
    | Continue t' _ => t'
    | Terminated _ _ => t
    end in
  let e := mkSurroundings true true (mkESPTime 1000 true) 0 in
  let panel := mkPanel 64 32 in
  (is_Some (status_error t') ∧
   (has_display e = true → network_up e = true →
    is_valid (clock e) = true → base_url_ t' ≠ "" →
    draw_schedule (λ _, mkExtent 10 0 7 8) panel
      (mkSettings "" "" "" true 3 UNIT_DISPLAY_LONG) e t'
    = Some [Print (Z.quot (get_width panel) 2) (Z.quot (get_height panel) 2)
              (Color_of_code 16665692) CENTER "Error loading schedule"]))
  ∨ (ws_connected t' = true ∧ connection_attempts_ (conn t') = 0%Z ∧
     has_ever_connected_ (conn t') = true ∧ WsConnect (base_url_ t) ∈ []).
Proof.
  intros t t' e panel.
  apply (error_page_until_connected (V:=json) (λ _, mkExtent 10 0 7 8) panel
           (mkSettings "" "" "" true 3 UNIT_DISPLAY_LONG) e
           (CallMessage true 10 (Document example_schedule)) t t' []).
  - by eexists.
  - reflexivity.
Defined.

Lemma watchdog_refires_witness :
  let now := mkESPTime 2000 true in
  let now' := mkESPTime 2060 true in
  let t' :=
    match check_stale_trips link_up now styled_tracker with
    | Continue t' _ => t'
    | Terminated _ _ => styled_tracker
    end in
  trips t' = trips styled_tracker ∧
  (ws_connected t' = true → is_valid now' = true →
   (timestamp now ≤ timestamp now')%Z →
   check_stale_trips link_refused now' t' = reconnect link_refused t').
Proof.
  intros now now' t'.
  apply (watchdog_refires link_up link_refused now now' styled_tracker t'
           [WsClose; WsConnect (base_url_ styled_tracker)]).
  - reflexivity.
  - discriminate.
Defined.

Lemma schedule_replaces_cache_witness :
  let t' :=
    match on_ws_message_ true 10 (Document example_schedule) example_tracker
    with
    | Continue t' _ => t'
    | Terminated _ _ => example_tracker
    end in
  Forall2 (λ entry trip, decode_trip example_tracker entry = Some trip)
    (schedule_entries example_schedule) (trips t') ∧
  (∀ vec millis',
     on_ws_message_ true millis' (Document example_schedule)
       (set_trips vec example_tracker)
     = Continue t' []) ∧
  ∀ millis',
    on_ws_message_ true millis' (Document example_schedule) t'
    = Continue t' [].
Proof.
  intros t'.
  apply (schedule_replaces_cache example_schedule 10 example_tracker t' []).
  - reflexivity.
  - reflexivity.
Defined.

Lemma registry_kept_witness :
  let s := mkSettings "" "" "" true 3 UNIT_DISPLAY_LONG in
  let e := mkSurroundings true true (mkESPTime 1000 true) 0 in
  let panel := mkPanel 64 32 in
  let t' :=
    match run_calls (V:=json)
            [CallAddStopName "1_050" "Union Station"; CallTick 0;
             CallAddStopName "1_100" "Pine St"; CallTick 8000]
            (initial_tracker 3)
    with
    | Continue t' _ => t'
    | Terminated _ _ => initial_tracker 3
    end in
  registry_ok t' ∧
  is_Some (draw_schedule (λ _, mkExtent 10 0 7 8) panel s e t') ∧
  (stop_ids_ t' ≠ [] →
   ∃ name,
     name_at t' (current_stop_index_ (page t')) = Some name ∧
     draw_stop_name panel s t'
     = Some [Print (Z.quot (get_width panel) 2)
               (Z.quot (get_height panel) 2 - 6)%Z
               (Color_of_code 44783) CENTER name;
             Print (Z.quot (get_width panel) 2)
               (Z.quot (get_height panel) 2 + 6)%Z
               (Color_of_code 16777215) CENTER
               (if display_departure_times_ s
                then "Upcoming Bus Departures"
                else "Upcoming Bus Arrivals")]).
Proof.
  intros s e panel t'.
  apply (registry_kept (V:=json) (λ _, mkExtent 10 0 7 8) panel s e
           [CallAddStopName "1_050" "Union Station"; CallTick 0;
            CallAddStopName "1_100" "Pine St"; CallTick 8000]
           (initial_tracker 3) t' [Draw StopNamePage; Draw SchedulePage]).
  - split; [simpl; lia|]. split; [by left|].
    intros stop_id Hin. by apply elem_of_nil in Hin.
  - unfold MachineInt.two31. simpl. lia.
  - vm_compute. reflexivity.
Defined.

Lemma schedule_rows_witness :
  let measure := λ text : string, mkExtent (6 * Z.of_nat (String.length text)) 0 7 8 in
  let panel := mkPanel 64 32 in
  let s := mkSettings "" "" "" true 3 UNIT_DISPLAY_SHORT in
  let e := mkSurroundings true true (mkESPTime 940 true) 3100 in
  let t :=
    match run_calls (V:=json)
            [CallAddStopName "1_100" "Pine St"; CallConnect link_up]
            example_tracker
    with
    | Continue t _ => t
    | Terminated _ _ => example_tracker
    end in
  let calls := default [] (draw_schedule measure panel s e t) in
  clipping_ok false calls = true ∧
  (length (headsign_calls calls) ≤ most_rows t)%nat ∧
  (∀ x y text, PrintPlain x y text ∈ calls →
     (∃ stop_id trip,
        current_stop_id t = Some stop_id ∧ trip ∈ trips t ∧
        Trip.stop_id trip = stop_id ∧ text = Trip.headsign trip) ∧
     (∀ x' y' color name, Print x' y' color TOP_LEFT name ∈ calls →
        x' = 0%Z ∧ (ext_width (measure name) + 3 ≤ x)%Z) ∧
     (3 ≤ x)%Z ∧
     (x = 3%Z ∨
      ∃ y' color name, Print 0 y' color TOP_LEFT name ∈ calls ∧
                       x = (ext_width (measure name) + 3)%Z)) ∧
  (∀ x1 y1 text1 x2 y2 text2,
     PrintPlain x1 y1 text1 ∈ calls → PrintPlain x2 y2 text2 ∈ calls →
     x1 = x2).
Proof.
  intros measure panel s e t calls.
  apply (schedule_rows measure panel s e t calls).
  vm_compute. reflexivity.
Defined.

Example schedule_rows_drawn :
  headsign_calls
    (default []
       (draw_schedule
          (λ text : string, mkExtent (6 * Z.of_nat (String.length text)) 0 7 8)
          (mkPanel 64 32)
          (mkSettings "" "" "" true 3 UNIT_DISPLAY_SHORT)
          (mkSurroundings true true (mkESPTime 940 true) 3100)
          (set_conn
             {| connection_attempts_ := 0; last_heartbeat_ := 0;
                has_ever_connected_ := true; fully_closed_ := false |}
             (add_stop_name "1_100" "Pine St" example_tracker))))
  = [PrintPlain 15 2 "Northgate"].
Proof. vm_compute. reflexivity. Qed.
